(** * Chapter unlock leases of the Rovel server (server.js)

    A shallow embedding of the lease core of [server.js]: the
    [chapter_locks] collection, the handlers that grant, check, list and
    revoke leases, the gated chapter read, the 40-second timer and the
    periodic cleanup; then of the rest of the server: start-up, users,
    and the catalogue of content, chapters and ads configuration.

    Modelling conventions.
    - Identifiers in a request body are JSON scalars ([jsval]).  A number
      is an integer-valued double ([Num z], [z] being that double), [NaN]
      or an infinity; [parseInt] and [+ 1] round their result to a double
      and ToString prints the shortest digits that read back as the same
      double, in exponent form from 10^21 on.  Fractions are outside the
      model.  Strings are the UTF-8 bytes of the JS string.
    - [req.query.user] is absent, a string, or an object or array
      ([?user[$ne]=x]); [chapter_gate_query] takes all three, and
      [chapter_gate] is that handler on a scalar.  Objects and arrays in
      the other identifier positions are outside the model.
    - The store compares scalars by type and value, [NaN] being equal to
      itself; every document of [chapter_locks] carries all its fields.
    - Timestamps ([Date], [Date.now()]) are milliseconds in [Z].  Every
      clock read of a handler is an explicit argument, in source order.
    - A collection is the list of its documents in natural order;
      [findOne] and [updateOne] act on the first match.  The unique
      indexes of [content] and [chapters] are taken to be in place; that
      of [users] is a parameter of [guest_user], since the server starts
      without it when its creation fails.
    - A store call may throw.  A handler receives the fault schedule [fs]
      of its store calls, in order ([true]: that call throws and is not
      applied); a schedule that runs out means no further fault.
    - [console.error]/[console.log] lines are appended to [console]. *)

From Stdlib Require Import ZArith List Bool String Ascii Lia DecimalString.
Import ListNotations.
Open Scope string_scope.
Open Scope list_scope.
Open Scope Z_scope.

(** ** JavaScript scalars *)

Inductive number : Type :=
| Num (z : Z)
| NaN
| Infinity (negative : bool).

Inductive jsval : Type :=
| JUndefined
| JNull
| JBool (b : bool)
| JNum (n : number)
| JStr (s : string).

Definition number_eqb (a b : number) : bool :=
  match a, b with
  | Num x, Num y => Z.eqb x y
  | NaN, NaN => true
  | Infinity x, Infinity y => Bool.eqb x y
  | _, _ => false
  end.

(** Equality of two stored scalars as the store compares them: same type
    and same value; [NaN] equals [NaN]. *)
Definition jsval_eqb (a b : jsval) : bool :=
  match a, b with
  | JUndefined, JUndefined => true
  | JNull, JNull => true
  | JBool x, JBool y => Bool.eqb x y
  | JNum x, JNum y => number_eqb x y
  | JStr x, JStr y => String.eqb x y
  | _, _ => false
  end.

(** [!v] is [negb (truthy v)]. *)
Definition truthy (v : jsval) : bool :=
  match v with
  | JUndefined | JNull => false
  | JBool b => b
  | JNum (Num z) => negb (Z.eqb z 0)
  | JNum NaN => false
  | JNum (Infinity _) => true
  | JStr s => negb (String.eqb s "")
  end.

(** [a || b] on values. *)
Definition js_or (a b : jsval) : jsval := if truthy a then a else b.

(** *** Integers as doubles *)

(** The Number value of a mathematical integer: the nearest double, the
    one with an even significand on a tie, an infinity from 2^1024 on. *)
Definition round_double (z : Z) : number :=
  let a := Z.abs z in
  let e := Z.log2 a - 52 in
  if e <=? 0 then Num z
  else
    let q := Z.shiftr a e in
    let r := a - Z.shiftl q e in
    let half := Z.shiftl 1 (e - 1) in
    let q' := if (half <? r) || ((r =? half) && Z.odd q) then q + 1 else q in
    let m := Z.shiftl q' e in
    if Z.shiftl 1 1024 <=? m then Infinity (z <? 0)
    else Num (if z <? 0 then - m else m).

Definition decimal (a : Z) : string := NilZero.string_of_int (Z.to_int a).

Definition rounds_to (x v : Z) : bool :=
  match round_double v with
  | Num y => y =? x
  | _ => false
  end.

(** Number::toString looks for the fewest digits [s] and the exponent
    [n] such that [s * 10^(n - k)] has Number value [x], [k] being the
    number of digits of [s]; among several [s] the closest to [x], the
    even one on a tie.  [x] is positive with [n] digits; the two
    [k]-digit candidates are the neighbours of [x]. *)
Definition candidate (x n k : Z) : option (Z * Z) :=
  let scale := 10 ^ (n - k) in
  let lo := x / scale in
  let hi := lo + 1 in
  let below := (lo, n) in
  let above := if hi =? 10 ^ k then (10 ^ (k - 1), n + 1) else (hi, n) in
  match rounds_to x (lo * scale), rounds_to x (hi * scale) with
  | true, true =>
      let dl := x - lo * scale in
      let dh := hi * scale - x in
      if dl <? dh then Some below
      else if dh <? dl then Some above
      else if Z.even lo then Some below else Some above
  | true, false => Some below
  | false, true => Some above
  | false, false => None
  end.

(** A double needs 17 digits at most. *)
Fixpoint shortest (fuel : nat) (x n k : Z) : Z * Z :=
  match fuel with
  | O => (x, n)
  | S fuel' =>
      match candidate x n k with
      | Some r => r
      | None => shortest fuel' x n (k + 1)
      end
  end.

Fixpoint zeros (n : nat) : string :=
  match n with
  | O => ""
  | S n' => String "0" (zeros n')
  end.

(** Number::toString of a positive integer-valued double: plain digits
    up to 21 of them, then the exponent form. *)
Definition positive_to_string (x : Z) : string :=
  let n := Z.of_nat (String.length (decimal x)) in
  let '(s, n') := shortest 17 x n 1 in
  let ds := decimal s in
  let k := Z.of_nat (String.length ds) in
  if n' <=? 21 then ds ++ zeros (Z.to_nat (n' - k))
  else
    match ds with
    | String d EmptyString => String d ("e+" ++ decimal (n' - 1))
    | String d r => String d ("." ++ r ++ "e+" ++ decimal (n' - 1))
    | EmptyString => ""
    end.

Definition number_to_string (n : number) : string :=
  match n with
  | NaN => "NaN"
  | Infinity false => "Infinity"
  | Infinity true => "-Infinity"
  | Num z =>
      match round_double z with
      | Num 0 => "0"
      | Num x => if x <? 0 then "-" ++ positive_to_string (- x) else positive_to_string x
      | _ => if z <? 0 then "-Infinity" else "Infinity"
      end
  end.

(** ToString on scalars. *)
Definition to_string (v : jsval) : string :=
  match v with
  | JUndefined => "undefined"
  | JNull => "null"
  | JBool true => "true"
  | JBool false => "false"
  | JNum n => number_to_string n
  | JStr s => s
  end.

(** *** parseInt (one argument, so radix 10 unless a 0x prefix) *)

(** White space and line terminators of one byte. *)
Definition is_ws (a : ascii) : bool :=
  let n := nat_of_ascii a in
  (Nat.eqb n 9 || Nat.eqb n 10 || Nat.eqb n 11 || Nat.eqb n 12
   || Nat.eqb n 13 || Nat.eqb n 32)%bool.

(** Those of two and three bytes in UTF-8: U+00A0, U+1680, U+2000 to
    U+200A, U+2028, U+2029, U+202F, U+205F, U+3000 and U+FEFF. *)
Definition is_ws2 (a b : ascii) : bool :=
  (Nat.eqb (nat_of_ascii a) 194 && Nat.eqb (nat_of_ascii b) 160)%bool.

Definition is_ws3 (a b c : ascii) : bool :=
  let x := nat_of_ascii a in
  let y := nat_of_ascii b in
  let z := nat_of_ascii c in
  (Nat.eqb x 225 && Nat.eqb y 154 && Nat.eqb z 128
   || Nat.eqb x 226 && Nat.eqb y 128
      && (Nat.leb 128 z && Nat.leb z 138 || Nat.eqb z 168 || Nat.eqb z 169 || Nat.eqb z 175)
   || Nat.eqb x 226 && Nat.eqb y 129 && Nat.eqb z 159
   || Nat.eqb x 227 && Nat.eqb y 128 && Nat.eqb z 128
   || Nat.eqb x 239 && Nat.eqb y 187 && Nat.eqb z 191)%bool.

Fixpoint skip_ws (s : string) : string :=
  match s with
  | String a r =>
      if is_ws a then skip_ws r
      else
        match r with
        | String b r2 =>
            if is_ws2 a b then skip_ws r2
            else
              match r2 with
              | String c r3 => if is_ws3 a b c then skip_ws r3 else s
              | EmptyString => s
              end
        | EmptyString => s
        end
  | EmptyString => s
  end.

Definition digit_of (radix : Z) (a : ascii) : option Z :=
  let n := Z.of_nat (nat_of_ascii a) in
  let v :=
    if (48 <=? n) && (n <=? 57) then Some (n - 48)
    else if (97 <=? n) && (n <=? 122) then Some (n - 87)
    else if (65 <=? n) && (n <=? 90) then Some (n - 55)
    else None in
  match v with
  | Some d => if d <? radix then Some d else None
  | None => None
  end.

(** Longest prefix of digits; [None] when there is no digit at all. *)
Fixpoint parse_digits (radix : Z) (s : string) (acc : option Z) : option Z :=
  match s with
  | String a r =>
      match digit_of radix a with
      | Some d =>
          parse_digits radix r
            (Some (match acc with Some v => v * radix + d | None => d end))
      | None => acc
      end
  | EmptyString => acc
  end.

Definition parseInt_string (s : string) : number :=
  let s1 := skip_ws s in
  let '(neg, s2) :=
    match s1 with
    | String "-" r => (true, r)
    | String "+" r => (false, r)
    | _ => (false, s1)
    end in
  let '(radix, s3) :=
    match s2 with
    | String "0" (String "x" r) => (16, r)
    | String "0" (String "X" r) => (16, r)
    | _ => (10, s2)
    end in
  match parse_digits radix s3 None with
  | Some v => round_double (if neg then - v else v)
  | None => NaN
  end.

Definition parseInt (v : jsval) : jsval := JNum (parseInt_string (to_string v)).

(** The driver writes [undefined] as [null]. *)
Definition to_bson (v : jsval) : jsval :=
  match v with
  | JUndefined => JNull
  | _ => v
  end.

(** ** Collections *)

(** A [chapter_locks] document (the lease). *)
Record lock : Type := mkLock {
  userId : jsval;
  contentId : jsval;
  chapterId : jsval;
  unlockedAt : Z;
  expiresAt : Z
}.

(** A [users] document: its [id] and [last_seen] (the clock reading whose
    ISO rendering is stored). *)
Record user : Type := mkUser {
  id : jsval;
  last_seen : Z
}.

(** A [chapters] document as the chapter reads use it; an absent field is
    [JUndefined], absent [pages] is [None]. *)
Record chapter : Type := mkChapter {
  normalizedTitle : jsval;
  chapter_chapterId : jsval;
  title : jsval;
  pages : option (list jsval);
  content : jsval
}.

Record store : Type := mkStore {
  chapter_locks : list lock;
  users : list user;
  chapters : list chapter
}.

(** A pending [setTimeout] callback of the timer endpoint with the
    variables it closed over; [due] is the instant of the request plus
    the delay it passed to [setTimeout]. *)
Record timer : Type := mkTimer {
  due : Z;
  timer_userId : jsval;
  timer_contentId : jsval;
  timer_chapterId : jsval
}.

Inductive log_line : Type :=
| LogError (prefix : string)
| LogAutoCleaned (deletedCount : nat)
| LogUnlocked (contentId chapterId userId : jsval).

Record world : Type := mkWorld {
  connected : bool;          (* [db] is set *)
  db : store;
  timers : list timer;
  console : list log_line
}.

Definition set_db (w : world) (s : store) : world :=
  mkWorld (connected w) s (timers w) (console w).

Definition log (w : world) (l : log_line) : world :=
  mkWorld (connected w) (db w) (timers w) (console w ++ [l]).

Definition set_locks (s : store) (l : list lock) : store :=
  mkStore l (users s) (chapters s).

Definition set_users (s : store) (l : list user) : store :=
  mkStore (chapter_locks s) l (chapters s).

(** ** Responses *)

Inductive body : Type :=
| Error (error : string)
| Unlocked (unlocked : bool)
| UnlockOk (message : string) (expiresAt : Z)
| Refreshed (message : string) (deletedCount : nat)
| Locks (locks : list lock)
| Success (message : string)
| ChapterPayload (title : jsval) (pages : list jsval) (content : jsval)
| TimerStarted (message : string) (timerDuration : Z).

Record response : Type := mkResponse {
  status : Z;
  json : body
}.

(** ** Store calls inside try/catch *)

Inductive outcome (A : Type) : Type :=
| Returned (a : A)
| Thrown.
Arguments Returned {A} a.
Arguments Thrown {A}.

Definition M (A : Type) : Type := list bool -> store -> outcome A * list bool * store.

Definition ret {A} (a : A) : M A := fun fs s => (Returned a, fs, s).

Definition bind {A B} (m : M A) (k : A -> M B) : M B :=
  fun fs s =>
    match m fs s with
    | (Returned a, fs', s') => k a fs' s'
    | (Thrown, fs', s') => (Thrown, fs', s')
    end.

Notation "x <- m ;; k" := (bind m (fun x => k))
  (at level 61, m at next level, right associativity).

(** One awaited store call: it throws when the schedule says so. *)
Definition call {A} (op : store -> A * store) : M A :=
  fun fs s =>
    match fs with
    | true :: fs' => (Thrown, fs', s)
    | false :: fs' => let '(a, s') := op s in (Returned a, fs', s')
    | [] => let '(a, s') := op s in (Returned a, [], s')
    end.

(** [try { body } catch (error) { console.error(prefix, error); res.status(500).json({error}) }]
    around a handler body. *)
Definition try_catch (m : M response) (prefix error : string)
  (fs : list bool) (w : world) : response * world :=
  match m fs (db w) with
  | (Returned r, _, s) => (r, set_db w s)
  | (Thrown, _, s) => (mkResponse 500 (Error error), log (set_db w s) (LogError prefix))
  end.

Definition unavailable : response := mkResponse 503 (Error "Database not available").

(** ** Filters and store operations on [chapter_locks] *)

Definition eq_field (query stored : jsval) : bool := jsval_eqb (to_bson query) stored.

(** [{ userId, contentId, chapterId }] *)
Definition triple_filter (u c ch : jsval) (d : lock) : bool :=
  eq_field u (userId d) && eq_field c (contentId d) && eq_field ch (chapterId d).

(** [expiresAt: { $gt: now }] and [expiresAt: { $lt: now }] *)
Definition expires_gt (now : Z) (d : lock) : bool := now <? expiresAt d.
Definition expires_lt (now : Z) (d : lock) : bool := expiresAt d <? now.

Definition findOne {A} (p : A -> bool) (l : list A) : option A := find p l.

Fixpoint update_first {A} (p : A -> bool) (f : A -> A) (l : list A) : option (list A) :=
  match l with
  | [] => None
  | d :: r =>
      if p d then Some (f d :: r)
      else match update_first p f r with
           | Some r' => Some (d :: r')
           | None => None
           end
  end.

Definition set_dates (unlocked expires : Z) (d : lock) : lock :=
  mkLock (userId d) (contentId d) (chapterId d) unlocked expires.

(** [updateOne({userId, contentId, chapterId}, {$set: {unlockedAt, expiresAt}}, {upsert: true})] *)
Definition upsert_lock (u c ch : jsval) (unlocked expires : Z) (l : list lock) : list lock :=
  match update_first (triple_filter u c ch) (set_dates unlocked expires) l with
  | Some l' => l'
  | None => l ++ [mkLock (to_bson u) (to_bson c) (to_bson ch) unlocked expires]
  end.

Definition locks_upsert (u c ch : jsval) (unlocked expires : Z) : M unit :=
  call (fun s => (tt, set_locks s (upsert_lock u c ch unlocked expires (chapter_locks s)))).

Definition locks_findOne (p : lock -> bool) : M (option lock) :=
  call (fun s => (findOne p (chapter_locks s), s)).

Definition locks_find (p : lock -> bool) : M (list lock) :=
  call (fun s => (filter p (chapter_locks s), s)).

(** [deleteMany(filter)]: the result carries [deletedCount]. *)
Definition locks_deleteMany (p : lock -> bool) : M nat :=
  call (fun s => (List.length (filter p (chapter_locks s)),
                  set_locks s (filter (fun d => negb (p d)) (chapter_locks s)))).

(** [users.updateOne({id: userId}, {$set: {last_seen}})], no upsert. *)
Definition touch_user (u : jsval) (seen : Z) (l : list user) : list user :=
  match update_first (fun x => eq_field u (id x)) (fun x => mkUser (id x) seen) l with
  | Some l' => l'
  | None => l
  end.

Definition users_touch (u : jsval) (seen : Z) : M unit :=
  call (fun s => (tt, set_users s (touch_user u seen (users s)))).

Definition chapters_findOne (p : chapter -> bool) : M (option chapter) :=
  call (fun s => (findOne p (chapters s), s)).

(** ** Handlers *)

(** The fields read from [req.body]; an absent field is [JUndefined]. *)
Record unlock_body : Type := mkBody {
  body_userId : jsval;
  body_contentId : jsval;     (* [manga] for /ads-complete *)
  body_chapterId : jsval
}.

Definition lease_ms : Z := 10 * 60 * 1000.

(** GET /api/check-unlock/:userId/:contentId/:chapterId *)
Definition check_unlock (u c ch : string) (now : Z) (fs : list bool) (w : world)
  : response * world :=
  if negb (connected w) then (unavailable, w) else
  try_catch
    (lk <- locks_findOne (fun d =>
             triple_filter (JStr u) (parseInt (JStr c)) (JStr ch) d && expires_gt now d) ;;
     ret (mkResponse 200 (Unlocked (match lk with Some _ => true | None => false end))))
    "Error checking chapter lock:" "Failed to check chapter lock" fs w.

(** POST /api/unlock-chapter; [t0] is [Date.now()] of [expiresAt], [t1]
    the [new Date()] of [unlockedAt], [t2] that of [last_seen]. *)
Definition unlock_chapter (b : unlock_body) (t0 t1 t2 : Z) (fs : list bool) (w : world)
  : response * world :=
  if negb (connected w) then (unavailable, w) else
  try_catch
    (if negb (truthy (body_userId b)) || negb (truthy (body_contentId b))
        || negb (truthy (body_chapterId b))
     then ret (mkResponse 400 (Error "Missing required fields"))
     else
       let expires := t0 + lease_ms in
       _ <- locks_upsert (body_userId b) (parseInt (body_contentId b)) (body_chapterId b)
              t1 expires ;;
       _ <- users_touch (body_userId b) t2 ;;
       ret (mkResponse 200 (UnlockOk "Chapter unlocked successfully" expires)))
    "Error unlocking chapter:" "Failed to unlock chapter" fs w.

(** POST /api/refresh-chapter-locks *)
Definition refresh_chapter_locks (fs : list bool) (w : world) : response * world :=
  if negb (connected w) then (unavailable, w) else
  try_catch
    (n <- locks_deleteMany (fun _ => true) ;;
     ret (mkResponse 200 (Refreshed "All chapter locks refreshed" n)))
    "Error refreshing chapter locks:" "Failed to refresh chapter locks" fs w.

(** GET /api/user-locks/:userId *)
Definition user_locks (u : string) (now : Z) (fs : list bool) (w : world)
  : response * world :=
  if negb (connected w) then (unavailable, w) else
  try_catch
    (locks <- locks_find (fun d => eq_field (JStr u) (userId d) && expires_gt now d) ;;
     ret (mkResponse 200 (Locks locks)))
    "Error fetching user locks:" "Failed to fetch user locks" fs w.

(** POST /ads-complete; [body_contentId] holds [manga], stored as it comes. *)
Definition ads_complete (b : unlock_body) (t0 t1 t2 : Z) (fs : list bool) (w : world)
  : response * world :=
  if negb (connected w) then (unavailable, w) else
  try_catch
    (if negb (truthy (body_userId b)) || negb (truthy (body_contentId b))
        || negb (truthy (body_chapterId b))
     then ret (mkResponse 400 (Error "Missing required fields"))
     else
       let expires := t0 + lease_ms in
       _ <- locks_upsert (body_userId b) (body_contentId b) (body_chapterId b) t1 expires ;;
       _ <- users_touch (body_userId b) t2 ;;
       ret (mkResponse 200 (Success "Ad completed and chapter unlocked")))
    "Error in ad completion:" "Internal server error" fs w.

(** [{ normalizedTitle: manga, chapterId }] *)
Definition chapter_filter (manga ch : string) (c : chapter) : bool :=
  eq_field (JStr manga) (normalizedTitle c) && eq_field (JStr ch) (chapter_chapterId c).

Definition payload (c : chapter) : response :=
  mkResponse 200
    (ChapterPayload (title c)
       (match pages c with Some p => p | None => [] end)
       (js_or (content c) JNull)).

Definition not_found : response := mkResponse 404 (Error "Chapter not found").

(** GET /direct-chapter/:manga/:chapterId, the read without a lock check. *)
Definition direct_chapter (manga ch : string) (fs : list bool) (w : world)
  : response * world :=
  if negb (connected w) then (unavailable, w) else
  try_catch
    (chapter <- chapters_findOne (chapter_filter manga ch) ;;
     ret (match chapter with Some c => payload c | None => not_found end))
    "Error fetching chapter:" "Internal server error" fs w.

Definition locked : response :=
  mkResponse 402 (Error "Chapter locked. Please watch an ad to unlock.").

(** GET /chapter/:manga/:chapterId; [user] is [req.query.user] when it is
    a scalar ([JUndefined]: absent). *)
Definition chapter_gate (manga ch : string) (user : jsval) (now : Z)
  (fs : list bool) (w : world) : response * world :=
  if negb (connected w) then (unavailable, w) else
  try_catch
    (let u := js_or user (JStr "guest") in
     unlockRecord <- locks_findOne (fun d =>
                       triple_filter u (JStr manga) (JStr ch) d && expires_gt now d) ;;
     match unlockRecord with
     | None => ret locked
     | Some _ =>
         chapter <- chapters_findOne (chapter_filter manga ch) ;;
         ret (match chapter with Some c => payload c | None => not_found end)
     end)
    "Error fetching chapter:" "Internal server error" fs w.

(** [req.query.user] as the query parser of express hands it over:
    absent, a string, or an object or array ([?user[$ne]=x],
    [?user[]=x]).  An object or array is truthy, so it goes into the
    filter as it is, and there the store reads it as a test on the
    stored [userId] ([{$ne: x}]: every value other than [x]); [None]
    stands for one that the store refuses, the call throwing. *)
Inductive query_user : Type :=
| UserAbsent
| UserString (s : string)
| UserOperators (reading : option (jsval -> bool)).

(** [{ $ne: x }] *)
Definition ne_operator (x : string) : query_user :=
  UserOperators (Some (fun stored => negb (jsval_eqb (JStr x) stored))).

(** The test on [userId] in the filter of the gate, for
    [req.query.user || 'guest']. *)
Definition user_test (user : query_user) : option (jsval -> bool) :=
  match user with
  | UserAbsent => Some (eq_field (JStr "guest"))
  | UserString s => Some (eq_field (js_or (JStr s) (JStr "guest")))
  | UserOperators reading => reading
  end.

(** An awaited store call that the store refuses. *)
Definition refused {A} : M A :=
  fun fs s => (Thrown, tl fs, s).

(** GET /chapter/:manga/:chapterId on any [req.query.user]. *)
Definition chapter_gate_query (manga ch : string) (user : query_user) (now : Z)
  (fs : list bool) (w : world) : response * world :=
  if negb (connected w) then (unavailable, w) else
  try_catch
    (unlockRecord <-
       match user_test user with
       | Some test =>
           locks_findOne (fun d =>
             test (userId d) && eq_field (JStr manga) (contentId d)
             && eq_field (JStr ch) (chapterId d) && expires_gt now d)
       | None => refused
       end ;;
     match unlockRecord with
     | None => ret locked
     | Some _ =>
         chapter <- chapters_findOne (chapter_filter manga ch) ;;
         ret (match chapter with Some c => payload c | None => not_found end)
     end)
    "Error fetching chapter:" "Internal server error" fs w.

(** A caller that sends [user] as a string, or not at all. *)
Definition named_user (who : option string) : query_user :=
  match who with
  | Some s => UserString s
  | None => UserAbsent
  end.

Definition timer_ms : Z := 40000.

(** POST /api/start-chapter-timer; [now] is the time at which [setTimeout]
    is called.  The handler makes no store call and validates nothing. *)
Definition start_chapter_timer (b : unlock_body) (now : Z) (w : world)
  : response * world :=
  if negb (connected w) then (unavailable, w) else
  (mkResponse 200 (TimerStarted "Chapter unlock timer started (40 seconds)" timer_ms),
   mkWorld (connected w) (db w)
     (timers w ++ [mkTimer (now + timer_ms) (body_userId b) (body_contentId b)
                     (body_chapterId b)])
     (console w)).

(** The body of the [setTimeout] callback; [t0] is its [Date.now()], [t1]
    its [new Date()]. *)
Definition timer_callback (tm : timer) (t0 t1 : Z) (fs : list bool) (w : world) : world :=
  match locks_upsert (timer_userId tm) (parseInt (timer_contentId tm)) (timer_chapterId tm)
          t1 (t0 + lease_ms) fs (db w) with
  | (Returned _, _, s) =>
      log (set_db w s)
        (LogUnlocked (timer_contentId tm) (timer_chapterId tm) (timer_userId tm))
  | (Thrown, _, s) => log (set_db w s) (LogError "Error auto-unlocking chapter:")
  end.

Fixpoint remove_nth {A} (k : nat) (l : list A) : list A :=
  match l, k with
  | [], _ => []
  | _ :: r, O => r
  | x :: r, S k' => x :: remove_nth k' r
  end.

(** The runtime runs the [k]-th pending callback ([None]: there is no
    such callback).  When it does so is the runtime's business: nothing
    in the source relates the callback's [Date.now()] to the instant
    [due] that the request asked for. *)
Definition fire_timer (k : nat) (t0 t1 : Z) (fs : list bool) (w : world) : option world :=
  match nth_error (timers w) k with
  | Some tm =>
      Some (timer_callback tm t0 t1 fs
              (mkWorld (connected w) (db w) (remove_nth k (timers w)) (console w)))
  | None => None
  end.

Definition sweep_ms : Z := 60000.

(** One run of the [setInterval] callback that cleans [chapter_locks]. *)
Definition sweeper (now : Z) (fs : list bool) (w : world) : world :=
  if connected w then
    match locks_deleteMany (expires_lt now) fs (db w) with
    | (Returned n, _, s) =>
        if (0 <? n)%nat then log (set_db w s) (LogAutoCleaned n) else set_db w s
    | (Thrown, _, s) => log (set_db w s) (LogError "Error auto-cleaning chapter locks:")
    end
  else w.

(** The store's own TTL index on [expiresAt] ([expireAfterSeconds: 0]):
    at any moment it may remove documents whose [expiresAt] has been
    reached; [victim] says which of them it removes this time. *)
Definition ttl_monitor (now : Z) (victim : lock -> bool) (w : world) : world :=
  set_db w (set_locks (db w)
    (filter (fun d => negb (victim d && (expiresAt d <=? now))) (chapter_locks (db w)))).

(** ** The server as a transition system *)

Inductive event : Type :=
| Connect
| CheckUnlock (u c ch : string) (now : Z) (fs : list bool)
| UnlockChapter (b : unlock_body) (t0 t1 t2 : Z) (fs : list bool)
| RefreshChapterLocks (fs : list bool)
| UserLocks (u : string) (now : Z) (fs : list bool)
| AdsComplete (b : unlock_body) (t0 t1 t2 : Z) (fs : list bool)
| DirectChapter (manga ch : string) (fs : list bool)
| Chapter (manga ch : string) (user : query_user) (now : Z) (fs : list bool)
| StartChapterTimer (b : unlock_body) (now : Z)
| TimerFires (k : nat) (t0 t1 : Z) (fs : list bool)
| SweeperTick (now : Z) (fs : list bool)
| TtlMonitor (now : Z) (victim : lock -> bool)
| Elsewhere (us : list user) (cs : list chapter).
  (* any other endpoint: they write [users], [content], [chapters],
     [ads_config] and [uploads], never [chapter_locks] *)

Definition step (w : world) (e : event) : world :=
  match e with
  | Connect => mkWorld true (db w) (timers w) (console w)
  | CheckUnlock u c ch now fs => snd (check_unlock u c ch now fs w)
  | UnlockChapter b t0 t1 t2 fs => snd (unlock_chapter b t0 t1 t2 fs w)
  | RefreshChapterLocks fs => snd (refresh_chapter_locks fs w)
  | UserLocks u now fs => snd (user_locks u now fs w)
  | AdsComplete b t0 t1 t2 fs => snd (ads_complete b t0 t1 t2 fs w)
  | DirectChapter manga ch fs => snd (direct_chapter manga ch fs w)
  | Chapter manga ch user now fs => snd (chapter_gate_query manga ch user now fs w)
  | StartChapterTimer b now => snd (start_chapter_timer b now w)
  | TimerFires k t0 t1 fs =>
      match fire_timer k t0 t1 fs w with Some w' => w' | None => w end
  | SweeperTick now fs => sweeper now fs w
  | TtlMonitor now victim => ttl_monitor now victim w
  | Elsewhere us cs => set_db w (mkStore (chapter_locks (db w)) us cs)
  end.

Definition run (w : world) (es : list event) : world := fold_left step es w.

(** A freshly started process on a store that holds no lease yet. *)
Definition boot (us : list user) (cs : list chapter) : world :=
  mkWorld false (mkStore [] us cs) [] [].

(** ** Keys, active leases and the uniqueness invariant *)

Definition key : Type := (jsval * jsval * jsval)%type.

Definition lock_key (d : lock) : key := (userId d, contentId d, chapterId d).

(** The key under which a grant with these query values is stored. *)
Definition stored_key (u c ch : jsval) : key := (to_bson u, to_bson c, to_bson ch).

(** At most one lease per (userId, contentId, chapterId). *)
Definition unique_locks (l : list lock) : Prop := NoDup (map lock_key l).

(** The leases of a collection that carry key [k]. *)
Definition has_key (k : key) (d : lock) : bool :=
  let '(u, c, ch) := k in
  jsval_eqb u (userId d) && jsval_eqb c (contentId d) && jsval_eqb ch (chapterId d).

Definition leases_of (k : key) (l : list lock) : list lock := filter (has_key k) l.

(** An active lease for [k] at [now], stated on the collection itself. *)
Definition active_lease (k : key) (now : Z) (l : list lock) : Prop :=
  exists d, In d l /\ lock_key d = k /\ now < expiresAt d.

(** No store fault on the first call of a schedule. *)
Definition first_ok (fs : list bool) : Prop := hd false fs = false.

(** No store fault at all. *)
Definition quiet (fs : list bool) : Prop := forallb negb fs = true.

Definition valid_body (b : unlock_body) : Prop :=
  truthy (body_userId b) = true /\ truthy (body_contentId b) = true
  /\ truthy (body_chapterId b) = true.

(** ** The grant paths *)

(** The three ways a lease is written: the unlock endpoint, the ad
    completion and a fired timer callback. *)
Inductive grant : Type :=
| ViaUnlock (b : unlock_body) (t0 t1 t2 : Z)
| ViaAds (b : unlock_body) (t0 t1 t2 : Z)
| ViaTimer (k : nat) (t0 t1 : Z).

Definition grant_event (g : grant) (fs : list bool) : event :=
  match g with
  | ViaUnlock b t0 t1 t2 => UnlockChapter b t0 t1 t2 fs
  | ViaAds b t0 t1 t2 => AdsComplete b t0 t1 t2 fs
  | ViaTimer k t0 t1 => TimerFires k t0 t1 fs
  end.

(** [Date.now()] of the grant and its [new Date()] for [unlockedAt]. *)
Definition grant_now (g : grant) : Z :=
  match g with
  | ViaUnlock _ t0 _ _ | ViaAds _ t0 _ _ | ViaTimer _ t0 _ => t0
  end.

Definition grant_unlockedAt (g : grant) : Z :=
  match g with
  | ViaUnlock _ _ t1 _ | ViaAds _ _ t1 _ | ViaTimer _ _ t1 => t1
  end.

(** The key a grant writes in world [w], when it gets as far as its
    [updateOne]: the validated endpoints need the store handle and three
    truthy fields, a timer needs to be pending. *)
Definition grant_key (w : world) (g : grant) : option key :=
  match g with
  | ViaUnlock b _ _ _ =>
      if connected w && truthy (body_userId b) && truthy (body_contentId b)
         && truthy (body_chapterId b)
      then Some (stored_key (body_userId b) (parseInt (body_contentId b)) (body_chapterId b))
      else None
  | ViaAds b _ _ _ =>
      if connected w && truthy (body_userId b) && truthy (body_contentId b)
         && truthy (body_chapterId b)
      then Some (stored_key (body_userId b) (body_contentId b) (body_chapterId b))
      else None
  | ViaTimer k t0 _ =>
      match nth_error (timers w) k with
      | Some tm =>
          Some (stored_key (timer_userId tm) (parseInt (timer_contentId tm))
                  (timer_chapterId tm))
      | None => None
      end
  end.


(** A handler body keeps a property of the store, whatever the faults. *)
Definition preserves (P : store -> Prop) {A} (m : M A) : Prop :=
  forall fs s, P s -> P (snd (m fs s)).

(** ** Starting the server *)

(** What one call of [client.connect()] does, then what the index
    creation of [initializeCollections] does when it is reached. *)
Inductive connection : Type :=
| ConnectThrows
| ConnectOk (indexes_ok : bool).

Inductive boot_line : Type :=
| BootLog (line : string)
| BootError (prefix : string)
| BootRetrying (attempts maxAttempts : nat).

(** [connectToDatabase]: its result, whether it set [db], its lines. *)
Definition connectToDatabase (c : connection) : bool * list boot_line :=
  match c with
  | ConnectOk indexes_ok =>
      (true,
       [BootLog "🔗 Connecting to MongoDB..."; BootLog "✅ Connected to MongoDB";
        if indexes_ok then BootLog "✅ Collections initialized"
        else BootError "❌ Error initializing collections:"])
  | ConnectThrows =>
      (false, [BootLog "🔗 Connecting to MongoDB..."; BootError "❌ MongoDB connection error:"])
  end.

Definition maxAttempts : nat := 5.

Record startup : Type := mkStartup {
  db_set : bool;              (* [db] has been assigned *)
  attempts : nat;
  slept : Z;                  (* total of the 5000 ms waits *)
  pending : list connection;  (* outcomes not consumed *)
  lines : list boot_line
}.

(** The [while (!connected && attempts < maxAttempts)] loop; [left] is
    [maxAttempts - attempts].  An outcome list that runs out means the
    next attempt connects. *)
Fixpoint connect_loop (left : nat) (st : startup) : startup :=
  match left with
  | O => st
  | S left' =>
      let c := hd (ConnectOk true) (pending st) in
      let '(connected, ls) := connectToDatabase c in
      if connected
      then mkStartup true (attempts st) (slept st) (tl (pending st)) (lines st ++ ls)
      else
        connect_loop left'
          (mkStartup false (S (attempts st)) (slept st + 5000) (tl (pending st))
             (lines st ++ ls ++ [BootRetrying (S (attempts st)) maxAttempts]))
  end.

Inductive started : Type :=
| Listening (st : startup)
| Exited (code : Z) (st : startup).

(** [startServer]: connect with retries, then [process.exit(1)] or
    [app.listen]. *)
Definition startServer (outcomes : list connection) : started :=
  let st := connect_loop maxAttempts
              (mkStartup false 0 0 outcomes [BootLog "🚀 Starting Rovel server..."]) in
  if negb (db_set st)
  then Exited 1 (mkStartup (db_set st) (attempts st) (slept st) (pending st)
                   (lines st ++ [BootError "❌ Failed to connect to MongoDB after multiple attempts"]))
  else Listening st.

(** ** Replies of the other endpoints *)

(** A JSON value, for request bodies stored as they come. *)
#[local] Set Warnings "-register-all".
Inductive json_value : Type :=
| JsonScalar (v : jsval)
| JsonArray (items : list json_value)
| JsonObject (fields : list (string * json_value)).

(** A [content] document. *)
Record content_doc : Type := mkContent {
  content_id : jsval;
  content_title : jsval;
  content_description : jsval;
  content_type : jsval;
  content_cover : jsval;
  content_author : jsval;
  content_genres : jsval;
  content_status : jsval;
  content_rating : jsval;
  chapters_count : jsval;
  content_created_at : Z;
  content_updated_at : Z
}.

(** A [chapters] document with every field the server writes or reads;
    absent fields are [JUndefined]. *)
Record chapter_doc : Type := mkChapterDoc {
  doc_contentId : jsval;
  doc_chapterId : jsval;
  doc_normalizedTitle : jsval;
  doc_title : jsval;
  doc_pages : option (list jsval);
  doc_content : jsval;
  doc_created_at : Z;
  doc_updated_at : Z
}.

(** An [ads_config] document. *)
Record ads_doc : Type := mkAds {
  ads_id : jsval;
  ads_config_value : json_value;
  ads_updated_at : Z
}.

(** What the chapter reads send of a chapter. *)
Record chapter_entry : Type := mkEntry {
  entry_title : jsval;
  entry_pages : list jsval;
  entry_content : jsval
}.

Inductive reply_body : Type :=
| ReplyError (error : string)
| ReplySuccess (message : string)
| ReplyGuest (id : jsval) (type : string) (created_at last_seen : Z)
| ReplyUsers (l : list user)
| ReplyContent (c : content_doc)
| ReplyContents (l : list content_doc)
| ReplyChapter (d : chapter_doc)
| ReplyChapters (chaptersObject : string -> option chapter_entry)
| ReplyDefaultAdsConfig         (* the object literal of GET /api/ads-config *)
| ReplyAdsConfig (config : json_value).

Record reply : Type := mkReply {
  reply_status : Z;
  reply_json : reply_body
}.

(** ** Store calls over any collection set *)

Definition St (S A : Type) : Type := list bool -> S -> outcome A * list bool * S.

Definition unit_st {S A} (a : A) : St S A := fun fs s => (Returned a, fs, s).

Definition bind_st {S A B} (m : St S A) (k : A -> St S B) : St S B :=
  fun fs s =>
    match m fs s with
    | (Returned a, fs', s') => k a fs' s'
    | (Thrown, fs', s') => (Thrown, fs', s')
    end.

Notation "x <~ m ;; k" := (bind_st m (fun x => k))
  (at level 61, m at next level, right associativity).

(** One awaited store call that the store itself may reject ([None]: a
    duplicate key, an [$inc] on a value that is not a number). *)
Definition call_st {S A} (op : S -> option (A * S)) : St S A :=
  fun fs s =>
    match fs with
    | true :: fs' => (Thrown, fs', s)
    | _ =>
        match op s with
        | Some (a, s') => (Returned a, tl fs, s')
        | None => (Thrown, tl fs, s)
        end
    end.

(** The [try]/[catch] of a handler, with the lines it logs. *)
Definition attempt {S} (m : St S reply) (prefix error : string)
  (fs : list bool) (s : S) : reply * S * list log_line :=
  match m fs s with
  | (Returned r, _, s') => (r, s', [])
  | (Thrown, _, s') => (mkReply 500 (ReplyError error), s', [LogError prefix])
  end.

Definition unavailable_reply : reply := mkReply 503 (ReplyError "Database not available").

(** A handler over the lease store, run in a world. *)
Definition in_world (h : bool -> list bool -> store -> reply * store * list log_line)
  (fs : list bool) (w : world) : reply * world :=
  let '(r, s, ls) := h (connected w) fs (db w) in
  (r, mkWorld (connected w) s (timers w) (console w ++ ls)).

(** ** Users *)

(** [deleteOne]: the first match goes. *)
Fixpoint delete_first {A} (p : A -> bool) (l : list A) : option (list A) :=
  match l with
  | [] => None
  | d :: r =>
      if p d then Some r
      else match delete_first p r with
           | Some r' => Some (d :: r')
           | None => None
           end
  end.

(** POST /api/guest-user.  [now] is the [Date.now()] of the id, [rand] the
    [Math.random().toString(36).substr(2, 9)], [created] and [seen] the
    two [new Date()].  [indexed] says whether the unique index on
    [users.id] exists: [initializeCollections] asks for it, logs a
    failure to create it and goes on, and the server listens either way.
    Where it exists it rejects a second record with the same id. *)
Definition guest_user (indexed : bool) (now : Z) (rand : string) (created seen : Z)
  (connected : bool) (fs : list bool) (s : store) : reply * store * list log_line :=
  if negb connected then (unavailable_reply, s, []) else
  attempt
    (let guestId := JStr ("guest_" ++ to_string (JNum (Num now)) ++ "_" ++ rand) in
     _ <~ call_st (fun s0 =>
            if indexed && existsb (fun x => eq_field guestId (to_bson (id x))) (users s0)
            then None
            else Some (tt, set_users s0 (users s0 ++ [mkUser guestId seen]))) ;;
     unit_st (mkReply 200 (ReplyGuest guestId "guest" created seen)))
    "Error creating guest user:" "Failed to create guest user" fs s.

(** GET /api/users *)
Definition get_users (connected : bool) (fs : list bool) (s : store)
  : reply * store * list log_line :=
  if negb connected then (unavailable_reply, s, []) else
  attempt
    (us <~ call_st (fun s0 => Some (users s0, s0)) ;;
     unit_st (mkReply 200 (ReplyUsers us)))
    "Error fetching users:" "Failed to fetch users" fs s.

(** DELETE /api/users/:id *)
Definition delete_user (uid : string) (connected : bool) (fs : list bool) (s : store)
  : reply * store * list log_line :=
  if negb connected then (unavailable_reply, s, []) else
  attempt
    (deletedCount <~ call_st (fun s0 =>
        match delete_first (fun x => eq_field (JStr uid) (id x)) (users s0) with
        | Some l => Some (1%nat, set_users s0 l)
        | None => Some (0%nat, s0)
        end) ;;
     if Nat.eqb deletedCount 0
     then unit_st (mkReply 404 (ReplyError "User not found"))
     else unit_st (mkReply 200 (ReplySuccess "User deleted successfully")))
    "Error deleting user:" "Failed to delete user" fs s.

(** The number of connection attempts that throw before the first that
    does not. *)
Fixpoint leading_throws (outcomes : list connection) : nat :=
  match outcomes with
  | ConnectThrows :: r => S (leading_throws r)
  | _ => O
  end.

(** ** The catalogue: content, chapters, ads configuration *)

Record library : Type := mkLibrary {
  content_docs : list content_doc;
  chapter_docs : list chapter_doc;
  ads_config : list ads_doc
}.

Definition set_content (l : library) (c : list content_doc) : library :=
  mkLibrary c (chapter_docs l) (ads_config l).

Definition set_chapter_docs (l : library) (c : list chapter_doc) : library :=
  mkLibrary (content_docs l) c (ads_config l).

Definition set_ads (l : library) (a : list ads_doc) : library :=
  mkLibrary (content_docs l) (chapter_docs l) a.

(** An equality filter against a stored field that may be absent: the
    query value goes through the driver, and [null] matches an absent
    field. *)
Definition eq_stored (query stored : jsval) : bool :=
  jsval_eqb (to_bson query) (to_bson stored).

(** The store's order on scalars: null, then numbers ([NaN] first, the
    infinities at the two ends), then strings (byte order), then
    booleans. *)
Definition bson_rank (v : jsval) : Z :=
  match v with
  | JUndefined | JNull => 0
  | JNum _ => 1
  | JStr _ => 2
  | JBool _ => 3
  end.

Definition bson_leb (a b : jsval) : bool :=
  match a, b with
  | JNum NaN, JNum _ => true
  | JNum _, JNum NaN => false
  | JNum (Num x), JNum (Num y) => x <=? y
  | JNum (Infinity true), JNum _ => true
  | JNum _, JNum (Infinity true) => false
  | JNum _, JNum (Infinity false) => true
  | JNum (Infinity false), JNum (Num _) => false
  | JStr x, JStr y => String.leb x y
  | JBool x, JBool y => implb x y
  | _, _ => bson_rank a <=? bson_rank b
  end.

(** [find().sort({ id: -1 }).limit(1)]: a document with the greatest id,
    the earliest of them in store order. *)
Fixpoint last_by_id (l : list content_doc) : option content_doc :=
  match l with
  | [] => None
  | d :: r =>
      match last_by_id r with
      | None => Some d
      | Some m => if bson_leb (content_id m) (content_id d) then Some d else Some m
      end
  end.

(** [v + 1]: the sum of two doubles is rounded to a double, so that
    2^53 + 1 is 2^53. *)
Definition js_plus_one (v : jsval) : jsval :=
  match v with
  | JNum (Num z) => JNum (round_double (z + 1))
  | JNum NaN => JNum NaN
  | JNum (Infinity b) => JNum (Infinity b)
  | JUndefined => JNum NaN
  | JNull => JNum (Num 1)
  | JBool b => JNum (Num (if b then 2 else 1))
  | JStr s => JStr (s ++ "1")
  end.

(** The fields POST and PUT /api/manga read from [req.body]. *)
Record manga_body : Type := mkMangaBody {
  manga_title : jsval;
  manga_description : jsval;
  manga_type : jsval;
  manga_cover : jsval;
  manga_author : jsval;
  manga_genres : jsval;
  manga_status : jsval;
  manga_rating : jsval;
  manga_chapters_count : jsval
}.

(** A document as the driver writes it. *)
Definition bson_content (c : content_doc) : content_doc :=
  mkContent (to_bson (content_id c)) (to_bson (content_title c))
    (to_bson (content_description c)) (to_bson (content_type c))
    (to_bson (content_cover c)) (to_bson (content_author c))
    (to_bson (content_genres c)) (to_bson (content_status c))
    (to_bson (content_rating c)) (to_bson (chapters_count c))
    (content_created_at c) (content_updated_at c).

Definition content_by_id (idp : string) (d : content_doc) : bool :=
  eq_stored (parseInt (JStr idp)) (content_id d).

(** GET /api/manga/:id *)
Definition get_manga (idp : string) (connected : bool) (fs : list bool) (l : library)
  : reply * library * list log_line :=
  if negb connected then (unavailable_reply, l, []) else
  attempt
    (content <~ call_st (fun l0 => Some (findOne (content_by_id idp) (content_docs l0), l0)) ;;
     match content with
     | None => unit_st (mkReply 404 (ReplyError "Content not found"))
     | Some c => unit_st (mkReply 200 (ReplyContent c))
     end)
    "Error fetching manga:" "Failed to fetch manga" fs l.

(** GET /api/manga (GET /api/data reads the same, under its own error
    texts). *)
Definition list_manga (connected : bool) (fs : list bool) (l : library)
  : reply * library * list log_line :=
  if negb connected then (unavailable_reply, l, []) else
  attempt
    (content <~ call_st (fun l0 => Some (content_docs l0, l0)) ;;
     unit_st (mkReply 200 (ReplyContents content)))
    "Error fetching manga:" "Failed to fetch manga" fs l.

(** POST /api/manga; [created] and [updated] are its two [new Date()].
    The unique index on [content.id] rejects an id already present. *)
Definition create_manga (b : manga_body) (created updated : Z)
  (connected : bool) (fs : list bool) (l : library) : reply * library * list log_line :=
  if negb connected then (unavailable_reply, l, []) else
  attempt
    (lastContent <~ call_st (fun l0 => Some (last_by_id (content_docs l0), l0)) ;;
     let newId := match lastContent with
                  | Some d => js_plus_one (content_id d)
                  | None => JNum (Num 1)
                  end in
     let newContent :=
       mkContent newId (manga_title b) (manga_description b)
         (js_or (manga_type b) (JStr "manga")) (manga_cover b)
         (js_or (manga_author b) (JStr "Unknown"))
         (js_or (manga_genres b) (JStr "Action, Adventure"))
         (js_or (manga_status b) (JStr "Ongoing"))
         (js_or (manga_rating b) (JStr "4.5"))
         (js_or (manga_chapters_count b) (JNum (Num 0)))
         created updated in
     _ <~ call_st (fun l0 =>
            if existsb (fun d => eq_stored newId (content_id d)) (content_docs l0) then None
            else Some (tt, set_content l0 (content_docs l0 ++ [bson_content newContent]))) ;;
     unit_st (mkReply 200 (ReplyContent newContent)))
    "Error creating manga:" "Failed to create manga" fs l.

(** [...(field && { field })]: a truthy body field replaces the stored
    one, anything else leaves it. *)
Definition pick (new old : jsval) : jsval := if truthy new then new else old.

Definition apply_update (b : manga_body) (now : Z) (d : content_doc) : content_doc :=
  mkContent (content_id d)
    (pick (manga_title b) (content_title d))
    (pick (manga_description b) (content_description d))
    (content_type d)
    (pick (manga_cover b) (content_cover d))
    (pick (manga_author b) (content_author d))
    (pick (manga_genres b) (content_genres d))
    (pick (manga_status b) (content_status d))
    (pick (manga_rating b) (content_rating d))
    (chapters_count d) (content_created_at d) now.

(** PUT /api/manga/:id *)
Definition update_manga (idp : string) (b : manga_body) (now : Z)
  (connected : bool) (fs : list bool) (l : library) : reply * library * list log_line :=
  if negb connected then (unavailable_reply, l, []) else
  attempt
    (matchedCount <~ call_st (fun l0 =>
        match update_first (content_by_id idp) (apply_update b now) (content_docs l0) with
        | Some c => Some (1%nat, set_content l0 c)
        | None => Some (0%nat, l0)
        end) ;;
     if Nat.eqb matchedCount 0
     then unit_st (mkReply 404 (ReplyError "Content not found"))
     else unit_st (mkReply 200 (ReplySuccess "Content updated successfully")))
    "Error updating manga:" "Failed to update manga" fs l.

Definition chapter_of_content (idp : string) (d : chapter_doc) : bool :=
  eq_stored (parseInt (JStr idp)) (doc_contentId d).

(** DELETE /api/manga/:id *)
Definition delete_manga (idp : string)
  (connected : bool) (fs : list bool) (l : library) : reply * library * list log_line :=
  if negb connected then (unavailable_reply, l, []) else
  attempt
    (deletedCount <~ call_st (fun l0 =>
        match delete_first (content_by_id idp) (content_docs l0) with
        | Some c => Some (1%nat, set_content l0 c)
        | None => Some (0%nat, l0)
        end) ;;
     if Nat.eqb deletedCount 0
     then unit_st (mkReply 404 (ReplyError "Content not found"))
     else
       _ <~ call_st (fun l0 =>
              Some (tt, set_chapter_docs l0
                          (filter (fun d => negb (chapter_of_content idp d))
                             (chapter_docs l0)))) ;;
       unit_st (mkReply 200
                  (ReplySuccess "Content and associated chapters deleted successfully")))
    "Error deleting content:" "Failed to delete content" fs l.

(** The fields POST /api/manga/:id/chapters reads from [req.body];
    [pages] is an array or absent. *)
Record chapter_body : Type := mkChapterBody {
  new_chapterId : jsval;
  new_title : jsval;
  new_pages : option (list jsval);
  new_content : jsval
}.

(** [{ contentId, chapterId }] *)
Definition chapter_key_filter (cid chid : jsval) (d : chapter_doc) : bool :=
  eq_stored cid (doc_contentId d) && eq_stored chid (doc_chapterId d).

(** [$inc] on [chapters_count]: an absent field becomes the amount, a
    number is added to, anything else is refused by the store. *)
Definition inc_count (k : Z) (v : jsval) : option jsval :=
  match v with
  | JUndefined => Some (JNum (Num k))
  | JNum (Num z) => Some (JNum (Num (z + k)))
  | JNum NaN => Some (JNum NaN)
  | JNum (Infinity b) => Some (JNum (Infinity b))
  | _ => None
  end.

Definition set_count (d : content_doc) (v : jsval) : content_doc :=
  mkContent (content_id d) (content_title d) (content_description d) (content_type d)
    (content_cover d) (content_author d) (content_genres d) (content_status d)
    (content_rating d) v (content_created_at d) (content_updated_at d).

(** [content.updateOne({ id }, { $inc: { chapters_count: k } })] *)
Fixpoint inc_first (cid : jsval) (k : Z) (l : list content_doc) : option (list content_doc) :=
  match l with
  | [] => Some []
  | d :: r =>
      if eq_stored cid (content_id d)
      then match inc_count k (chapters_count d) with
           | Some v => Some (set_count d v :: r)
           | None => None
           end
      else match inc_first cid k r with
           | Some r' => Some (d :: r')
           | None => None
           end
  end.

Definition content_inc (cid : jsval) (k : Z) : St library unit :=
  call_st (fun l0 =>
    match inc_first cid k (content_docs l0) with
    | Some c => Some (tt, set_content l0 c)
    | None => None
    end).

(** POST /api/manga/:id/chapters; the unique index on
    [(contentId, chapterId)] rejects a pair already present. *)
Definition create_chapter (idp : string) (b : chapter_body) (created updated : Z)
  (connected : bool) (fs : list bool) (l : library) : reply * library * list log_line :=
  if negb connected then (unavailable_reply, l, []) else
  attempt
    (let contentId := parseInt (JStr idp) in
     existingChapter <~ call_st (fun l0 =>
        Some (findOne (chapter_key_filter contentId (new_chapterId b)) (chapter_docs l0),
              l0)) ;;
     match existingChapter with
     | Some _ => unit_st (mkReply 400 (ReplyError "Chapter already exists"))
     | None =>
         let newChapter :=
           mkChapterDoc contentId (new_chapterId b) JUndefined
             (js_or (new_title b) (JStr ("Chapter " ++ to_string (new_chapterId b))))
             (Some (match new_pages b with Some p => p | None => [] end))
             (js_or (new_content b) JNull)
             created updated in
         let stored :=
           mkChapterDoc contentId (to_bson (new_chapterId b)) JUndefined
             (doc_title newChapter) (doc_pages newChapter) (doc_content newChapter)
             created updated in
         _ <~ call_st (fun l0 =>
                if existsb (chapter_key_filter contentId (new_chapterId b))
                     (chapter_docs l0)
                then None
                else Some (tt, set_chapter_docs l0 (chapter_docs l0 ++ [stored]))) ;;
         _ <~ content_inc contentId 1 ;;
         unit_st (mkReply 200 (ReplyChapter newChapter))
     end)
    "Error creating chapter:" "Failed to create chapter" fs l.

(** DELETE /api/manga/:id/chapters/:chapterId *)
Definition delete_chapter (idp chp : string)
  (connected : bool) (fs : list bool) (l : library) : reply * library * list log_line :=
  if negb connected then (unavailable_reply, l, []) else
  attempt
    (deletedCount <~ call_st (fun l0 =>
        match delete_first (chapter_key_filter (parseInt (JStr idp)) (JStr chp))
                (chapter_docs l0) with
        | Some c => Some (1%nat, set_chapter_docs l0 c)
        | None => Some (0%nat, l0)
        end) ;;
     if Nat.eqb deletedCount 0
     then unit_st (mkReply 404 (ReplyError "Chapter not found"))
     else
       _ <~ content_inc (parseInt (JStr idp)) (-1) ;;
       unit_st (mkReply 200 (ReplySuccess "Chapter deleted successfully")))
    "Error deleting chapter:" "Failed to delete chapter" fs l.

Definition ads_by_id (a : ads_doc) : bool := eq_stored (JNum (Num 1)) (ads_id a).

(** GET /api/ads-config *)
Definition get_ads_config (connected : bool) (fs : list bool) (l : library)
  : reply * library * list log_line :=
  if negb connected then (unavailable_reply, l, []) else
  attempt
    (adsConfig <~ call_st (fun l0 => Some (findOne ads_by_id (ads_config l0), l0)) ;;
     match adsConfig with
     | None => unit_st (mkReply 200 ReplyDefaultAdsConfig)
     | Some a => unit_st (mkReply 200 (ReplyAdsConfig (ads_config_value a)))
     end)
    "Error fetching ads config:" "Failed to fetch ads config" fs l.

(** POST /api/ads-config; [config] is [req.body]. *)
Definition post_ads_config (config : json_value) (now : Z)
  (connected : bool) (fs : list bool) (l : library) : reply * library * list log_line :=
  if negb connected then (unavailable_reply, l, []) else
  attempt
    (_ <~ call_st (fun l0 =>
            Some (tt, set_ads l0
                        match update_first ads_by_id
                                (fun a => mkAds (ads_id a) config now) (ads_config l0) with
                        | Some a' => a'
                        | None => ads_config l0 ++ [mkAds (JNum (Num 1)) config now]
                        end)) ;;
     unit_st (mkReply 200 (ReplySuccess "Ads config updated successfully")))
    "Error updating ads config:" "Failed to update ads config" fs l.


(** Every content id is an integer. *)
Definition integer_ids (l : list content_doc) : Prop :=
  forall d, In d l -> exists z, content_id d = JNum (Num z).

(** No stored content id is the integer [z] or above. *)
Definition ids_below (z : Z) (l : list content_doc) : Prop :=
  forall d y, In d l -> content_id d = JNum (Num y) -> y < z.

(** Every integer content id is one that [+ 1] is exact on. *)
Definition safe_ids (l : list content_doc) : Prop :=
  forall d y, In d l -> content_id d = JNum (Num y) -> - 2 ^ 53 <= y < 2 ^ 53.

(** What PUT does to one field: a truthy value from the body replaces the
    stored one, any other leaves it. *)
Definition patched (new old result : jsval) : Prop :=
  (truthy new = true /\ result = new) \/ (truthy new = false /\ result = old).

Definition entry_of (d : chapter_doc) : chapter_entry :=
  mkEntry (doc_title d) (match doc_pages d with Some p => p | None => [] end)
    (js_or (doc_content d) JNull).

(** [chaptersObject[key] = entry] on an object literal, read as the
    lookup of its own properties: the key [__proto__] is the accessor of
    [Object.prototype], so that assignment replaces the prototype and
    adds no property. *)
Definition assign (o : string -> option chapter_entry) (key : string) (e : chapter_entry)
  : string -> option chapter_entry :=
  if String.eqb key "__proto__" then o
  else fun k => if String.eqb key k then Some e else o k.

(** The [forEach] that fills [chaptersObject], keyed by the chapterId
    printed as a property name. *)
Definition chapters_object (docs : list chapter_doc) : string -> option chapter_entry :=
  fold_left (fun o d => assign o (to_string (doc_chapterId d)) (entry_of d)) docs
    (fun _ => None).

(** GET /api/manga/:id/chapters *)
Definition get_chapters (idp : string) (connected : bool) (fs : list bool) (l : library)
  : reply * library * list log_line :=
  if negb connected then (unavailable_reply, l, []) else
  attempt
    (chapters <~ call_st (fun l0 =>
        Some (filter (chapter_of_content idp) (chapter_docs l0), l0)) ;;
     unit_st (mkReply 200 (ReplyChapters (chapters_object chapters))))
    "Error fetching chapters:" "Failed to fetch chapters" fs l.

(** A handler body keeps a property of its collections, whatever the
    faults. *)
Definition keeps_st {S A} (P : S -> Prop) (m : St S A) : Prop :=
  forall fs s, P s -> P (snd (m fs s)).

(** ** The catalogue as a transition system *)

Inductive catalogue_event : Type :=
| GetManga (idp : string) (fs : list bool)
| ListManga (fs : list bool)
| CreateManga (b : manga_body) (created updated : Z) (fs : list bool)
| UpdateManga (idp : string) (b : manga_body) (now : Z) (fs : list bool)
| DeleteManga (idp : string) (fs : list bool)
| GetChapters (idp : string) (fs : list bool)
| CreateChapter (idp : string) (b : chapter_body) (created updated : Z) (fs : list bool)
| DeleteChapter (idp chp : string) (fs : list bool)
| GetAdsConfig (fs : list bool)
| PostAdsConfig (config : json_value) (now : Z) (fs : list bool).

Definition catalogue_step (connected : bool) (l : library) (e : catalogue_event) : library :=
  snd (fst
    match e with
    | GetManga idp fs => get_manga idp connected fs l
    | ListManga fs => list_manga connected fs l
    | CreateManga b created updated fs => create_manga b created updated connected fs l
    | UpdateManga idp b now fs => update_manga idp b now connected fs l
    | DeleteManga idp fs => delete_manga idp connected fs l
    | GetChapters idp fs => get_chapters idp connected fs l
    | CreateChapter idp b created updated fs =>
        create_chapter idp b created updated connected fs l
    | DeleteChapter idp chp fs => delete_chapter idp chp connected fs l
    | GetAdsConfig fs => get_ads_config connected fs l
    | PostAdsConfig config now fs => post_ads_config config now connected fs l
    end).

Definition catalogue_run (connected : bool) (l : library) (es : list catalogue_event)
  : library :=
  fold_left (catalogue_step connected) es l.

Definition empty_library : library := mkLibrary [] [] [].

(** The pair the unique index of [chapters] is on, as stored. *)
Definition chapter_key (d : chapter_doc) : jsval * jsval :=
  (to_bson (doc_contentId d), to_bson (doc_chapterId d)).

(** What the catalogue endpoints maintain. *)
Record catalogue_ok (l : library) : Prop := mkCatalogueOk {
  ids_positive : forall d, In d (content_docs l) ->
                   exists z, content_id d = JNum (Num z) /\ 1 <= z;
  ids_distinct : NoDup (map content_id (content_docs l));
  keys_distinct : NoDup (map chapter_key (chapter_docs l));
  no_titles : forall d, In d (chapter_docs l) -> doc_normalizedTitle d = JUndefined;
  one_ads_doc : (List.length (filter ads_by_id (ads_config l)) <= 1)%nat
}.

(** No content id is beyond 2^53, where [+ 1] stops counting. *)
Definition catalogue_bounded (l : library) : Prop :=
  catalogue_ok l /\ ids_below (2 ^ 53 + 1) (content_docs l).

(** Every content id of [s] is one of [l0]. *)
Definition ids_among (l0 s : library) : Prop :=
  forall d', In d' (content_docs s) ->
    exists d, In d (content_docs l0) /\ content_id d' = content_id d.

(** The events that are requests to the lease handlers, timer callbacks
    or cleanup runs of this process. *)
Definition own_event (e : event) : bool :=
  match e with
  | Connect | TtlMonitor _ _ | Elsewhere _ _ => false
  | _ => true
  end.

(** * Properties *)

(** ** parseInt on a few inputs *)

Example parseInt_42 : parseInt (JStr "42") = JNum (Num 42).
Proof. reflexivity. Qed.

Example parseInt_num : parseInt (JNum (Num 42)) = JNum (Num 42).
Proof. reflexivity. Qed.

Example parseInt_misc :
  parseInt (JStr "  -0x1Fz") = JNum (Num (-31)) /\ parseInt (JStr "12abc") = JNum (Num 12)
  /\ parseInt (JStr "abc") = JNum NaN /\ parseInt JUndefined = JNum NaN
  /\ parseInt (JStr "") = JNum NaN.
Proof. repeat split; reflexivity. Qed.

(** A no-break space (U+00A0, the bytes 194 160) is white space. *)
Example parseInt_no_break_space :
  parseInt (JStr (String (ascii_of_nat 194) (String (ascii_of_nat 160) "42")))
  = JNum (Num 42).
Proof. reflexivity. Qed.

(** Beyond 2^53 the digits are rounded to a double; from 10^21 on a
    number prints in exponent form, of which [parseInt] reads the first
    digit. *)
Example parseInt_large :
  parseInt (JStr "9007199254740993") = JNum (Num 9007199254740992)
  /\ to_string (JNum (Num (2 ^ 60))) = "1152921504606847000"
  /\ to_string (JNum (Num (10 ^ 21))) = "1e+21"
  /\ to_string (JNum (Num (2 ^ 70))) = "1.1805916207174113e+21"
  /\ parseInt (JNum (Num (10 ^ 21))) = JNum (Num 1)
  /\ parseInt (JStr "1000000000000000000000") = JNum (Num (10 ^ 21))
  /\ parseInt (JStr (String "1" (zeros 400))) = JNum (Infinity false).
Proof. repeat split; vm_compute; reflexivity. Qed.

(** ** Basic facts *)

Lemma number_eqb_eq (a b : number) : number_eqb a b = true <-> a = b.
Proof.
  destruct a as [x| |x], b as [y| |y]; simpl; split; intro H;
    try discriminate; try reflexivity.
  - apply Z.eqb_eq in H. now subst.
  - injection H as ->. apply Z.eqb_refl.
  - apply Bool.eqb_prop in H. now subst.
  - injection H as ->. apply Bool.eqb_reflx.
Qed.

Lemma jsval_eqb_eq (a b : jsval) : jsval_eqb a b = true <-> a = b.
Proof.
  destruct a, b; simpl; split; intro H; try discriminate; try reflexivity.
  - apply Bool.eqb_prop in H. now subst.
  - injection H as ->. apply Bool.eqb_reflx.
  - apply number_eqb_eq in H. now subst.
  - injection H as ->. now apply number_eqb_eq.
  - apply String.eqb_eq in H. now subst.
  - injection H as ->. apply String.eqb_refl.
Qed.

Lemma jsval_eqb_refl (a : jsval) : jsval_eqb a a = true.
Proof. now apply jsval_eqb_eq. Qed.

Lemma has_key_iff (k : key) (d : lock) : has_key k d = true <-> lock_key d = k.
Proof.
  destruct k as [[u c] ch]. unfold has_key, lock_key.
  rewrite !andb_true_iff, !jsval_eqb_eq. split.
  - intros [[-> ->] ->]. reflexivity.
  - intros H. injection H as -> -> ->. auto.
Qed.

Lemma triple_filter_has_key (u c ch : jsval) (d : lock) :
  triple_filter u c ch d = has_key (stored_key u c ch) d.
Proof. reflexivity. Qed.

Lemma triple_filter_iff (u c ch : jsval) (d : lock) :
  triple_filter u c ch d = true <-> lock_key d = stored_key u c ch.
Proof. rewrite triple_filter_has_key. apply has_key_iff. Qed.

Lemma to_bson_idem (v : jsval) : to_bson (to_bson v) = to_bson v.
Proof. now destruct v. Qed.

Lemma to_bson_truthy (v : jsval) : truthy v = true -> to_bson v = v.
Proof. now destruct v. Qed.

Lemma truthy_str (s : string) : s <> "" -> truthy (JStr s) = true.
Proof.
  intros H. simpl. apply negb_true_iff. now apply String.eqb_neq.
Qed.

Lemma set_dates_key (t e : Z) (d : lock) : lock_key (set_dates t e d) = lock_key d.
Proof. reflexivity. Qed.

(** *** [update_first] and [upsert_lock] *)

Lemma update_first_none {A} (p : A -> bool) (f : A -> A) (l : list A) :
  update_first p f l = None <-> forall x, In x l -> p x = false.
Proof.
  induction l as [|d r IH]; simpl.
  - split; [intros _ x [] | reflexivity].
  - destruct (p d) eqn:Hp.
    + split; [discriminate|]. intros H. rewrite (H d) in Hp; [discriminate | now left].
    + destruct (update_first p f r) as [r'|] eqn:Hr.
      * split; [discriminate|]. intros H.
        assert (Hn : Some r' = None) by (apply IH; intros x Hx; apply H; now right).
        discriminate.
      * split; [|reflexivity]. intros _ x [<-|Hx]; [assumption|].
        now apply IH.
Qed.


Lemma leases_of_absent (k : key) (l : list lock) :
  ~ In k (map lock_key l) -> leases_of k l = [].
Proof.
  induction l as [|d r IH]; simpl; intros H; [reflexivity|].
  destruct (has_key k d) eqn:Hk.
  - apply has_key_iff in Hk. exfalso. apply H. now left.
  - apply IH. intros Hin. apply H. now right.
Qed.

Lemma update_first_leases (k : key) (t e : Z) (l l' : list lock) :
  unique_locks l ->
  update_first (has_key k) (set_dates t e) l = Some l' ->
  exists d, In d l /\ lock_key d = k /\ leases_of k l' = [set_dates t e d].
Proof.
  revert l'. induction l as [|d r IH]; simpl; intros l' Hu H; [discriminate|].
  inversion Hu as [|? ? Hnotin Hur]; subst.
  destruct (has_key k d) eqn:Hk.
  - injection H as <-. exists d. apply has_key_iff in Hk.
    split; [now left|]. split; [assumption|].
    unfold leases_of. simpl.
    assert (Hk' : has_key k (set_dates t e d) = true) by now apply has_key_iff.
    rewrite Hk'. f_equal. apply leases_of_absent. now rewrite <- Hk.
  - destruct (update_first (has_key k) (set_dates t e) r) as [r'|] eqn:Hr; [|discriminate].
    injection H as <-. destruct (IH r' Hur eq_refl) as (x & Hx & Hkx & Hl).
    exists x. split; [now right|]. split; [assumption|].
    unfold leases_of in *. simpl. now rewrite Hk.
Qed.

Lemma leases_of_app (k : key) (l1 l2 : list lock) :
  leases_of k (l1 ++ l2) = leases_of k l1 ++ leases_of k l2.
Proof. apply filter_app. Qed.

Lemma NoDup_snoc {A} (l : list A) (x : A) :
  NoDup l -> ~ In x l -> NoDup (l ++ [x]).
Proof.
  induction l as [|a r IH]; simpl; intros Hl Hx.
  - constructor; [intros []|constructor].
  - inversion Hl as [|? ? Ha Hr]; subst. constructor.
    + rewrite in_app_iff. intros [Hin|[->|[]]]; [now apply Ha|].
      apply Hx. now left.
    + apply IH; [assumption|]. intros Hin. apply Hx. now right.
Qed.


(** After an upsert the collection holds exactly one lease under the key,
    with the dates of this call. *)
Lemma upsert_lock_leases (u c ch : jsval) (t e : Z) (l : list lock) :
  unique_locks l ->
  leases_of (stored_key u c ch) (upsert_lock u c ch t e l)
  = [mkLock (to_bson u) (to_bson c) (to_bson ch) t e].
Proof.
  intros Hu. unfold upsert_lock.
  destruct (update_first _ _ l) as [l'|] eqn:H.
  - change (triple_filter u c ch) with (has_key (stored_key u c ch)) in H.
    destruct (update_first_leases _ _ _ _ _ Hu H) as (d & _ & Hk & ->).
    destruct d as [du dc dch dt de]. unfold lock_key, stored_key in Hk. simpl in Hk.
    injection Hk as -> -> ->. reflexivity.
  - rewrite leases_of_app.
    rewrite leases_of_absent.
    + simpl. unfold leases_of. simpl.
      now rewrite !jsval_eqb_refl.
    + intros Hin. apply in_map_iff in Hin. destruct Hin as (d & Hd & Hin).
      apply update_first_none with (x := d) in H; [|assumption].
      apply triple_filter_iff in Hd. congruence.
Qed.

(** *** Store calls and fault schedules *)

Lemma call_ok {A} (op : store -> A * store) (fs : list bool) (s : store) :
  first_ok fs -> call op fs s = (Returned (fst (op s)), tl fs, snd (op s)).
Proof.
  unfold first_ok, call. destruct fs as [|[|] fs']; simpl; intros H;
    try discriminate; now destruct (op s).
Qed.

Lemma call_fault {A} (op : store -> A * store) (fs : list bool) (s : store) :
  call op (true :: fs) s = (Thrown, fs, s).
Proof. reflexivity. Qed.

Lemma quiet_first (fs : list bool) : quiet fs -> first_ok fs.
Proof. unfold quiet, first_ok. destruct fs as [|[|] r]; simpl; auto. Qed.

Lemma quiet_tl (fs : list bool) : quiet fs -> quiet (tl fs).
Proof. unfold quiet. destruct fs as [|[|] r]; simpl; auto. discriminate. Qed.

Lemma set_db_same (w : world) : set_db w (db w) = w.
Proof. now destruct w. Qed.

Lemma set_locks_same (s : store) : set_locks s (chapter_locks s) = s.
Proof. now destruct s. Qed.

Lemma is_some_find {A} (p : A -> bool) (l : list A) :
  match findOne p l with Some _ => true | None => false end = existsb p l.
Proof.
  unfold findOne. induction l as [|d r IH]; simpl; [reflexivity|].
  now destruct (p d).
Qed.

Lemma existsb_filter {A} (p q : A -> bool) (l : list A) :
  existsb (fun d => p d && q d) l = existsb q (filter p l).
Proof.
  induction l as [|d r IH]; simpl; [reflexivity|].
  destruct (p d); simpl; now rewrite IH.
Qed.

(** *** What each handler does when its store calls go through *)

Lemma check_unlock_ok (u c ch : string) (now : Z) (fs : list bool) (w : world) :
  connected w = true -> first_ok fs ->
  check_unlock u c ch now fs w
  = (mkResponse 200
       (Unlocked (existsb (expires_gt now)
                    (leases_of (JStr u, parseInt (JStr c), JStr ch) (chapter_locks (db w))))),
     w).
Proof.
  intros Hc Hf. unfold check_unlock, try_catch, bind, locks_findOne, ret.
  rewrite Hc. simpl negb. cbv iota. rewrite call_ok by assumption. cbn [fst snd].
  rewrite is_some_find, set_db_same. unfold leases_of.
  rewrite <- existsb_filter. reflexivity.
Qed.

Lemma valid_body_guard (b : unlock_body) :
  valid_body b ->
  negb (truthy (body_userId b)) || negb (truthy (body_contentId b))
  || negb (truthy (body_chapterId b)) = false.
Proof. intros (-> & -> & ->). reflexivity. Qed.

Lemma unlock_chapter_locks (b : unlock_body) (t0 t1 t2 : Z) (fs : list bool) (w : world) :
  connected w = true -> valid_body b -> first_ok fs ->
  chapter_locks (db (snd (unlock_chapter b t0 t1 t2 fs w)))
  = upsert_lock (body_userId b) (parseInt (body_contentId b)) (body_chapterId b)
      t1 (t0 + lease_ms) (chapter_locks (db w)).
Proof.
  intros Hc Hv Hf. unfold unlock_chapter, try_catch, bind, locks_upsert, users_touch, ret.
  rewrite Hc, (valid_body_guard b Hv). simpl negb. cbv iota.
  rewrite call_ok by assumption. cbn [fst snd].
  destruct (tl fs) as [|[|] r]; reflexivity.
Qed.

Lemma unlock_chapter_response (b : unlock_body) (t0 t1 t2 : Z) (fs : list bool) (w : world) :
  connected w = true -> valid_body b -> quiet fs ->
  fst (unlock_chapter b t0 t1 t2 fs w)
  = mkResponse 200 (UnlockOk "Chapter unlocked successfully" (t0 + lease_ms)).
Proof.
  intros Hc Hv Hq. unfold unlock_chapter, try_catch, bind, locks_upsert, users_touch, ret.
  rewrite Hc, (valid_body_guard b Hv). simpl negb. cbv iota.
  rewrite call_ok by now apply quiet_first. cbn [fst snd].
  rewrite call_ok by now apply quiet_first, quiet_tl. reflexivity.
Qed.

Lemma ads_complete_locks (b : unlock_body) (t0 t1 t2 : Z) (fs : list bool) (w : world) :
  connected w = true -> valid_body b -> first_ok fs ->
  chapter_locks (db (snd (ads_complete b t0 t1 t2 fs w)))
  = upsert_lock (body_userId b) (body_contentId b) (body_chapterId b)
      t1 (t0 + lease_ms) (chapter_locks (db w)).
Proof.
  intros Hc Hv Hf. unfold ads_complete, try_catch, bind, locks_upsert, users_touch, ret.
  rewrite Hc, (valid_body_guard b Hv). simpl negb. cbv iota.
  rewrite call_ok by assumption. cbn [fst snd].
  destruct (tl fs) as [|[|] r]; reflexivity.
Qed.

Lemma ads_complete_response (b : unlock_body) (t0 t1 t2 : Z) (fs : list bool) (w : world) :
  connected w = true -> valid_body b -> quiet fs ->
  fst (ads_complete b t0 t1 t2 fs w)
  = mkResponse 200 (Success "Ad completed and chapter unlocked").
Proof.
  intros Hc Hv Hq. unfold ads_complete, try_catch, bind, locks_upsert, users_touch, ret.
  rewrite Hc, (valid_body_guard b Hv). simpl negb. cbv iota.
  rewrite call_ok by now apply quiet_first. cbn [fst snd].
  rewrite call_ok by now apply quiet_first, quiet_tl. reflexivity.
Qed.

Lemma existsb_single_lease (now t e : Z) (u c ch : jsval) :
  existsb (expires_gt now) [mkLock u c ch t e] = (now <? e).
Proof. simpl. apply orb_false_r. Qed.

(** ** Grant, then check *)

(** The check compares stored values with path parameters, which are
    strings: a lease whose userId or chapterId is not a string is one it
    never reports. *)
Lemma check_unlock_needs_strings (w : world) :
  connected w = true ->
  (forall d, In d (chapter_locks (db w)) ->
     (forall s, userId d <> JStr s) \/ (forall s, chapterId d <> JStr s)) ->
  forall u c ch now fs,
    first_ok fs -> fst (check_unlock u c ch now fs w) = mkResponse 200 (Unlocked false).
Proof.
  intros Hc Hl u c ch now fs Hf. rewrite check_unlock_ok by assumption.
  cbn [fst]. do 2 f_equal.
  assert (Hn : leases_of (JStr u, parseInt (JStr c), JStr ch) (chapter_locks (db w)) = []).
  { unfold leases_of. revert Hl. generalize (chapter_locks (db w)) as l.
    induction l as [|d r IH]; intros Hl; [reflexivity|]. cbn [filter].
    destruct (has_key _ d) eqn:Hk.
    - apply has_key_iff in Hk. unfold lock_key in Hk. injection Hk as Hu _ Hch.
      destruct (Hl d (or_introl eq_refl)) as [H | H]; [elim (H u) | elim (H ch)];
        assumption.
    - apply IH. intros x Hx. apply Hl. now right. }
  now rewrite Hn.
Qed.

(** C1 refuted as stated: the claim is for every triple, and a body may
    carry chapterId, or userId, as a JSON number.  The grant answers 200
    and stores the number; GET /api/check-unlock compares the stored
    value with a path parameter, a string, so no check ever reports the
    lease, whatever its path and time. *)
Lemma numeric_chapterId_is_never_checked :
  let w := mkWorld true (mkStore [] [] []) [] [] in
  let g := unlock_chapter (mkBody (JStr "guest_1") (JNum (Num 42)) (JNum (Num 3))) 0 0 0 [] w in
  let h := unlock_chapter (mkBody (JNum (Num 7)) (JNum (Num 42)) (JStr "3")) 0 0 0 [] w in
  fst g = mkResponse 200 (UnlockOk "Chapter unlocked successfully" 600000)
  /\ chapter_locks (db (snd g)) = [mkLock (JStr "guest_1") (JNum (Num 42)) (JNum (Num 3)) 0 600000]
  /\ fst (check_unlock "guest_1" "42" "3" 1 [] (snd g)) = mkResponse 200 (Unlocked false)
  /\ (forall u c ch now,
        fst (check_unlock u c ch now [] (snd g)) = mkResponse 200 (Unlocked false))
  /\ fst h = mkResponse 200 (UnlockOk "Chapter unlocked successfully" 600000)
  /\ chapter_locks (db (snd h)) = [mkLock (JNum (Num 7)) (JNum (Num 42)) (JStr "3") 0 600000]
  /\ (forall u c ch now,
        fst (check_unlock u c ch now [] (snd h)) = mkResponse 200 (Unlocked false)).
Proof.
  intros w g h. repeat split; try reflexivity; intros u c ch now;
    apply check_unlock_needs_strings; try reflexivity;
    intros d [<- | []]; (left; discriminate) || (right; discriminate).
Qed.

(** C1 (as amended). For a triple whose userId and chapterId are sent as
    strings, as the path of the check carries them, and whose contentId
    [parseInt] reads alike in the body and in the path: after POST
    /api/unlock-chapter completes with [Date.now() = t0], the triple
    holds one lease with [expiresAt = t0 + 600000]; GET
    /api/check-unlock for the triple answers true at every check before
    that instant and false at every check at or after it, hence at or
    after [unlockedAt + 600000]. *)
Theorem unlock_then_check_unlock
  (w : world) (u cs ch : string) (c : jsval) (t0 t1 t2 : Z) (fs : list bool) :
  connected w = true ->
  unique_locks (chapter_locks (db w)) ->
  u <> "" -> ch <> "" -> truthy c = true ->
  parseInt c = parseInt (JStr cs) ->
  quiet fs ->
  let g := unlock_chapter (mkBody (JStr u) c (JStr ch)) t0 t1 t2 fs w in
  fst g = mkResponse 200 (UnlockOk "Chapter unlocked successfully" (t0 + 600000))
  /\ leases_of (JStr u, parseInt c, JStr ch) (chapter_locks (db (snd g)))
     = [mkLock (JStr u) (parseInt c) (JStr ch) t1 (t0 + 600000)]
  /\ (forall now fs', first_ok fs' -> now < t0 + 600000 ->
        fst (check_unlock u cs ch now fs' (snd g)) = mkResponse 200 (Unlocked true))
  /\ (forall now fs', first_ok fs' -> t0 + 600000 <= now ->
        fst (check_unlock u cs ch now fs' (snd g)) = mkResponse 200 (Unlocked false))
  /\ (forall now fs', first_ok fs' -> t0 <= t1 -> t1 + 600000 <= now ->
        fst (check_unlock u cs ch now fs' (snd g)) = mkResponse 200 (Unlocked false)).
Proof.
  intros Hc Hu Hne Hch Htc Hp Hq g.
  assert (Hv : valid_body (mkBody (JStr u) c (JStr ch))).
  { repeat split; simpl body_userId; simpl body_contentId; simpl body_chapterId;
      auto using truthy_str. }
  assert (Hl : leases_of (JStr u, parseInt c, JStr ch) (chapter_locks (db (snd g)))
               = [mkLock (JStr u) (parseInt c) (JStr ch) t1 (t0 + 600000)]).
  { subst g. rewrite unlock_chapter_locks by auto using quiet_first.
    apply (upsert_lock_leases (JStr u) (parseInt c) (JStr ch)). assumption. }
  assert (Hc' : connected (snd g) = true).
  { subst g. unfold unlock_chapter, try_catch. rewrite Hc. simpl negb. cbv iota.
    match goal with |- context [match ?m with _ => _ end] => destruct m as [[[r|] fs'] s'] end;
      assumption. }
  assert (Hchk : forall now fs', first_ok fs' ->
            fst (check_unlock u cs ch now fs' (snd g))
            = mkResponse 200 (Unlocked (now <? t0 + 600000))).
  { intros now fs' Hf. rewrite check_unlock_ok by assumption. cbn [fst].
    rewrite <- Hp, Hl. now rewrite existsb_single_lease. }
  split; [apply (unlock_chapter_response _ t0 t1 t2 fs w Hc Hv Hq)|].
  split; [exact Hl|].
  repeat split; intros now fs' Hf; intros; rewrite Hchk by assumption; do 2 f_equal.
  - apply Z.ltb_lt. lia.
  - apply Z.ltb_ge. lia.
  - apply Z.ltb_ge. lia.
Qed.

Lemma unlock_then_check_unlock_witness :
  let w := mkWorld true (mkStore [] [] []) [] [] in
  let g := unlock_chapter (mkBody (JStr "guest_1") (JNum (Num 42)) (JStr "3")) 0 0 0 [] w in
  status (fst g) = 200
  /\ fst (check_unlock "guest_1" "42" "3" 599999 [] (snd g)) = mkResponse 200 (Unlocked true)
  /\ fst (check_unlock "guest_1" "42" "3" 600000 [] (snd g)) = mkResponse 200 (Unlocked false)
  /\ fst (check_unlock "guest_1" "42" "3" 600001 [] (snd g)) = mkResponse 200 (Unlocked false).
Proof.
  intros w g.
  destruct (unlock_then_check_unlock w "guest_1" "42" "3" (JNum (Num 42)) 0 0 0 [])
    as (Hr & _ & Ht & Hf & _).
  - reflexivity.
  - constructor.
  - discriminate.
  - discriminate.
  - reflexivity.
  - reflexivity.
  - reflexivity.
  - fold g in Hr, Ht, Hf. rewrite Hr. split; [reflexivity|].
    split; [apply Ht; [reflexivity | lia]|].
    split; apply Hf; try reflexivity; lia.
Defined.

(** ** One lease per triple *)


Lemma try_catch_connected (m : M response) (p e : string) (fs : list bool) (w : world) :
  connected (snd (try_catch m p e fs w)) = connected w.
Proof.
  unfold try_catch. destruct (m fs (db w)) as [[[r|] fs'] s]; reflexivity.
Qed.

Lemma try_catch_timers (m : M response) (p e : string) (fs : list bool) (w : world) :
  timers (snd (try_catch m p e fs w)) = timers w.
Proof.
  unfold try_catch. destruct (m fs (db w)) as [[[r|] fs'] s]; reflexivity.
Qed.

Lemma try_catch_db (m : M response) (p e : string) (fs : list bool) (w : world) :
  db (snd (try_catch m p e fs w)) = snd (m fs (db w)).
Proof.
  unfold try_catch. destruct (m fs (db w)) as [[[r|] fs'] s]; reflexivity.
Qed.

(** *** Store predicates kept by a handler body *)

Section Preservation.

Variable P : store -> Prop.

Lemma preserves_ret {A} (a : A) : preserves P (ret a).
Proof. intros fs s H. exact H. Qed.

Lemma preserves_bind {A B} (m : M A) (k : A -> M B) :
  preserves P m -> (forall a, preserves P (k a)) -> preserves P (bind m k).
Proof.
  intros Hm Hk fs s H. unfold bind. specialize (Hm fs s H).
  destruct (m fs s) as [[[a|] fs1] s1]; simpl in Hm |- *; [|exact Hm].
  now apply Hk.
Qed.

Lemma preserves_call {A} (op : store -> A * store) :
  (forall s, P s -> P (snd (op s))) -> preserves P (call op).
Proof.
  intros Hop fs s H. specialize (Hop s H). unfold call.
  destruct fs as [|[|] r]; simpl; try exact H; destruct (op s); exact Hop.
Qed.

Lemma preserves_read {A} (f : store -> A) : preserves P (call (fun s => (f s, s))).
Proof. apply preserves_call. intros s H. exact H. Qed.


Lemma preserves_try_catch (m : M response) (p e : string) (fs : list bool) (w : world) :
  preserves P m -> P (db w) -> P (db (snd (try_catch m p e fs w))).
Proof. intros Hm H. rewrite try_catch_db. now apply Hm. Qed.

End Preservation.




Ltac read_only :=
  repeat first
    [ apply preserves_ret
    | apply preserves_read
    | apply preserves_bind; [|intros] ].



Lemma timer_callback_locks (tm : timer) (t0 t1 : Z) (fs : list bool) (w : world) :
  first_ok fs ->
  chapter_locks (db (timer_callback tm t0 t1 fs w))
  = upsert_lock (timer_userId tm) (parseInt (timer_contentId tm)) (timer_chapterId tm)
      t1 (t0 + lease_ms) (chapter_locks (db w)).
Proof.
  intros Hf. unfold timer_callback, locks_upsert. rewrite call_ok by assumption.
  reflexivity.
Qed.

(** A grant that reaches its [updateOne] upserts under its key. *)
Lemma grant_effect (w : world) (g : grant) (fs : list bool) (k : key) :
  grant_key w g = Some k -> first_ok fs ->
  exists u c ch,
    k = stored_key u c ch
    /\ chapter_locks (db (step w (grant_event g fs)))
       = upsert_lock u c ch (grant_unlockedAt g) (grant_now g + lease_ms)
           (chapter_locks (db w)).
Proof.
  intros Hk Hf. destruct g as [b t0 t1 t2 | b t0 t1 t2 | n t0 t1]; simpl in Hk |- *.
  - destruct (connected w) eqn:Hc; [|discriminate].
    destruct (truthy (body_userId b)) eqn:H1; [|discriminate].
    destruct (truthy (body_contentId b)) eqn:H2; [|discriminate].
    destruct (truthy (body_chapterId b)) eqn:H3; [|discriminate].
    simpl in Hk. injection Hk as <-.
    exists (body_userId b), (parseInt (body_contentId b)), (body_chapterId b).
    split; [reflexivity|]. apply unlock_chapter_locks; unfold valid_body; auto.
  - destruct (connected w) eqn:Hc; [|discriminate].
    destruct (truthy (body_userId b)) eqn:H1; [|discriminate].
    destruct (truthy (body_contentId b)) eqn:H2; [|discriminate].
    destruct (truthy (body_chapterId b)) eqn:H3; [|discriminate].
    simpl in Hk. injection Hk as <-.
    exists (body_userId b), (body_contentId b), (body_chapterId b).
    split; [reflexivity|]. apply ads_complete_locks; unfold valid_body; auto.
  - unfold fire_timer. destruct (nth_error (timers w) n) as [tm|]; [|discriminate].
    injection Hk as <-.
    exists (timer_userId tm), (parseInt (timer_contentId tm)), (timer_chapterId tm).
    split; [reflexivity|]. now rewrite timer_callback_locks.
Qed.




(** ** The gated chapter read *)

Lemma active_lease_existsb (k : key) (now : Z) (l : list lock) :
  existsb (expires_gt now) (leases_of k l) = true <-> active_lease k now l.
Proof.
  unfold active_lease, leases_of. rewrite existsb_exists. split.
  - intros (d & Hin & Hgt). apply filter_In in Hin. destruct Hin as [Hin Hk].
    exists d. split; [assumption|]. split; [now apply has_key_iff|].
    now apply Z.ltb_lt.
  - intros (d & Hin & Hk & Hgt). exists d. split.
    + apply filter_In. split; [assumption | now apply has_key_iff].
    + now apply Z.ltb_lt.
Qed.

Lemma js_or_guest_bson (user : jsval) :
  to_bson (js_or user (JStr "guest")) = js_or user (JStr "guest").
Proof.
  unfold js_or. destruct (truthy user) eqn:H; [now apply to_bson_truthy | reflexivity].
Qed.


Lemma find_chapter_some (manga ch : string) (l : list chapter) :
  (exists c, In c l /\ normalizedTitle c = JStr manga /\ chapter_chapterId c = JStr ch) ->
  exists c, findOne (chapter_filter manga ch) l = Some c
            /\ In c l /\ normalizedTitle c = JStr manga /\ chapter_chapterId c = JStr ch.
Proof.
  intros (c & Hin & Hn & Hc). unfold findOne.
  destruct (find (chapter_filter manga ch) l) as [c'|] eqn:Hf.
  - exists c'. split; [reflexivity|]. apply find_some in Hf. destruct Hf as [Hin' Hp].
    unfold chapter_filter, eq_field in Hp. apply andb_true_iff in Hp.
    destruct Hp as [H1 H2]. apply jsval_eqb_eq in H1, H2. simpl in H1, H2. auto.
  - exfalso. apply find_none with (x := c) in Hf; [|assumption].
    unfold chapter_filter, eq_field in Hf. rewrite Hn, Hc in Hf. simpl in Hf.
    now rewrite !String.eqb_refl in Hf.
Qed.

Lemma find_chapter_none (manga ch : string) (l : list chapter) :
  ~ (exists c, In c l /\ normalizedTitle c = JStr manga /\ chapter_chapterId c = JStr ch) ->
  findOne (chapter_filter manga ch) l = None.
Proof.
  intros Hn. unfold findOne.
  destruct (find (chapter_filter manga ch) l) as [c|] eqn:Hf; [|reflexivity].
  exfalso. apply Hn. apply find_some in Hf. destruct Hf as [Hin Hp].
  unfold chapter_filter, eq_field in Hp. apply andb_true_iff in Hp.
  destruct Hp as [H1 H2]. apply jsval_eqb_eq in H1, H2. simpl in H1, H2.
  exists c. auto.
Qed.

(** On a string, and on no [user] at all, the handler is [chapter_gate]. *)
Lemma chapter_gate_query_scalar (manga ch : string) (now : Z) (fs : list bool) (w : world) :
  chapter_gate_query manga ch UserAbsent now fs w = chapter_gate manga ch JUndefined now fs w
  /\ forall s, chapter_gate_query manga ch (UserString s) now fs w
               = chapter_gate manga ch (JStr s) now fs w.
Proof. split; [|intros s]; reflexivity. Qed.

Lemma chapter_gate_query_ok (manga ch : string) (user : query_user) (test : jsval -> bool)
  (now : Z) (fs : list bool) (w : world) :
  connected w = true -> quiet fs -> user_test user = Some test ->
  chapter_gate_query manga ch user now fs w
  = (if existsb (fun d => test (userId d) && eq_field (JStr manga) (contentId d)
                          && eq_field (JStr ch) (chapterId d) && expires_gt now d)
          (chapter_locks (db w))
     then match findOne (chapter_filter manga ch) (chapters (db w)) with
          | Some c => payload c
          | None => not_found
          end
     else locked,
     w).
Proof.
  intros Hc Hq Ht.
  unfold chapter_gate_query, try_catch, bind, locks_findOne, chapters_findOne, ret.
  rewrite Hc, Ht. simpl negb. cbv iota.
  rewrite call_ok by now apply quiet_first. cbn [fst snd].
  rewrite <- is_some_find.
  destruct (findOne _ (chapter_locks (db w))) as [d|].
  - rewrite call_ok by now apply quiet_first, quiet_tl. cbn [fst snd].
    now rewrite set_db_same.
  - now rewrite set_db_same.
Qed.

(** The first stored chapter under a title and an id. *)
Lemma find_chapter_first (manga ch : string) (l : list chapter) :
  match findOne (chapter_filter manga ch) l with
  | Some c =>
      exists before after,
        l = before ++ c :: after
        /\ normalizedTitle c = JStr manga /\ chapter_chapterId c = JStr ch
        /\ forall x, In x before ->
             ~ (normalizedTitle x = JStr manga /\ chapter_chapterId x = JStr ch)
  | None =>
      forall x, In x l -> ~ (normalizedTitle x = JStr manga /\ chapter_chapterId x = JStr ch)
  end.
Proof.
  assert (Hp : forall x, chapter_filter manga ch x = true
                         <-> normalizedTitle x = JStr manga /\ chapter_chapterId x = JStr ch).
  { intros x. unfold chapter_filter, eq_field. rewrite andb_true_iff, !jsval_eqb_eq.
    cbn [to_bson]. intuition congruence. }
  unfold findOne. induction l as [|d r IH]; cbn [find]; [intros x []|].
  destruct (chapter_filter manga ch d) eqn:Hd.
  - exists [], r. apply Hp in Hd.
    split; [reflexivity|]. split; [tauto|]. split; [tauto|]. intros x [].
  - assert (Hn : ~ (normalizedTitle d = JStr manga /\ chapter_chapterId d = JStr ch)).
    { intros H. apply Hp in H. congruence. }
    destruct (find (chapter_filter manga ch) r) as [c|].
    + destruct IH as (before & after & -> & H1 & H2 & Hb).
      exists (d :: before), after. repeat split; try assumption.
      intros x [<- | Hx]; [assumption | now apply Hb].
    + intros x [<- | Hx]; [assumption | now apply IH].
Qed.

(** What C4 says holds for a caller that sends [user] as a string or
    not at all, with the store connected and no store fault.  An absent
    or empty [user] is the identity ["guest"]; without an active lease
    for (userId, manga, chapterId) the answer is 402 whether or not the
    chapter exists; with one it is 200 with the title of the first
    stored chapter under that title and id, its pages (none when the
    field is absent) and its content (null when absent or falsy), and
    404 when no chapter is stored under them.  The store is left as it
    was. *)
Theorem chapter_gate_decision
  (w : world) (manga ch : string) (who : option string) (now : Z) (fs : list bool) :
  connected w = true -> quiet fs ->
  let u := match who with
           | Some s => if String.eqb s "" then "guest" else s
           | None => "guest"
           end in
  let k := (JStr u, JStr manga, JStr ch) in
  let stored (c : chapter) :=
    normalizedTitle c = JStr manga /\ chapter_chapterId c = JStr ch in
  let r := fst (chapter_gate_query manga ch (named_user who) now fs w) in
  (~ active_lease k now (chapter_locks (db w)) ->
     r = mkResponse 402 (Error "Chapter locked. Please watch an ad to unlock."))
  /\ (active_lease k now (chapter_locks (db w)) ->
      (exists before c after,
         chapters (db w) = before ++ c :: after
         /\ stored c /\ (forall x, In x before -> ~ stored x)
         /\ r = mkResponse 200
                  (ChapterPayload (title c)
                     (match pages c with Some p => p | None => [] end)
                     (if truthy (content c) then content c else JNull)))
      \/ ((forall x, In x (chapters (db w)) -> ~ stored x)
          /\ r = mkResponse 404 (Error "Chapter not found")))
  /\ snd (chapter_gate_query manga ch (named_user who) now fs w) = w.
Proof.
  intros Hc Hq u k stored r. subst r.
  assert (Ht : user_test (named_user who) = Some (eq_field (JStr u))).
  { subst u. destruct who as [s|]; [|reflexivity]. cbn [named_user user_test].
    unfold js_or. cbn [truthy]. now destruct (String.eqb s ""). }
  rewrite (chapter_gate_query_ok manga ch _ _ now fs w Hc Hq Ht). cbn [fst snd].
  assert (He : existsb (fun d => eq_field (JStr u) (userId d)
                          && eq_field (JStr manga) (contentId d)
                          && eq_field (JStr ch) (chapterId d) && expires_gt now d)
                 (chapter_locks (db w)) = true
               <-> active_lease k now (chapter_locks (db w))).
  { rewrite <- active_lease_existsb. unfold leases_of. rewrite <- existsb_filter.
    reflexivity. }
  split; [|split; [|reflexivity]].
  - intros Hn. destruct (existsb _ _); [|reflexivity]. exfalso. now apply Hn, He.
  - intros Ha. apply He in Ha. rewrite Ha.
    pose proof (find_chapter_first manga ch (chapters (db w))) as Hfind.
    destruct (findOne (chapter_filter manga ch) (chapters (db w))) as [c|].
    + left. destruct Hfind as (before & after & Hl & H1 & H2 & Hb).
      exists before, c, after. repeat split; assumption.
    + right. split; [exact Hfind | reflexivity].
Qed.

Lemma chapter_gate_decision_witness :
  let w := mkWorld true
             (mkStore [mkLock (JStr "guest") (JStr "one-piece") (JStr "1") 0 600000] []
                [mkChapter (JStr "one-piece") (JStr "1") (JStr "Romance Dawn") None JUndefined])
             [] [] in
  fst (chapter_gate_query "one-piece" "1" UserAbsent 10 [] w)
  = mkResponse 200 (ChapterPayload (JStr "Romance Dawn") [] JNull).
Proof.
  intros w.
  destruct (chapter_gate_decision w "one-piece" "1" None 10 [])
    as (_ & H & _); [reflexivity | reflexivity |].
  destruct H as [(before & c & after & Hl & _ & Hb & Hr) | (Hnone & _)].
  - eexists. split; [left; reflexivity|]. split; [reflexivity | reflexivity].
  - destruct before as [|x before].
    + injection Hl as <- _. exact Hr.
    + exfalso. injection Hl as <- Hl. destruct before; discriminate Hl.
  - exfalso. apply (Hnone _ (or_introl eq_refl)). split; reflexivity.
Defined.

(** C4, where the code departs from it: GET
    /chapter/one-piece/1?user[$ne]=nobody.  The query parser hands the
    handler the object [{$ne: "nobody"}] as [req.query.user]; it is
    truthy, goes into the filter as the value of [userId], and the store
    reads it as "any userId other than nobody".  The lease of guest_1
    passes, and the caller, who holds no lease and named no identity, is
    served the chapter; asking as "nobody" or as nobody at all gets
    402. *)
Theorem gate_serves_operator_user :
  let w := mkWorld true
             (mkStore [mkLock (JStr "guest_1") (JStr "one-piece") (JStr "1") 0 600000] []
                [mkChapter (JStr "one-piece") (JStr "1") (JStr "Romance Dawn")
                   (Some [JStr "p1.png"]) JUndefined])
             [] [] in
  chapter_gate_query "one-piece" "1" (ne_operator "nobody") 10 [] w
  = (mkResponse 200 (ChapterPayload (JStr "Romance Dawn") [JStr "p1.png"] JNull), w)
  /\ chapter_gate_query "one-piece" "1" (UserString "nobody") 10 [] w
     = (mkResponse 402 (Error "Chapter locked. Please watch an ad to unlock."), w)
  /\ chapter_gate_query "one-piece" "1" UserAbsent 10 [] w
     = (mkResponse 402 (Error "Chapter locked. Please watch an ad to unlock."), w).
Proof. repeat split; reflexivity. Qed.

(** ** Two content key spaces *)




Lemma unlock_chapter_connected (b : unlock_body) (t0 t1 t2 : Z) (fs : list bool) (w : world) :
  connected (snd (unlock_chapter b t0 t1 t2 fs w)) = connected w.
Proof.
  unfold unlock_chapter. destruct (connected w) eqn:Hc; simpl negb; cbv iota;
    [|assumption]. now rewrite try_catch_connected.
Qed.







(** ** The last-seen update *)

(** C5 refuted as stated: when the last-seen update throws, both grant
    endpoints answer 500. *)
Lemma last_seen_failure_is_reported :
  let w := mkWorld true (mkStore [] [mkUser (JStr "guest_1") 0] []) [] [] in
  let b := mkBody (JStr "guest_1") (JStr "42") (JStr "3") in
  fst (unlock_chapter b 5 5 5 [false; true] w)
  = mkResponse 500 (Error "Failed to unlock chapter")
  /\ fst (ads_complete b 5 5 5 [false; true] w)
     = mkResponse 500 (Error "Internal server error").
Proof. split; reflexivity. Qed.

(** C5 as the code has it.  When the lease upsert goes through and the
    last-seen update throws, POST /api/unlock-chapter and POST
    /ads-complete log the error and answer 500; nothing is rolled back:
    the lease upsert stays in the store and the user record is as it
    was. *)
Theorem last_seen_failure
  (w : world) (b : unlock_body) (t0 t1 t2 : Z) (rest : list bool) :
  connected w = true -> valid_body b ->
  let fs := false :: true :: rest in
  unlock_chapter b t0 t1 t2 fs w
  = (mkResponse 500 (Error "Failed to unlock chapter"),
     log (set_db w (set_locks (db w)
            (upsert_lock (body_userId b) (parseInt (body_contentId b)) (body_chapterId b)
               t1 (t0 + 600000) (chapter_locks (db w)))))
         (LogError "Error unlocking chapter:"))
  /\ ads_complete b t0 t1 t2 fs w
     = (mkResponse 500 (Error "Internal server error"),
        log (set_db w (set_locks (db w)
               (upsert_lock (body_userId b) (body_contentId b) (body_chapterId b)
                  t1 (t0 + 600000) (chapter_locks (db w)))))
            (LogError "Error in ad completion:")).
Proof.
  intros Hc Hv fs. unfold unlock_chapter, ads_complete.
  rewrite Hc, (valid_body_guard b Hv). split; reflexivity.
Qed.

Lemma last_seen_failure_witness :
  let w := mkWorld true (mkStore [] [mkUser (JStr "guest_1") 0] []) [] [] in
  let b := mkBody (JStr "guest_1") (JStr "42") (JStr "3") in
  let r := unlock_chapter b 5 6 7 [false; true] w in
  status (fst r) = 500
  /\ chapter_locks (db (snd r)) = [mkLock (JStr "guest_1") (JNum (Num 42)) (JStr "3") 6 600005]
  /\ users (db (snd r)) = [mkUser (JStr "guest_1") 0]
  /\ console (snd r) = [LogError "Error unlocking chapter:"].
Proof.
  intros w b r.
  destruct (last_seen_failure w b 5 6 7 []) as [H _].
  - reflexivity.
  - repeat split; reflexivity.
  - subst r. rewrite H. repeat split; reflexivity.
Defined.

(** ** Missing identifiers *)

(** The two validated grant endpoints answer 400 and touch nothing. *)
Lemma validated_grants_reject (b : unlock_body) (t0 t1 t2 : Z) (fs : list bool) (w : world) :
  connected w = true ->
  truthy (body_userId b) = false \/ truthy (body_contentId b) = false
  \/ truthy (body_chapterId b) = false ->
  unlock_chapter b t0 t1 t2 fs w = (mkResponse 400 (Error "Missing required fields"), w)
  /\ ads_complete b t0 t1 t2 fs w = (mkResponse 400 (Error "Missing required fields"), w).
Proof.
  intros Hc Hm. unfold unlock_chapter, ads_complete, try_catch, ret. rewrite Hc.
  assert (Hg : negb (truthy (body_userId b)) || negb (truthy (body_contentId b))
               || negb (truthy (body_chapterId b)) = true).
  { destruct (truthy (body_userId b)), (truthy (body_contentId b)),
      (truthy (body_chapterId b)); try reflexivity.
    destruct Hm as [H | [H | H]]; discriminate H. }
  rewrite Hg. simpl. now rewrite set_db_same.
Qed.

(** C6 at the failing input: POST /api/start-chapter-timer with an empty
    body answers 200, and when its callback runs it writes a lease whose
    identifiers are null, NaN and null. *)
Theorem timer_grants_without_identifiers :
  let w := mkWorld true (mkStore [] [] []) [] [] in
  let s := start_chapter_timer (mkBody JUndefined JUndefined JUndefined) 0 w in
  fst s = mkResponse 200 (TimerStarted "Chapter unlock timer started (40 seconds)" 40000)
  /\ option_map (fun w' => chapter_locks (db w')) (fire_timer 0 40000 40000 [] (snd s))
     = Some [mkLock JNull (JNum NaN) JNull 40000 640000].
Proof. split; reflexivity. Qed.

(** ** The periodic cleanup *)

Lemma filter_split_length {A} (p : A -> bool) (l : list A) :
  (List.length (filter (fun d => negb (p d)) l) + List.length (filter p l))%nat
  = List.length l.
Proof.
  induction l as [|d r IH]; simpl; [reflexivity|].
  destruct (p d); simpl; lia.
Qed.

(** C7 refuted as stated: a run that finds nothing to delete reports no
    count at all. *)
Lemma sweeper_silent_run :
  let w := mkWorld true
             (mkStore [mkLock (JStr "guest_1") (JNum (Num 42)) (JStr "3") 0 600000] [] [])
             [] [] in
  console (sweeper 1000 [] w) = [] /\ sweeper 1000 [] w = w.
Proof. split; reflexivity. Qed.

(** C7 as the code has it.  With the store connected, a run of the
    cleanup at [now] whose [deleteMany] goes through keeps exactly the
    leases with [expiresAt >= now], removes the others, and logs the
    number removed when that number is positive (a run that removes
    nothing logs nothing); users and chapters are untouched.  A run whose
    [deleteMany] throws changes nothing and logs the error.  Every run
    returns. *)
Theorem sweeper_run (w : world) (now : Z) (fs : list bool) :
  connected w = true ->
  let w' := sweeper now fs w in
  let n := List.length (filter (fun d => expiresAt d <? now) (chapter_locks (db w))) in
  (first_ok fs ->
     (forall d, In d (chapter_locks (db w'))
                <-> In d (chapter_locks (db w)) /\ now <= expiresAt d)
     /\ (List.length (chapter_locks (db w')) + n)%nat = List.length (chapter_locks (db w))
     /\ console w' = console w ++ (if (0 <? n)%nat then [LogAutoCleaned n] else [])
     /\ users (db w') = users (db w) /\ chapters (db w') = chapters (db w))
  /\ (hd false fs = true ->
        db w' = db w
        /\ console w' = console w ++ [LogError "Error auto-cleaning chapter locks:"])
  /\ connected w' = true /\ timers w' = timers w.
Proof.
  intros Hc w' n. subst w'. unfold sweeper, locks_deleteMany. rewrite Hc.
  split; [|split].
  - intros Hf. rewrite call_ok by assumption. cbn [fst snd].
    change (List.length (filter (expires_lt now) (chapter_locks (db w)))) with n.
    assert (Hlocks : forall c, chapter_locks (db
              (if (0 <? n)%nat
               then log (set_db w (set_locks (db w) c)) (LogAutoCleaned n)
               else set_db w (set_locks (db w) c))) = c)
      by (intros c; now destruct (0 <? n)%nat).
    rewrite Hlocks. split; [|split; [|split]].
    + intros d. rewrite filter_In. unfold expires_lt.
      rewrite negb_true_iff, Z.ltb_ge. reflexivity.
    + apply (filter_split_length (expires_lt now)).
    + destruct (0 <? n)%nat; simpl; [reflexivity | now rewrite app_nil_r].
    + now destruct (0 <? n)%nat.
  - intros Hf. destruct fs as [|[|] r]; try discriminate Hf. split; reflexivity.
  - destruct (call _ fs (db w)) as [[[a|] fs1] s1]; [destruct (0 <? a)%nat|];
      simpl; auto.
Qed.

Lemma sweeper_run_witness :
  let w := mkWorld true
             (mkStore [mkLock (JStr "a") (JNum (Num 1)) (JStr "1") 0 600000;
                       mkLock (JStr "b") (JNum (Num 1)) (JStr "1") 100 600100;
                       mkLock (JStr "c") (JNum (Num 1)) (JStr "1") 200 600200] [] [])
             [] [] in
  List.length (chapter_locks (db (sweeper 600100 [] w))) = 2%nat
  /\ console (sweeper 600100 [] w) = [LogAutoCleaned 1].
Proof.
  intros w.
  destruct (sweeper_run w 600100 []) as ((_ & Hlen & Hlog & _) & _);
    [reflexivity | reflexivity |].
  split; [|exact Hlog].
  pose proof (eq_refl : List.length (filter (fun d => expiresAt d <? 600100)
                                       (chapter_locks (db w))) = 1%nat) as Hn.
  pose proof (eq_refl : List.length (chapter_locks (db w)) = 3%nat) as H3.
  rewrite Hn, H3 in Hlen. lia.
Defined.

(** ** Revoking every lease *)

Lemma filter_none {A} (l : list A) : filter (fun _ => false) l = [].
Proof. induction l; simpl; auto. Qed.

Lemma filter_all {A} (l : list A) : filter (fun _ => true) l = l.
Proof. induction l; simpl; congruence. Qed.

(** C8. POST /api/refresh-chapter-locks, when its [deleteMany] goes
    through, empties [chapter_locks] whatever the leases' expiry, and
    answers with the number of leases it removed; afterwards GET
    /api/check-unlock answers false for every triple at every time, and
    GET /api/user-locks lists nothing. *)
Theorem refresh_revokes_all (w : world) (fs : list bool) :
  connected w = true -> first_ok fs ->
  let r := refresh_chapter_locks fs w in
  fst r = mkResponse 200
            (Refreshed "All chapter locks refreshed" (List.length (chapter_locks (db w))))
  /\ chapter_locks (db (snd r)) = []
  /\ (forall u c ch now fs', first_ok fs' ->
        fst (check_unlock u c ch now fs' (snd r)) = mkResponse 200 (Unlocked false))
  /\ (forall u now fs', first_ok fs' ->
        fst (user_locks u now fs' (snd r)) = mkResponse 200 (Locks [])).
Proof.
  intros Hc Hf r.
  assert (Hr : r = (mkResponse 200
                      (Refreshed "All chapter locks refreshed"
                         (List.length (chapter_locks (db w)))),
                    set_db w (set_locks (db w) []))).
  { subst r. unfold refresh_chapter_locks, try_catch, bind, locks_deleteMany, ret.
    rewrite Hc. simpl negb. cbv iota. rewrite call_ok by assumption. cbn [fst snd].
    cbn [negb]. now rewrite filter_all, filter_none. }
  rewrite Hr. cbn [fst snd]. split; [reflexivity|]. split; [reflexivity|].
  split.
  - intros u c ch now fs' Hf'. now rewrite check_unlock_ok.
  - intros u now fs' Hf'. unfold user_locks, try_catch, bind, locks_find, ret.
    cbn [connected set_db]. rewrite Hc. simpl negb. cbv iota.
    rewrite call_ok by assumption. reflexivity.
Qed.

Lemma refresh_revokes_all_witness :
  let w := mkWorld true
             (mkStore [mkLock (JStr "guest_1") (JNum (Num 42)) (JStr "3") 0 600000;
                       mkLock (JStr "guest_2") (JNum (Num 7)) (JStr "1") 0 5] [] [])
             [] [] in
  let r := refresh_chapter_locks [] w in
  json (fst r) = Refreshed "All chapter locks refreshed" 2
  /\ fst (check_unlock "guest_1" "42" "3" 10 [] (snd r)) = mkResponse 200 (Unlocked false).
Proof.
  intros w r.
  destruct (refresh_revokes_all w []) as (H1 & _ & H2 & _);
    [reflexivity | reflexivity |].
  fold r in H1, H2. rewrite H1. split; [reflexivity|]. now apply H2.
Defined.

(** ** Reads leave the store alone *)

(** C10. GET /api/check-unlock and GET /api/user-locks leave every
    collection, the pending timers and the store handle as they were,
    for every world, request and fault schedule. *)
Theorem lease_reads_are_pure
  (w : world) (u c ch : string) (now : Z) (fs : list bool) :
  (db (snd (check_unlock u c ch now fs w)) = db w
   /\ timers (snd (check_unlock u c ch now fs w)) = timers w
   /\ connected (snd (check_unlock u c ch now fs w)) = connected w)
  /\ (db (snd (user_locks u now fs w)) = db w
      /\ timers (snd (user_locks u now fs w)) = timers w
      /\ connected (snd (user_locks u now fs w)) = connected w).
Proof.
  split.
  - unfold check_unlock. destruct (connected w) eqn:Hc; simpl negb; cbv iota;
      [|repeat split; assumption].
    rewrite try_catch_timers, try_catch_connected.
    split; [|split; [reflexivity | assumption]].
    apply (preserves_try_catch (fun s => s = db w)); [|reflexivity]. read_only.
  - unfold user_locks. destruct (connected w) eqn:Hc; simpl negb; cbv iota;
      [|repeat split; assumption].
    rewrite try_catch_timers, try_catch_connected.
    split; [|split; [reflexivity | assumption]].
    apply (preserves_try_catch (fun s => s = db w)); [|reflexivity]. read_only.
Qed.

(** ** The 40-second timer *)

Lemma filter_nil_all {A} (p : A -> bool) (l : list A) :
  filter p l = [] -> forall x, In x l -> p x = false.
Proof.
  induction l as [|d r IH]; simpl; intros H x Hin; [destruct Hin|].
  destruct (p d) eqn:Hd; [discriminate|].
  destruct Hin as [<-|Hin]; [assumption | now apply IH].
Qed.

Lemma upsert_lock_fresh (u c ch : jsval) (t e : Z) (l : list lock) :
  leases_of (stored_key u c ch) l = [] ->
  upsert_lock u c ch t e l = l ++ [mkLock (to_bson u) (to_bson c) (to_bson ch) t e].
Proof.
  intros H. unfold upsert_lock.
  assert (Hn : update_first (triple_filter u c ch) (set_dates t e) l = None).
  { apply update_first_none. intros x Hx. rewrite triple_filter_has_key.
    now apply (filter_nil_all _ _ H). }
  now rewrite Hn.
Qed.

Lemma leases_of_single (k : key) (d : lock) : lock_key d = k -> leases_of k [d] = [d].
Proof.
  intros H. apply has_key_iff in H. unfold leases_of. cbn [filter]. now rewrite H.
Qed.

Lemma nth_error_snoc {A} (l : list A) (x : A) : nth_error (l ++ [x]) (List.length l) = Some x.
Proof. induction l as [|a r IH]; simpl; auto. Qed.

Lemma remove_nth_snoc {A} (l : list A) (x : A) : remove_nth (List.length l) (l ++ [x]) = l.
Proof. induction l as [|a r IH]; simpl; congruence. Qed.

(** C9 refuted as stated, twice.  The handler hands the delay to the
    runtime and the callback reads its own [Date.now()]: nothing the
    code does keeps that reading from being 39999, and a check at 39999
    then answers true.  And a timer started with chapterId, or userId,
    sent as a JSON number grants a lease that no check reports. *)
Lemma timer_grant_against_the_clock :
  let w := mkWorld true (mkStore [] [] []) [] [] in
  let s := start_chapter_timer (mkBody (JStr "guest_1") (JStr "42") (JStr "3")) 0 w in
  let n := start_chapter_timer (mkBody (JStr "guest_1") (JNum (Num 42)) (JNum (Num 3))) 0 w in
  let m := start_chapter_timer (mkBody (JNum (Num 7)) (JNum (Num 42)) (JStr "3")) 0 w in
  (exists w2,
     fire_timer 0 39999 39999 [] (snd s) = Some w2
     /\ fst (check_unlock "guest_1" "42" "3" 39999 [] w2) = mkResponse 200 (Unlocked true))
  /\ (exists w2,
        fire_timer 0 40000 40000 [] (snd n) = Some w2
        /\ chapter_locks (db w2)
           = [mkLock (JStr "guest_1") (JNum (Num 42)) (JNum (Num 3)) 40000 640000]
        /\ fst (check_unlock "guest_1" "42" "3" 40001 [] w2)
           = mkResponse 200 (Unlocked false)
        /\ forall u c ch now,
             fst (check_unlock u c ch now [] w2) = mkResponse 200 (Unlocked false))
  /\ (exists w2,
        fire_timer 0 40000 40000 [] (snd m) = Some w2
        /\ chapter_locks (db w2)
           = [mkLock (JNum (Num 7)) (JNum (Num 42)) (JStr "3") 40000 640000]
        /\ forall u c ch now,
             fst (check_unlock u c ch now [] w2) = mkResponse 200 (Unlocked false)).
Proof.
  intros w s n m. split; [|split]; eexists; (split; [reflexivity|]);
    repeat split; try reflexivity; intros u c ch now;
    apply check_unlock_needs_strings; try reflexivity;
    intros d [<- | []]; (left; discriminate) || (right; discriminate).
Qed.

(** C9 (as amended). POST /api/start-chapter-timer answers at once, leaves
    one more callback pending with the 40000 ms it asked for, and grants
    nothing itself: the store is as it was, so for a triple without a
    prior lease GET /api/check-unlock answers false until the callback
    runs.  When the runtime runs the callback, whatever [t0] its
    [Date.now()] reads, it leaves one lease for the triple with
    [expiresAt = t0 + 600000]; for userId and chapterId strings the
    check answers true from then until that instant and false from it
    on. *)
Theorem start_chapter_timer_delays_grant
  (w : world) (u cs ch : string) (c : jsval) (now : Z) :
  connected w = true ->
  parseInt c = parseInt (JStr cs) ->
  leases_of (JStr u, parseInt c, JStr ch) (chapter_locks (db w)) = [] ->
  let s := start_chapter_timer (mkBody (JStr u) c (JStr ch)) now w in
  let k := List.length (timers w) in
  fst s = mkResponse 200 (TimerStarted "Chapter unlock timer started (40 seconds)" 40000)
  /\ db (snd s) = db w
  /\ timers (snd s) = timers w ++ [mkTimer (now + 40000) (JStr u) c (JStr ch)]
  /\ (forall t fs, first_ok fs ->
        fst (check_unlock u cs ch t fs (snd s)) = mkResponse 200 (Unlocked false))
  /\ (forall t0 t1 fs, first_ok fs ->
        exists w2,
          fire_timer k t0 t1 fs (snd s) = Some w2
          /\ timers w2 = timers w
          /\ leases_of (JStr u, parseInt c, JStr ch) (chapter_locks (db w2))
             = [mkLock (JStr u) (parseInt c) (JStr ch) t1 (t0 + 600000)]
          /\ (forall t fs', first_ok fs' -> t < t0 + 600000 ->
                fst (check_unlock u cs ch t fs' w2) = mkResponse 200 (Unlocked true))
          /\ (forall t fs', first_ok fs' -> t0 + 600000 <= t ->
                fst (check_unlock u cs ch t fs' w2) = mkResponse 200 (Unlocked false))).
Proof.
  intros Hc Hp Hnone s k.
  assert (Hs : s = (mkResponse 200
                      (TimerStarted "Chapter unlock timer started (40 seconds)" 40000),
                    mkWorld true (db w)
                      (timers w ++ [mkTimer (now + 40000) (JStr u) c (JStr ch)])
                      (console w))).
  { subst s. unfold start_chapter_timer. now rewrite Hc. }
  rewrite Hs. cbn [fst snd db timers]. split; [reflexivity|]. split; [reflexivity|].
  split; [reflexivity|]. split.
  - intros t fs Hf. rewrite check_unlock_ok by auto. cbn [fst db].
    now rewrite <- Hp, Hnone.
  - intros t0 t1 fs Hf. unfold fire_timer. cbn [timers connected db console]. subst k.
    rewrite nth_error_snoc, remove_nth_snoc.
    eexists. split; [reflexivity|].
    assert (Hl : leases_of (JStr u, parseInt c, JStr ch)
                   (chapter_locks (db (timer_callback
                      (mkTimer (now + 40000) (JStr u) c (JStr ch)) t0 t1 fs
                      (mkWorld true (db w) (timers w) (console w)))))
                 = [mkLock (JStr u) (parseInt c) (JStr ch) t1 (t0 + 600000)]).
    { rewrite timer_callback_locks by assumption.
      cbn [timer_userId timer_contentId timer_chapterId db].
      rewrite (upsert_lock_fresh (JStr u) (parseInt c) (JStr ch)) by exact Hnone.
      rewrite leases_of_app, Hnone.
      now apply (leases_of_single (JStr u, parseInt c, JStr ch)). }
    assert (Hc2 : connected (timer_callback
                      (mkTimer (now + 40000) (JStr u) c (JStr ch)) t0 t1 fs
                      (mkWorld true (db w) (timers w) (console w))) = true).
    { unfold timer_callback.
      destruct (locks_upsert _ _ _ _ _ fs _) as [[[a|] fs1] s1]; reflexivity. }
    assert (Ht2 : timers (timer_callback
                      (mkTimer (now + 40000) (JStr u) c (JStr ch)) t0 t1 fs
                      (mkWorld true (db w) (timers w) (console w))) = timers w).
    { unfold timer_callback.
      destruct (locks_upsert _ _ _ _ _ fs _) as [[[a|] fs1] s1]; reflexivity. }
    split; [exact Ht2|]. split; [exact Hl|].
    split; intros t fs' Hf' Ht; rewrite check_unlock_ok by assumption; cbn [fst];
      rewrite <- Hp, Hl, existsb_single_lease; do 2 f_equal.
    + apply Z.ltb_lt. lia.
    + apply Z.ltb_ge. lia.
Qed.

Lemma start_chapter_timer_delays_grant_witness :
  let w := mkWorld true (mkStore [] [] []) [] [] in
  let s := start_chapter_timer (mkBody (JStr "guest_1") (JNum (Num 42)) (JStr "3")) 0 w in
  timers (snd s) = [mkTimer 40000 (JStr "guest_1") (JNum (Num 42)) (JStr "3")]
  /\ fst (check_unlock "guest_1" "42" "3" 39999 [] (snd s)) = mkResponse 200 (Unlocked false)
  /\ exists w2, fire_timer 0 40003 40003 [] (snd s) = Some w2
       /\ fst (check_unlock "guest_1" "42" "3" 40004 [] w2) = mkResponse 200 (Unlocked true)
       /\ fst (check_unlock "guest_1" "42" "3" 640003 [] w2) = mkResponse 200 (Unlocked false).
Proof.
  intros w s.
  destruct (start_chapter_timer_delays_grant w "guest_1" "42" "3" (JNum (Num 42)) 0)
    as (_ & _ & Hpending & Hidle & Hfire); [reflexivity | reflexivity | reflexivity |].
  fold s in Hpending, Hidle, Hfire.
  split; [exact Hpending|]. split; [now apply Hidle|].
  destruct (Hfire 40003 40003 []) as (w2 & Hw2 & _ & _ & Hon & Hoff); [reflexivity |].
  exists w2. split; [exact Hw2|].
  split; [apply Hon; [reflexivity | lia] | apply Hoff; [reflexivity | lia]].
Defined.

(** * Further properties of the lease handlers *)

(** ** The store handle is not set *)

Lemma step_unconnected (w : world) (e : event) :
  connected w = false -> timers w = [] -> own_event e = true -> step w e = w.
Proof.
  intros Hc Ht He. destruct e; try discriminate He; simpl;
    unfold check_unlock, unlock_chapter, refresh_chapter_locks, user_locks, ads_complete,
      direct_chapter, chapter_gate_query, start_chapter_timer, sweeper, fire_timer;
    rewrite ?Hc, ?Ht; try reflexivity.
  now destruct k.
Qed.

(** Every lease handler answers 503 and leaves the world as it is while
    [db] is unset, before any validation, and the cleanup does nothing.
    So a process that has not connected yet grants, schedules, deletes
    and logs nothing, whatever it is sent. *)
Theorem unavailable_everywhere (w : world) :
  connected w = false ->
  (forall es, timers w = [] -> forallb own_event es = true -> run w es = w)
  /\ (forall u c ch now fs, check_unlock u c ch now fs w = (unavailable, w))
  /\ (forall b t0 t1 t2 fs, unlock_chapter b t0 t1 t2 fs w = (unavailable, w))
  /\ (forall fs, refresh_chapter_locks fs w = (unavailable, w))
  /\ (forall u now fs, user_locks u now fs w = (unavailable, w))
  /\ (forall b t0 t1 t2 fs, ads_complete b t0 t1 t2 fs w = (unavailable, w))
  /\ (forall manga ch fs, direct_chapter manga ch fs w = (unavailable, w))
  /\ (forall manga ch user now fs, chapter_gate manga ch user now fs w = (unavailable, w))
  /\ (forall b now, start_chapter_timer b now w = (unavailable, w))
  /\ (forall now fs, sweeper now fs w = w).
Proof.
  intros Hc. split.
  - intros es Ht. unfold run. induction es as [|e es IH]; simpl; intros He; [reflexivity|].
    apply andb_true_iff in He. destruct He as [He Hes].
    rewrite (step_unconnected w e Hc Ht He). now apply IH.
  - unfold check_unlock, unlock_chapter, refresh_chapter_locks, user_locks, ads_complete,
      direct_chapter, chapter_gate, start_chapter_timer, sweeper.
    rewrite Hc. repeat split.
Qed.

Lemma unavailable_everywhere_witness :
  unlock_chapter (mkBody JUndefined JUndefined JUndefined) 0 0 0 [] (boot [] [])
  = (unavailable, boot [] []).
Proof.
  destruct (unavailable_everywhere (boot [] [])) as (_ & _ & H & _); [reflexivity|].
  apply H.
Defined.

(** ** A store call throws *)

(** When the first store call of a request throws, the handler logs the
    error under its own prefix, answers 500 with its own message and
    leaves the store as it was.  The two validating endpoints get that far
    only with three truthy fields; the gate also answers 500, not 404,
    when the lease lookup goes through and the chapter lookup throws. *)
Theorem first_call_throws (w : world) (rest : list bool) :
  connected w = true ->
  let fs := true :: rest in
  (forall u c ch now,
     check_unlock u c ch now fs w
     = (mkResponse 500 (Error "Failed to check chapter lock"),
        log w (LogError "Error checking chapter lock:")))
  /\ (forall b t0 t1 t2, valid_body b ->
        unlock_chapter b t0 t1 t2 fs w
        = (mkResponse 500 (Error "Failed to unlock chapter"),
           log w (LogError "Error unlocking chapter:"))
        /\ ads_complete b t0 t1 t2 fs w
           = (mkResponse 500 (Error "Internal server error"),
              log w (LogError "Error in ad completion:")))
  /\ refresh_chapter_locks fs w
     = (mkResponse 500 (Error "Failed to refresh chapter locks"),
        log w (LogError "Error refreshing chapter locks:"))
  /\ (forall u now,
        user_locks u now fs w
        = (mkResponse 500 (Error "Failed to fetch user locks"),
           log w (LogError "Error fetching user locks:")))
  /\ (forall manga ch,
        direct_chapter manga ch fs w
        = (mkResponse 500 (Error "Internal server error"),
           log w (LogError "Error fetching chapter:")))
  /\ (forall manga ch user now,
        chapter_gate manga ch user now fs w
        = (mkResponse 500 (Error "Internal server error"),
           log w (LogError "Error fetching chapter:")))
  /\ (forall manga ch who now,
        active_lease (js_or who (JStr "guest"), JStr manga, JStr ch) now
          (chapter_locks (db w)) ->
        chapter_gate manga ch who now (false :: fs) w
        = (mkResponse 500 (Error "Internal server error"),
           log w (LogError "Error fetching chapter:"))).
Proof.
  intros Hc fs.
  assert (Hw : forall l, log (set_db w (db w)) l = log w l)
    by (intros l; now rewrite set_db_same).
  repeat split; intros.
  - unfold check_unlock, try_catch. rewrite Hc. simpl. apply f_equal, Hw.
  - unfold unlock_chapter, try_catch. rewrite Hc, (valid_body_guard b H).
    simpl. apply f_equal, Hw.
  - unfold ads_complete, try_catch. rewrite Hc, (valid_body_guard b H).
    simpl. apply f_equal, Hw.
  - unfold refresh_chapter_locks, try_catch. rewrite Hc. simpl. apply f_equal, Hw.
  - unfold user_locks, try_catch. rewrite Hc. simpl. apply f_equal, Hw.
  - unfold direct_chapter, try_catch. rewrite Hc. simpl. apply f_equal, Hw.
  - unfold chapter_gate, try_catch. rewrite Hc. simpl. apply f_equal, Hw.
  - apply active_lease_existsb in H. unfold leases_of in H.
    rewrite <- existsb_filter in H.
    unfold chapter_gate, try_catch, bind, locks_findOne, chapters_findOne.
    rewrite Hc. simpl negb. cbv iota. rewrite call_ok by reflexivity. cbn [fst snd tl].
    assert (Hfind : match findOne (fun d =>
                       triple_filter (js_or who (JStr "guest")) (JStr manga) (JStr ch) d
                       && expires_gt now d) (chapter_locks (db w))
                    with Some _ => true | None => false end = true).
    { rewrite is_some_find. unfold triple_filter, eq_field.
      rewrite js_or_guest_bson. exact H. }
    destruct (findOne _ (chapter_locks (db w))); [|discriminate Hfind].
    simpl. apply f_equal, Hw.
Qed.

Lemma first_call_throws_witness :
  let w := mkWorld true
             (mkStore [mkLock (JStr "guest") (JStr "one-piece") (JStr "1") 0 600000] [] [])
             [] [] in
  fst (chapter_gate "one-piece" "1" JUndefined 10 [false; true] w)
  = mkResponse 500 (Error "Internal server error")
  /\ fst (unlock_chapter (mkBody (JStr "u") (JStr "1") (JStr "1")) 0 0 0 [true] w)
     = mkResponse 500 (Error "Failed to unlock chapter").
Proof.
  intros w.
  destruct (first_call_throws w []) as (_ & Hu & _ & _ & _ & _ & Hg); [reflexivity|].
  split.
  - rewrite Hg; [reflexivity|].
    eexists. split; [left; reflexivity|]. split; [reflexivity | reflexivity].
  - destruct (Hu (mkBody (JStr "u") (JStr "1") (JStr "1")) 0 0 0) as [H _];
      [repeat split; reflexivity|].
    now rewrite H.
Defined.

(** ** Expired leases are inert *)

Lemma check_unlock_depends (u c ch : string) (now : Z) (fs : list bool) (w w' : world) :
  connected w' = connected w ->
  existsb (fun d => triple_filter (JStr u) (parseInt (JStr c)) (JStr ch) d
                    && expires_gt now d) (chapter_locks (db w'))
  = existsb (fun d => triple_filter (JStr u) (parseInt (JStr c)) (JStr ch) d
                      && expires_gt now d) (chapter_locks (db w)) ->
  fst (check_unlock u c ch now fs w') = fst (check_unlock u c ch now fs w).
Proof.
  intros Hc He. unfold check_unlock. rewrite Hc.
  destruct (connected w); simpl negb; cbv iota; [|reflexivity].
  unfold try_catch, bind, locks_findOne, call, ret.
  rewrite <- !is_some_find in He.
  destruct fs as [|[|] fs1]; cbn [fst snd]; try reflexivity; now rewrite He.
Qed.








(** ** Grants do not disturb other triples *)

Lemma upsert_lock_frame (k : key) (u c ch : jsval) (t e : Z) (l : list lock) :
  k <> stored_key u c ch ->
  leases_of k (upsert_lock u c ch t e l) = leases_of k l.
Proof.
  intros Hk.
  assert (Hnew : forall d, lock_key d = stored_key u c ch -> has_key k d = false).
  { intros d Hd. destruct (has_key k d) eqn:H; [|reflexivity].
    apply has_key_iff in H. congruence. }
  unfold upsert_lock.
  destruct (update_first (triple_filter u c ch) (set_dates t e) l) as [l'|] eqn:H.
  - revert l' H. induction l as [|d r IH]; simpl; intros l' H; [discriminate|].
    destruct (triple_filter u c ch d) eqn:Hd.
    + injection H as <-. apply triple_filter_iff in Hd. unfold leases_of. simpl.
      rewrite (Hnew d Hd), (Hnew (set_dates t e d)); [reflexivity|].
      now rewrite set_dates_key.
    + destruct (update_first _ _ r) as [r'|]; [|discriminate].
      injection H as <-. unfold leases_of in *. simpl.
      rewrite (IH r' eq_refl). reflexivity.
  - rewrite leases_of_app. unfold leases_of at 2. simpl.
    rewrite Hnew by reflexivity. apply app_nil_r.
Qed.

Lemma grant_writes_or_not (w : world) (g : grant) (fs : list bool) :
  chapter_locks (db (step w (grant_event g fs))) = chapter_locks (db w)
  \/ exists u c ch,
       grant_key w g = Some (stored_key u c ch)
       /\ chapter_locks (db (step w (grant_event g fs)))
          = upsert_lock u c ch (grant_unlockedAt g) (grant_now g + lease_ms)
              (chapter_locks (db w)).
Proof.
  destruct (grant_key w g) as [k|] eqn:Hk.
  - destruct fs as [|[|] r].
    + right. destruct (grant_effect w g [] k Hk eq_refl) as (u & c & ch & -> & H).
      exists u, c, ch. auto.
    + left. destruct g as [b t0 t1 t2 | b t0 t1 t2 | n t0 t1]; simpl in Hk |- *.
      * unfold unlock_chapter, try_catch, bind, locks_upsert.
        destruct (connected w); [|reflexivity]. simpl negb. cbv iota.
        destruct (negb (truthy (body_userId b)) || negb (truthy (body_contentId b))
                  || negb (truthy (body_chapterId b))); reflexivity.
      * unfold ads_complete, try_catch, bind, locks_upsert.
        destruct (connected w); [|reflexivity]. simpl negb. cbv iota.
        destruct (negb (truthy (body_userId b)) || negb (truthy (body_contentId b))
                  || negb (truthy (body_chapterId b))); reflexivity.
      * unfold fire_timer. destruct (nth_error (timers w) n) as [tm|]; reflexivity.
    + right. destruct (grant_effect w g (false :: r) k Hk eq_refl)
        as (u & c & ch & -> & H).
      exists u, c, ch. auto.
  - left. destruct g as [b t0 t1 t2 | b t0 t1 t2 | n t0 t1]; simpl in Hk |- *.
    + unfold unlock_chapter. destruct (connected w); [|reflexivity].
      simpl negb. cbv iota. simpl andb in Hk.
      destruct (truthy (body_userId b)), (truthy (body_contentId b)),
        (truthy (body_chapterId b)); try discriminate Hk;
        unfold try_catch, ret; simpl; reflexivity.
    + unfold ads_complete. destruct (connected w); [|reflexivity].
      simpl negb. cbv iota. simpl andb in Hk.
      destruct (truthy (body_userId b)), (truthy (body_contentId b)),
        (truthy (body_chapterId b)); try discriminate Hk;
        unfold try_catch, ret; simpl; reflexivity.
    + unfold fire_timer in *.
      destruct (nth_error (timers w) n) as [tm|]; [discriminate Hk | reflexivity].
Qed.

(** A grant by any of the three paths, whether it goes through, is
    refused or throws, leaves the leases of every triple other than its
    own exactly as they were, so the answers of GET /api/check-unlock for
    the other triples do not change. *)
Theorem grant_leaves_other_triples
  (w : world) (g : grant) (fs : list bool) (k : key) :
  grant_key w g <> Some k ->
  leases_of k (chapter_locks (db (step w (grant_event g fs))))
  = leases_of k (chapter_locks (db w)).
Proof.
  intros Hk. destruct (grant_writes_or_not w g fs) as [-> | (u & c & ch & Hg & ->)];
    [reflexivity|].
  apply upsert_lock_frame. congruence.
Qed.

Lemma grant_leaves_other_triples_witness :
  let w := mkWorld true
             (mkStore [mkLock (JStr "a") (JNum (Num 1)) (JStr "1") 0 600000] [] []) [] [] in
  let g := ViaUnlock (mkBody (JStr "a") (JStr "1") (JStr "2")) 50 50 50 in
  leases_of (JStr "a", JNum (Num 1), JStr "1")
    (chapter_locks (db (step w (grant_event g []))))
  = [mkLock (JStr "a") (JNum (Num 1)) (JStr "1") 0 600000].
Proof.
  intros w g.
  rewrite (grant_leaves_other_triples w g [] (JStr "a", JNum (Num 1), JStr "1"));
    [reflexivity | discriminate].
Defined.

(** ** The read without a lock check *)

Lemma direct_chapter_ok (manga ch : string) (fs : list bool) (w : world) :
  connected w = true -> first_ok fs ->
  direct_chapter manga ch fs w
  = (match findOne (chapter_filter manga ch) (chapters (db w)) with
     | Some c => payload c
     | None => not_found
     end, w).
Proof.
  intros Hc Hf. unfold direct_chapter, try_catch, bind, chapters_findOne, ret.
  rewrite Hc. simpl negb. cbv iota. rewrite call_ok by assumption. cbn [fst snd].
  now rewrite set_db_same.
Qed.

(** GET /direct-chapter serves a chapter by title and id whatever the
    leases are: with no store fault it answers 200 with the title of the
    first stored chapter under that title and id, its pages (none when
    the field is absent) and its content (null when absent or falsy), or
    404 when no chapter is stored under them; never 402, and it changes
    nothing.  GET /chapter, asked by a caller that sends [user] as a
    string or not at all, gives a lease holder exactly that answer and
    gives 402 to a caller without a lease, where the direct read still
    serves. *)
Theorem direct_chapter_is_ungated
  (w : world) (manga ch : string) (who : option string) (now : Z) (fs : list bool) :
  connected w = true -> quiet fs ->
  let u := match who with
           | Some s => if String.eqb s "" then "guest" else s
           | None => "guest"
           end in
  let k := (JStr u, JStr manga, JStr ch) in
  let stored (c : chapter) :=
    normalizedTitle c = JStr manga /\ chapter_chapterId c = JStr ch in
  let r := fst (direct_chapter manga ch fs w) in
  (forall locks us,
     fst (direct_chapter manga ch fs (set_db w (mkStore locks us (chapters (db w))))) = r)
  /\ snd (direct_chapter manga ch fs w) = w
  /\ ((exists before c after,
         chapters (db w) = before ++ c :: after
         /\ stored c /\ (forall x, In x before -> ~ stored x)
         /\ r = mkResponse 200
                  (ChapterPayload (title c)
                     (match pages c with Some p => p | None => [] end)
                     (if truthy (content c) then content c else JNull)))
      \/ ((forall x, In x (chapters (db w)) -> ~ stored x)
          /\ r = mkResponse 404 (Error "Chapter not found")))
  /\ (active_lease k now (chapter_locks (db w)) ->
      fst (chapter_gate_query manga ch (named_user who) now fs w) = r)
  /\ (~ active_lease k now (chapter_locks (db w)) ->
      fst (chapter_gate_query manga ch (named_user who) now fs w)
      = mkResponse 402 (Error "Chapter locked. Please watch an ad to unlock.")).
Proof.
  intros Hc Hq u k stored r. subst r. pose proof (quiet_first fs Hq) as Hf.
  rewrite (direct_chapter_ok manga ch fs w Hc Hf). cbn [fst snd].
  assert (Ht : user_test (named_user who) = Some (eq_field (JStr u))).
  { subst u. destruct who as [s|]; [|reflexivity]. cbn [named_user user_test].
    unfold js_or. cbn [truthy]. now destruct (String.eqb s ""). }
  rewrite (chapter_gate_query_ok manga ch _ _ now fs w Hc Hq Ht). cbn [fst].
  assert (He : existsb (fun d => eq_field (JStr u) (userId d)
                          && eq_field (JStr manga) (contentId d)
                          && eq_field (JStr ch) (chapterId d) && expires_gt now d)
                 (chapter_locks (db w)) = true
               <-> active_lease k now (chapter_locks (db w))).
  { rewrite <- active_lease_existsb. unfold leases_of. rewrite <- existsb_filter.
    reflexivity. }
  split; [|split; [reflexivity|split; [|split]]].
  - intros locks us. now rewrite direct_chapter_ok.
  - pose proof (find_chapter_first manga ch (chapters (db w))) as Hfind.
    destruct (findOne (chapter_filter manga ch) (chapters (db w))) as [c|].
    + left. destruct Hfind as (before & after & Hl & H1 & H2 & Hb).
      exists before, c, after. repeat split; assumption.
    + right. split; [exact Hfind | reflexivity].
  - intros Ha. apply He in Ha. now rewrite Ha.
  - intros Ha. destruct (existsb _ _); [|reflexivity]. exfalso. now apply Ha, He.
Qed.

Lemma direct_chapter_is_ungated_witness :
  let w := mkWorld true
             (mkStore [] []
                [mkChapter (JStr "one-piece") (JStr "1") (JStr "Romance Dawn") None JUndefined])
             [] [] in
  fst (chapter_gate_query "one-piece" "1" (UserString "guest_1") 10 [] w)
  = mkResponse 402 (Error "Chapter locked. Please watch an ad to unlock.")
  /\ fst (direct_chapter "one-piece" "1" [] w)
     = mkResponse 200 (ChapterPayload (JStr "Romance Dawn") [] JNull).
Proof.
  intros w.
  destruct (direct_chapter_is_ungated w "one-piece" "1" (Some "guest_1") 10 [])
    as (_ & _ & Hs & _ & Hl); [reflexivity | reflexivity |].
  split.
  - apply Hl. intros (d & [] & _).
  - destruct Hs as [(before & c & after & Hch & _ & Hb & Hr) | (Hnone & _)].
    + destruct before as [|x before].
      * injection Hch as <- _. exact Hr.
      * exfalso. injection Hch as <- Hch. destruct before; discriminate Hch.
    + exfalso. apply (Hnone _ (or_introl eq_refl)). split; reflexivity.
Defined.

(** ** Grants and the user records *)

Lemma update_first_ids (p : user -> bool) (t : Z) (l l' : list user) :
  update_first p (fun x => mkUser (id x) t) l = Some l' -> map id l' = map id l.
Proof.
  revert l'. induction l as [|d r IH]; simpl; intros l' H; [discriminate|].
  destruct (p d).
  - injection H as <-. reflexivity.
  - destruct (update_first p _ r) as [r'|]; [|discriminate].
    injection H as <-. simpl. f_equal. now apply IH.
Qed.

Lemma touch_user_ids (u : jsval) (t : Z) (l : list user) :
  map id (touch_user u t l) = map id l.
Proof.
  unfold touch_user.
  destruct (update_first _ _ l) as [l'|] eqn:H; [|reflexivity].
  now apply update_first_ids in H.
Qed.

Lemma touch_user_absent (u : jsval) (t : Z) (l : list user) :
  ~ In (to_bson u) (map id l) -> touch_user u t l = l.
Proof.
  intros Hn. unfold touch_user.
  assert (H : update_first (fun x => eq_field u (id x)) (fun x => mkUser (id x) t) l = None).
  { apply update_first_none. intros x Hx. unfold eq_field.
    destruct (jsval_eqb (to_bson u) (id x)) eqn:He; [|reflexivity].
    apply jsval_eqb_eq in He. exfalso. apply Hn. rewrite He. now apply in_map. }
  now rewrite H.
Qed.

Lemma touch_user_present (u : jsval) (t : Z) (l : list user) :
  NoDup (map id l) -> In (to_bson u) (map id l) ->
  forall y, In y (touch_user u t l)
            <-> (In y l /\ id y <> to_bson u) \/ y = mkUser (to_bson u) t.
Proof.
  unfold touch_user. induction l as [|d r IH]; simpl; intros Hnd Hin y; [destruct Hin|].
  inversion Hnd as [|? ? Hd Hr]; subst. unfold eq_field at 1.
  destruct (jsval_eqb (to_bson u) (id d)) eqn:He.
  - apply jsval_eqb_eq in He. simpl. rewrite <- He. split.
    + intros [<- | Hy]; [now right|]. left. split; [now right|].
      intros Hid. apply Hd. rewrite <- He, <- Hid. now apply in_map.
    + intros [[[<- | Hy] Hne] | ->]; [now elim Hne | now right | now left].
  - assert (Hne : id d <> to_bson u).
    { intros Heq. rewrite Heq, jsval_eqb_refl in He. discriminate. }
    destruct Hin as [Heq | Hin]; [now elim Hne|].
    specialize (IH Hr Hin y).
    destruct (update_first _ _ r) as [r'|] eqn:Hup.
    + simpl. rewrite IH. split.
      * intros [<- | [[Hy Hn] | ->]]; [left; split; auto | left; split; auto | now right].
      * intros [[[<- | Hy] Hn] | ->]; [now left | right; left; now split | right; now right].
    + exfalso. apply in_map_iff in Hin. destruct Hin as (x & Hx & Hxin).
      apply update_first_none with (x := x) in Hup; [|assumption].
      unfold eq_field in Hup. rewrite <- Hx, jsval_eqb_refl in Hup. discriminate.
Qed.

Lemma grant_body_users (u c ch : jsval) (t e t2 : Z) (r : response)
  (fs : list bool) (s : store) :
  quiet fs ->
  users (snd ((_ <- locks_upsert u c ch t e ;; _ <- users_touch u t2 ;; ret r) fs s))
  = touch_user u t2 (users s).
Proof.
  intros Hq. unfold bind, locks_upsert, users_touch, ret.
  rewrite call_ok by now apply quiet_first. cbn [fst snd].
  rewrite call_ok by now apply quiet_first, quiet_tl. reflexivity.
Qed.

(** POST /api/unlock-chapter and POST /ads-complete never create or
    delete a user record, whatever the request and the faults.  When the
    request goes through: with no record for the userId the users are left
    as they are and the grant still succeeds; with one, that record gets
    [last_seen] set to the handler's last clock reading and the other
    records are untouched. *)
Theorem grants_and_users
  (w : world) (b : unlock_body) (t0 t1 t2 : Z) (fs : list bool) :
  forall w', w' = snd (unlock_chapter b t0 t1 t2 fs w)
             \/ w' = snd (ads_complete b t0 t1 t2 fs w) ->
  map id (users (db w')) = map id (users (db w))
  /\ (connected w = true -> valid_body b -> quiet fs ->
      (~ In (body_userId b) (map id (users (db w))) ->
       users (db w') = users (db w)
       /\ status (fst (unlock_chapter b t0 t1 t2 fs w)) = 200
       /\ status (fst (ads_complete b t0 t1 t2 fs w)) = 200)
      /\ (NoDup (map id (users (db w))) -> In (body_userId b) (map id (users (db w))) ->
          forall y, In y (users (db w'))
                    <-> (In y (users (db w)) /\ id y <> body_userId b)
                        \/ y = mkUser (body_userId b) t2)).
Proof.
  intros w' Hw'. split.
  - destruct Hw' as [-> | ->].
    + unfold unlock_chapter. destruct (connected w); simpl negb; cbv iota; [|reflexivity].
      apply (preserves_try_catch (fun s => map id (users s) = map id (users (db w))));
        [|reflexivity].
      destruct (negb _ || negb _ || negb _); [apply preserves_ret|].
      apply preserves_bind; [apply preserves_call; intros s Hs; exact Hs|].
      intros _. apply preserves_bind; [|intros _; apply preserves_ret].
      apply preserves_call. intros s Hs. simpl. now rewrite touch_user_ids.
    + unfold ads_complete. destruct (connected w); simpl negb; cbv iota; [|reflexivity].
      apply (preserves_try_catch (fun s => map id (users s) = map id (users (db w))));
        [|reflexivity].
      destruct (negb _ || negb _ || negb _); [apply preserves_ret|].
      apply preserves_bind; [apply preserves_call; intros s Hs; exact Hs|].
      intros _. apply preserves_bind; [|intros _; apply preserves_ret].
      apply preserves_call. intros s Hs. simpl. now rewrite touch_user_ids.
  - intros Hc Hv Hq.
    assert (Hb : to_bson (body_userId b) = body_userId b)
      by (apply to_bson_truthy; apply Hv).
    assert (Hus : users (db w') = touch_user (body_userId b) t2 (users (db w))).
    { destruct Hw' as [-> | ->].
      - unfold unlock_chapter. rewrite Hc, (valid_body_guard b Hv). simpl negb. cbv iota.
        rewrite try_catch_db. now apply grant_body_users.
      - unfold ads_complete. rewrite Hc, (valid_body_guard b Hv). simpl negb. cbv iota.
        rewrite try_catch_db. now apply grant_body_users. }
    rewrite Hus. split.
    + intros Hn. split; [apply touch_user_absent; now rewrite Hb|].
      rewrite unlock_chapter_response, ads_complete_response by assumption.
      split; reflexivity.
    + intros Hnd Hin y. rewrite <- Hb at 2 3. apply touch_user_present; [assumption|].
      now rewrite Hb.
Qed.

Lemma grants_and_users_witness :
  let w := mkWorld true
             (mkStore [] [mkUser (JStr "guest_1") 0; mkUser (JStr "guest_2") 0] []) [] [] in
  let b := mkBody (JStr "guest_2") (JStr "42") (JStr "3") in
  In (mkUser (JStr "guest_2") 7) (users (db (snd (unlock_chapter b 5 6 7 [] w))))
  /\ In (mkUser (JStr "guest_1") 0) (users (db (snd (unlock_chapter b 5 6 7 [] w)))).
Proof.
  intros w b.
  destruct (grants_and_users w b 5 6 7 [] (snd (unlock_chapter b 5 6 7 [] w)))
    as (_ & H); [now left|].
  destruct H as (_ & H); [reflexivity | repeat split; reflexivity | reflexivity |].
  assert (Hnd : NoDup (map id (users (db w)))).
  { repeat constructor; simpl; intuition discriminate. }
  assert (Hin : In (body_userId b) (map id (users (db w)))) by (right; left; reflexivity).
  split; apply (H Hnd Hin).
  - right. reflexivity.
  - left. split; [left; reflexivity | discriminate].
Defined.

(** ** Listing a user's leases *)

Lemma user_locks_ok (u : string) (now : Z) (fs : list bool) (w : world) :
  connected w = true -> first_ok fs ->
  user_locks u now fs w
  = (mkResponse 200
       (Locks (filter (fun d => eq_field (JStr u) (userId d) && expires_gt now d)
                 (chapter_locks (db w)))), w).
Proof.
  intros Hc Hf. unfold user_locks, try_catch, bind, locks_find, ret.
  rewrite Hc. simpl negb. cbv iota. rewrite call_ok by assumption. cbn [fst snd].
  now rewrite set_db_same.
Qed.

(** GET /api/user-locks/:userId, on any store and with no fault on its
    call, lists in store order exactly the leases whose userId is the
    path string and that have not expired at the time of the call, and
    changes nothing.  After a completed POST /api/unlock-chapter whose
    userId [u] and chapterId are strings, the list for [u] holds the
    granted lease at every time before its [expiresAt] and no lease of
    that triple from then on.  A lease granted for a userId sent as a
    JSON number is in nobody's list: every listed lease carries the path
    string. *)
Theorem user_locks_lists_active (w : world) (u : string) (now : Z) (fs' : list bool) :
  connected w = true -> first_ok fs' ->
  exists listed,
    user_locks u now fs' w = (mkResponse 200 (Locks listed), w)
    /\ listed = filter (fun d => jsval_eqb (JStr u) (userId d) && (now <? expiresAt d))
                  (chapter_locks (db w))
    /\ (forall d, In d listed
                  <-> In d (chapter_locks (db w)) /\ userId d = JStr u /\ now < expiresAt d)
    /\ (forall (ch : string) (c : jsval) (t0 t1 t2 : Z) (fs : list bool),
          unique_locks (chapter_locks (db w)) ->
          u <> "" -> ch <> "" -> truthy c = true -> quiet fs ->
          let w' := snd (unlock_chapter (mkBody (JStr u) c (JStr ch)) t0 t1 t2 fs w) in
          exists listed',
            fst (user_locks u now fs' w') = mkResponse 200 (Locks listed')
            /\ (now < t0 + 600000 ->
                In (mkLock (JStr u) (parseInt c) (JStr ch) t1 (t0 + 600000)) listed')
            /\ (t0 + 600000 <= now ->
                forall d, In d listed' -> lock_key d <> (JStr u, parseInt c, JStr ch)))
    /\ (forall (n : number) (c ch : jsval) (t0 t1 t2 : Z) (fs : list bool),
          let w' := snd (unlock_chapter (mkBody (JNum n) c ch) t0 t1 t2 fs w) in
          forall v now' fs'' listed',
            fst (user_locks v now' fs'' w') = mkResponse 200 (Locks listed') ->
            forall d, In d listed' -> userId d <> JNum n).
Proof.
  intros Hc Hf'.
  assert (Hiff : forall (v : string) (t : Z) (x : world) (d : lock),
            In d (filter (fun d0 => eq_field (JStr v) (userId d0) && expires_gt t d0)
                    (chapter_locks (db x)))
            <-> In d (chapter_locks (db x)) /\ userId d = JStr v /\ t < expiresAt d).
  { intros v t x d. rewrite filter_In, andb_true_iff. unfold eq_field, expires_gt.
    rewrite jsval_eqb_eq, Z.ltb_lt. cbn [to_bson]. intuition congruence. }
  eexists. rewrite user_locks_ok by assumption.
  split; [reflexivity|]. split; [reflexivity|]. split; [apply Hiff|]. split.
  - intros ch c t0 t1 t2 fs Hu Hne Hch Htc Hq w'.
    set (granted := mkLock (JStr u) (parseInt c) (JStr ch) t1 (t0 + 600000)).
    assert (Hv : valid_body (mkBody (JStr u) c (JStr ch))).
    { repeat split; cbn [body_userId body_contentId body_chapterId];
        auto using truthy_str. }
    assert (Hc' : connected w' = true).
    { subst w'. now rewrite unlock_chapter_connected. }
    assert (Hl : leases_of (JStr u, parseInt c, JStr ch) (chapter_locks (db w'))
                 = [granted]).
    { subst w'. rewrite unlock_chapter_locks by auto using quiet_first.
      apply (upsert_lock_leases (JStr u) (parseInt c) (JStr ch)). assumption. }
    assert (Hone : forall d, In d (chapter_locks (db w')) ->
                     lock_key d = (JStr u, parseInt c, JStr ch) -> d = granted).
    { intros d Hin Hk.
      assert (Hd : In d (leases_of (JStr u, parseInt c, JStr ch) (chapter_locks (db w')))).
      { apply filter_In. split; [assumption | now apply has_key_iff]. }
      rewrite Hl in Hd. destruct Hd as [<- | []]. reflexivity. }
    eexists. rewrite user_locks_ok by assumption. cbn [fst]. split; [reflexivity|]. split.
    + intros Hnow. apply Hiff. split; [|split; [reflexivity | exact Hnow]].
      assert (Hd : In granted (leases_of (JStr u, parseInt c, JStr ch)
                                 (chapter_locks (db w')))) by (rewrite Hl; now left).
      apply filter_In in Hd. tauto.
    + intros Hnow d Hd Hk. apply Hiff in Hd. destruct Hd as (Hin & _ & Hgt).
      rewrite (Hone d Hin Hk) in Hgt. simpl in Hgt. lia.
  - intros n c ch t0 t1 t2 fs w' v now' fs'' listed' Hr d Hd Hn.
    assert (Hc' : connected w' = true).
    { subst w'. now rewrite unlock_chapter_connected. }
    unfold user_locks, try_catch, bind, locks_find, call, ret in Hr. rewrite Hc' in Hr.
    destruct fs'' as [|[|] rest]; cbn [negb fst snd] in Hr; try discriminate Hr;
      injection Hr as <-; apply Hiff in Hd; destruct Hd as (_ & Hu & _); congruence.
Qed.

Lemma user_locks_lists_active_witness :
  let w := mkWorld true (mkStore [] [] []) [] [] in
  let w' := snd (unlock_chapter (mkBody (JStr "guest_1") (JStr "42") (JStr "3")) 0 0 0 [] w) in
  let n := snd (unlock_chapter (mkBody (JNum (Num 7)) (JStr "42") (JStr "3")) 0 0 0 [] w) in
  fst (user_locks "guest_1" 599999 [] w) = mkResponse 200 (Locks [])
  /\ (exists listed,
        fst (user_locks "guest_1" 599999 [] w') = mkResponse 200 (Locks listed)
        /\ In (mkLock (JStr "guest_1") (JNum (Num 42)) (JStr "3") 0 600000) listed)
  /\ chapter_locks (db n) = [mkLock (JNum (Num 7)) (JNum (Num 42)) (JStr "3") 0 600000]
  /\ fst (user_locks "7" 1 [] n) = mkResponse 200 (Locks []).
Proof.
  intros w w' n.
  destruct (user_locks_lists_active w "guest_1" 599999 [])
    as (listed & Hr & Hl & _ & Hg & _); [reflexivity | reflexivity |].
  split; [rewrite Hr, Hl; reflexivity|]. split.
  - destruct (Hg "3" (JStr "42") 0 0 0 [])
      as (listed' & Hr' & Hin & _);
      [constructor | discriminate | discriminate | reflexivity | reflexivity |].
    exists listed'. split; [exact Hr' | apply Hin; lia].
  - split; reflexivity.
Defined.

(** ** Timers that fail, timers that survive a reset *)

(** A timer callback whose upsert throws grants nothing: the store stays
    as it was, the error is logged, and the timer is gone all the same,
    so the delayed grant is never retried. *)
Theorem failed_timer_is_lost
  (w : world) (b : unlock_body) (now t0 t1 : Z) (rest : list bool) :
  connected w = true -> now + 40000 <= t0 ->
  let s := snd (start_chapter_timer b now w) in
  let k := List.length (timers w) in
  exists w2,
    fire_timer k t0 t1 (true :: rest) s = Some w2
    /\ db w2 = db w
    /\ timers w2 = timers w
    /\ console w2 = console w ++ [LogError "Error auto-unlocking chapter:"]
    /\ forall t0' t1' fs, fire_timer k t0' t1' fs w2 = None.
Proof.
  intros Hc Hdue s k. subst s k. unfold start_chapter_timer. rewrite Hc.
  cbn [negb snd]. unfold fire_timer. cbn [timers connected db console].
  rewrite nth_error_snoc, remove_nth_snoc. unfold timer_ms.
  eexists. split; [reflexivity|].
  unfold timer_callback, locks_upsert. rewrite call_fault.
  cbn [db timers console log set_db]. repeat split.
  intros t0' t1' fs.
  assert (Hn : nth_error (timers w) (List.length (timers w)) = None)
    by (apply nth_error_None; lia).
  now rewrite Hn.
Qed.

Lemma failed_timer_is_lost_witness :
  let w := mkWorld true (mkStore [] [] []) [] [] in
  let s := snd (start_chapter_timer (mkBody (JStr "u") (JStr "1") (JStr "1")) 0 w) in
  exists w2, fire_timer 0 40000 40000 [true] s = Some w2 /\ chapter_locks (db w2) = [].
Proof.
  intros w s.
  destruct (failed_timer_is_lost w (mkBody (JStr "u") (JStr "1") (JStr "1")) 0 40000 40000 [])
    as (w2 & Hf & Hdb & _); [reflexivity | lia |].
  exists w2. split; [exact Hf | now rewrite Hdb].
Defined.




(** * Starting the server *)

Lemma connect_loop_connects (left : nat) (st : startup) :
  (leading_throws (pending st) < left)%nat ->
  let k := leading_throws (pending st) in
  let st' := connect_loop left st in
  db_set st' = true
  /\ attempts st' = (attempts st + k)%nat
  /\ slept st' = slept st + 5000 * Z.of_nat k
  /\ pending st' = skipn (S k) (pending st).
Proof.
  revert st. induction left as [|left IH]; intros st Hk; [inversion Hk|].
  destruct st as [d a sl p ls]. cbn [pending attempts slept] in *.
  destruct p as [|[|ok] r]; cbn [leading_throws] in *.
  - simpl. repeat split; try lia; auto.
  - cbn [connect_loop connectToDatabase hd tl pending attempts slept lines].
    specialize (IH (mkStartup false (S a) (sl + 5000) r
                      (ls ++ [BootLog "🔗 Connecting to MongoDB...";
                              BootError "❌ MongoDB connection error:"]
                          ++ [BootRetrying (S a) maxAttempts]))).
    cbn [pending attempts slept] in IH.
    destruct IH as (H1 & H2 & H3 & H4); [lia|].
    repeat split; try assumption; try lia.
  - simpl. repeat split; try lia; auto.
Qed.

Lemma connect_loop_gives_up (left : nat) (st : startup) :
  db_set st = false ->
  (left <= leading_throws (pending st))%nat ->
  let st' := connect_loop left st in
  db_set st' = false
  /\ attempts st' = (attempts st + left)%nat
  /\ slept st' = slept st + 5000 * Z.of_nat left
  /\ pending st' = skipn left (pending st).
Proof.
  revert st. induction left as [|left IH]; intros st Hd Hk.
  - simpl. repeat split; try lia; auto.
  - destruct st as [d a sl p ls]. cbn [pending attempts slept db_set] in *.
    destruct p as [|[|ok] r]; cbn [leading_throws] in Hk; try lia.
    cbn [connect_loop connectToDatabase hd tl pending attempts slept lines].
    specialize (IH (mkStartup false (S a) (sl + 5000) r
                      (ls ++ [BootLog "🔗 Connecting to MongoDB...";
                              BootError "❌ MongoDB connection error:"]
                          ++ [BootRetrying (S a) maxAttempts]))).
    cbn [pending attempts slept db_set] in IH.
    destruct IH as (H1 & H2 & H3 & H4); [reflexivity | lia |].
    repeat split; try assumption; try lia.
Qed.

(** [startServer] tries to connect at most five times and stops at the
    first attempt that succeeds.  If one of the first five succeeds, it
    listens with [db] set, after as many 5000 ms waits as attempts
    failed; if the first five all fail, it never listens: it exits with
    code 1 after five attempts and 25000 ms of waiting, [db] unset, and
    no later outcome is consulted. *)
Theorem startServer_retries (outcomes : list connection) :
  let k := leading_throws outcomes in
  ((k < 5)%nat ->
     exists st, startServer outcomes = Listening st
                /\ db_set st = true /\ attempts st = k
                /\ slept st = 5000 * Z.of_nat k
                /\ pending st = skipn (S k) outcomes)
  /\ ((5 <= k)%nat ->
        exists st, startServer outcomes = Exited 1 st
                   /\ db_set st = false /\ attempts st = 5%nat
                   /\ slept st = 25000
                   /\ pending st = skipn 5 outcomes).
Proof.
  intros k. unfold startServer.
  set (st0 := mkStartup false 0 0 outcomes [BootLog "🚀 Starting Rovel server..."]).
  split; intros Hk.
  - destruct (connect_loop_connects maxAttempts st0) as (H1 & H2 & H3 & H4);
      [exact Hk|].
    rewrite H1. cbn [negb]. eexists. split; [reflexivity|]. auto.
  - destruct (connect_loop_gives_up maxAttempts st0) as (H1 & H2 & H3 & H4);
      [reflexivity | exact Hk |].
    rewrite H1. cbn [negb]. eexists. split; [reflexivity|].
    cbn [db_set attempts slept pending]. auto.
Qed.

Lemma startServer_retries_witness :
  exists st,
    startServer [ConnectThrows; ConnectThrows; ConnectOk false; ConnectThrows] = Listening st
    /\ attempts st = 2%nat /\ slept st = 10000 /\ pending st = [ConnectThrows].
Proof.
  destruct (startServer_retries [ConnectThrows; ConnectThrows; ConnectOk false; ConnectThrows])
    as [H _].
  destruct H as (st & Hs & _ & Ha & Hsl & Hp); [simpl; lia|].
  exists st. auto.
Defined.

(** * Users *)

Lemma call_st_ok {S A} (op : S -> option (A * S)) (fs : list bool) (s : S) :
  first_ok fs ->
  call_st op fs s
  = match op s with
    | Some (a, s') => (Returned a, tl fs, s')
    | None => (Thrown, tl fs, s)
    end.
Proof.
  unfold first_ok, call_st. destruct fs as [|[|] r]; simpl; intros H;
    try discriminate; reflexivity.
Qed.

Lemma delete_first_none {A} (p : A -> bool) (l : list A) :
  delete_first p l = None <-> forall x, In x l -> p x = false.
Proof.
  induction l as [|d r IH]; simpl.
  - split; [intros _ x [] | reflexivity].
  - destruct (p d) eqn:Hp.
    + split; [discriminate|]. intros H. rewrite (H d) in Hp; [discriminate | now left].
    + destruct (delete_first p r) as [r'|] eqn:Hr.
      * split; [discriminate|]. intros H.
        assert (Hn : Some r' = None) by (apply IH; intros x Hx; apply H; now right).
        discriminate.
      * split; [|reflexivity]. intros _ x [<-|Hx]; [assumption|]. now apply IH.
Qed.

(** The first match goes and nothing else. *)
Lemma delete_first_some {A} (p : A -> bool) (l l' : list A) :
  delete_first p l = Some l' ->
  exists l1 x l2, l = l1 ++ x :: l2 /\ l' = l1 ++ l2 /\ p x = true
                  /\ forall y, In y l1 -> p y = false.
Proof.
  revert l'. induction l as [|d r IH]; simpl; intros l' H; [discriminate|].
  destruct (p d) eqn:Hp.
  - injection H as <-. exists [], d, r. repeat split; auto. intros y [].
  - destruct (delete_first p r) as [r'|]; [|discriminate]. injection H as <-.
    destruct (IH r' eq_refl) as (l1 & x & l2 & -> & -> & Hx & Hl1).
    exists (d :: l1), x, l2. repeat split; auto.
    intros y [<- | Hy]; auto.
Qed.

(** POST /api/guest-user adds one record whose id is
    "guest_" + clock + "_" + random suffix and answers with it, unless
    the unique index on [users.id] exists and a record with that id is
    stored already: then the store refuses the insert and the answer is
    500 with the users unchanged.  Where the index does not exist (its
    creation failed at start-up, which the server logs and survives) the
    record is added all the same, so two records then share an id.  With
    the index, ids that are pairwise distinct stay so; no lease is
    touched either way. *)
Theorem guest_user_creates
  (s : store) (indexed : bool) (now : Z) (rand : string) (created seen : Z)
  (fs : list bool) :
  first_ok fs ->
  let gid := JStr ("guest_" ++ to_string (JNum (Num now)) ++ "_" ++ rand) in
  (indexed = false \/ ~ In gid (map id (users s)) ->
     guest_user indexed now rand created seen true fs s
     = (mkReply 200 (ReplyGuest gid "guest" created seen),
        set_users s (users s ++ [mkUser gid seen]), []))
  /\ (indexed = true -> NoDup (map id (users s)) -> In gid (map id (users s)) ->
        guest_user indexed now rand created seen true fs s
        = (mkReply 500 (ReplyError "Failed to create guest user"), s,
           [LogError "Error creating guest user:"]))
  /\ (indexed = true -> NoDup (map id (users s)) ->
        NoDup (map id (users (snd (fst (guest_user indexed now rand created seen
                                          true fs s))))))
  /\ (indexed = false -> In gid (map id (users s)) ->
        ~ NoDup (map id (users (snd (fst (guest_user indexed now rand created seen
                                            true fs s))))))
  /\ chapter_locks (snd (fst (guest_user indexed now rand created seen true fs s)))
     = chapter_locks s.
Proof.
  intros Hf gid.
  assert (Hex : existsb (fun x => eq_field gid (to_bson (id x))) (users s) = true
                <-> In gid (map id (users s))).
  { rewrite existsb_exists, in_map_iff. unfold eq_field. split.
    - intros (x & Hx & He). apply jsval_eqb_eq in He. exists x. split; [|assumption].
      destruct (id x); simpl in He; try discriminate He; congruence.
    - intros (x & Hx & Hin). exists x. split; [assumption|]. rewrite Hx.
      apply jsval_eqb_refl. }
  unfold guest_user, attempt, bind_st, unit_st. cbn [negb].
  rewrite call_st_ok by assumption. fold gid.
  destruct indexed; cbn [andb].
  - destruct (existsb _ (users s)) eqn:He.
    + assert (Hin : In gid (map id (users s))) by now apply Hex.
      repeat split; try reflexivity; try discriminate; try (intros; assumption).
      intros [Hi | Hn]; [discriminate Hi | now elim Hn].
    + assert (Hn : ~ In gid (map id (users s))).
      { intros Hin. apply Hex in Hin. discriminate. }
      repeat split; try reflexivity; try discriminate;
        try (intros _ _ Hin; now elim Hn).
      intros _ Hnd. cbn [fst snd users set_users]. rewrite map_app. simpl.
      now apply NoDup_snoc.
  - repeat split; try reflexivity; try discriminate.
    intros _ Hin Hnd. cbn [fst snd users set_users] in Hnd. rewrite map_app in Hnd.
    apply NoDup_remove_2 in Hnd. apply Hnd. now rewrite app_nil_r.
Qed.

Lemma guest_user_creates_witness :
  let s := mkStore [] [mkUser (JStr "guest_5_abc") 0] [] in
  fst (fst (guest_user true 5 "abc" 6 7 true [] s))
  = mkReply 500 (ReplyError "Failed to create guest user")
  /\ users (snd (fst (guest_user true 6 "abc" 6 7 true [] s)))
     = [mkUser (JStr "guest_5_abc") 0; mkUser (JStr "guest_6_abc") 7]
  /\ users (snd (fst (guest_user false 5 "abc" 6 7 true [] s)))
     = [mkUser (JStr "guest_5_abc") 0; mkUser (JStr "guest_5_abc") 7].
Proof.
  intros s. split; [|split].
  - destruct (guest_user_creates s true 5 "abc" 6 7 []) as (_ & H & _); [reflexivity|].
    rewrite H; [reflexivity | reflexivity | | now left].
    repeat constructor. intros [].
  - destruct (guest_user_creates s true 6 "abc" 6 7 []) as (H & _); [reflexivity|].
    rewrite H; [reflexivity|]. right. intros [H1 | []]. discriminate H1.
  - destruct (guest_user_creates s false 5 "abc" 6 7 []) as (H & _); [reflexivity|].
    rewrite H; [reflexivity | now left].
Defined.

Lemma delete_user_store (uid : string) (conn : bool) (fs : list bool) (s : store) :
  chapter_locks (snd (fst (delete_user uid conn fs s))) = chapter_locks s
  /\ chapters (snd (fst (delete_user uid conn fs s))) = chapters s.
Proof.
  unfold delete_user, attempt, bind_st, unit_st, call_st.
  destruct conn; [|split; reflexivity]. cbn [negb].
  destruct fs as [|[|] r]; cbn [tl]; try (split; reflexivity);
    destruct (delete_first _ (users s)); split; reflexivity.
Qed.

(** DELETE /api/users/:id answers 404 and changes nothing when no record
    has that id; otherwise it removes the record and nothing else.  It
    never touches a lease: whatever it does, every later GET
    /api/check-unlock answers as before, so the leases of a deleted user
    stay active until they expire. *)
Theorem delete_user_leaves_leases (w : world) (uid : string) (fs : list bool) :
  let r := in_world (delete_user uid) fs w in
  chapter_locks (db (snd r)) = chapter_locks (db w)
  /\ (forall u c ch now fs',
        fst (check_unlock u c ch now fs' (snd r)) = fst (check_unlock u c ch now fs' w))
  /\ (connected w = true -> first_ok fs ->
      (~ In (JStr uid) (map id (users (db w))) ->
       fst r = mkReply 404 (ReplyError "User not found") /\ db (snd r) = db w)
      /\ (In (JStr uid) (map id (users (db w))) ->
          fst r = mkReply 200 (ReplySuccess "User deleted successfully")
          /\ S (List.length (users (db (snd r)))) = List.length (users (db w))
          /\ (forall y, id y <> JStr uid ->
                (In y (users (db (snd r))) <-> In y (users (db w))))
          /\ (NoDup (map id (users (db w))) ->
              ~ In (JStr uid) (map id (users (db (snd r))))))).
Proof.
  intros r. subst r. unfold in_world.
  pose proof (delete_user_store uid (connected w) fs (db w)) as [Hl Hch].
  destruct (delete_user uid (connected w) fs (db w)) as [[r s'] ls] eqn:Hd.
  cbn [fst snd db connected] in *.
  split; [exact Hl|]. split.
  { intros u c ch now fs'. apply check_unlock_depends; [reflexivity|].
    cbn [db]. now rewrite Hl. }
  intros Hc Hf. rewrite Hc in Hd.
  unfold delete_user, attempt, bind_st, unit_st in Hd. cbn [negb] in Hd.
  rewrite call_st_ok in Hd by assumption.
  destruct (delete_first (fun x => eq_field (JStr uid) (id x)) (users (db w)))
    as [l'|] eqn:Hdel; cbn [Nat.eqb] in Hd; injection Hd as <- <- <-.
  - apply delete_first_some in Hdel.
    destruct Hdel as (l1 & x & l2 & Hw & -> & Hx & Hl1).
    unfold eq_field in Hx. apply jsval_eqb_eq in Hx. cbn [to_bson] in Hx.
    split.
    + intros Hn. exfalso. apply Hn. rewrite Hw, map_app, in_app_iff. right. left.
      now symmetry.
    + intros _. split; [reflexivity|]. cbn [users set_users]. rewrite Hw.
      split; [rewrite !length_app; simpl; lia|]. split.
      * intros y Hy. rewrite !in_app_iff. simpl. split; [tauto|].
        intros [H1 | [<- | H2]]; [tauto | | tauto]. now elim Hy.
      * rewrite !map_app. simpl. intros Hnd Hin.
        apply NoDup_remove_2 in Hnd. apply Hnd. now rewrite <- Hx.
  - split.
    + intros _. split; [reflexivity|]. now destruct w.
    + intros Hin. exfalso. apply in_map_iff in Hin. destruct Hin as (x & Hx & Hin).
      apply (proj1 (delete_first_none _ _)) with (x := x) in Hdel; [|assumption].
      unfold eq_field in Hdel. cbn [to_bson] in Hdel.
      rewrite Hx, jsval_eqb_refl in Hdel. discriminate.
Qed.

Lemma delete_user_leaves_leases_witness :
  let w := mkWorld true
             (mkStore [mkLock (JStr "guest_1") (JNum (Num 42)) (JStr "3") 0 600000]
                [mkUser (JStr "guest_1") 0] [])
             [] [] in
  let r := in_world (delete_user "guest_1") [] w in
  fst r = mkReply 200 (ReplySuccess "User deleted successfully")
  /\ fst (check_unlock "guest_1" "42" "3" 10 [] (snd r)) = mkResponse 200 (Unlocked true).
Proof.
  intros w r.
  destruct (delete_user_leaves_leases w "guest_1" []) as (_ & Hchk & H).
  destruct H as (_ & H); [reflexivity | reflexivity |].
  destruct H as (Hr & _); [now left|].
  fold r in Hr, Hchk. split; [exact Hr|]. now rewrite Hchk.
Defined.

(** * The catalogue *)

(** ** Content ids *)

(** Up to 2^53 in magnitude every integer is a double. *)
Lemma round_double_exact (z : Z) : Z.abs z <= 2 ^ 53 -> round_double z = Num z.
Proof.
  intros H. change (2 ^ 53) with 9007199254740992 in H.
  destruct (Z.eq_dec (Z.abs z) 9007199254740992) as [He | Hne].
  - destruct (Z.abs_eq_or_opp z) as [Hz | Hz]; rewrite Hz in He.
    + subst z. reflexivity.
    + assert (z = -9007199254740992) by lia. subst z. reflexivity.
  - unfold round_double.
    assert (Hl : Z.log2 (Z.abs z) - 52 <= 0).
    { destruct (Z.eq_dec (Z.abs z) 0) as [H0 | H0]; [rewrite H0; simpl; lia|].
      assert (Z.log2 (Z.abs z) < 53); [|lia].
      apply Z.log2_lt_pow2; [lia|]. change (2 ^ 53) with 9007199254740992. lia. }
    apply Z.leb_le in Hl. now rewrite Hl.
Qed.

(** From 2^53 the next integer is no double: the sum falls back. *)
Lemma round_double_next (z : Z) :
  1 <= z <= 2 ^ 53 -> exists y, round_double (z + 1) = Num y /\ 1 <= y <= 2 ^ 53.
Proof.
  intros H. change (2 ^ 53) with 9007199254740992 in *.
  destruct (Z.eq_dec z 9007199254740992) as [-> | Hne].
  - exists 9007199254740992. split; [reflexivity | lia].
  - exists (z + 1). split; [|lia]. apply round_double_exact.
    change (2 ^ 53) with 9007199254740992. lia.
Qed.

Lemma last_by_id_integers (l : list content_doc) :
  integer_ids l ->
  match last_by_id l with
  | None => l = []
  | Some m => In m l /\ exists z, content_id m = JNum (Num z) /\ ids_below (z + 1) l
  end.
Proof.
  induction l as [|d r IH]; intros Hi; [reflexivity|]. cbn [last_by_id].
  assert (Hr : integer_ids r) by (intros x Hx; apply Hi; now right).
  specialize (IH Hr). destruct (Hi d (or_introl eq_refl)) as [zd Hd].
  destruct (last_by_id r) as [m|].
  - destruct IH as (Hm & z & Hz & Hb). rewrite Hz, Hd. cbn [bson_leb].
    destruct (z <=? zd) eqn:Hle.
    + apply Z.leb_le in Hle. split; [now left|]. exists zd. split; [assumption|].
      intros x y [<- | Hx] Hy; [rewrite Hd in Hy; injection Hy as <-; lia|].
      specialize (Hb x y Hx Hy). lia.
    + apply Z.leb_gt in Hle. split; [now right|]. exists z. split; [assumption|].
      intros x y [<- | Hx] Hy; [rewrite Hd in Hy; injection Hy as <-; lia|].
      now apply (Hb x y).
  - subst r. split; [now left|]. exists zd. split; [assumption|].
    intros x y [<- | []] Hy. rewrite Hd in Hy. injection Hy as <-. lia.
Qed.

Lemma fresh_id_absent (z : Z) (l : list content_doc) :
  integer_ids l -> ids_below z l ->
  existsb (fun d => eq_stored (JNum (Num z)) (content_id d)) l = false.
Proof.
  intros Hi Hb. destruct (existsb _ l) eqn:He; [|reflexivity].
  apply existsb_exists in He. destruct He as (d & Hd & He).
  destruct (Hi d Hd) as [y Hy]. unfold eq_stored in He. rewrite Hy in He.
  simpl in He. apply Z.eqb_eq in He. subst y. specialize (Hb d z Hd Hy). lia.
Qed.

Lemma find_fresh_last {A} (p : A -> bool) (l : list A) (x : A) :
  (forall d, In d l -> p d = false) -> p x = true -> findOne p (l ++ [x]) = Some x.
Proof.
  intros Hl Hx. unfold findOne. induction l as [|d r IH]; simpl.
  - now rewrite Hx.
  - rewrite (Hl d (or_introl eq_refl)). apply IH. intros y Hy. apply Hl. now right.
Qed.

(** POST /api/manga on a collection whose ids are integers of magnitude
    below 2^53, those that [+ 1] is exact on: the new document gets id 1
    when the collection is empty and otherwise the greatest stored id
    plus one, the insert is not refused as a duplicate, the answer is
    the new document with the defaults filled in, and the collection
    grows by that one document.  GET /api/manga/:id with a path that
    [parseInt] reads as the new id then answers with the document as
    stored. *)
Theorem create_manga_fresh_id
  (l : library) (b : manga_body) (created updated : Z) (fs : list bool) :
  quiet fs -> integer_ids (content_docs l) -> safe_ids (content_docs l) ->
  exists z,
    let newContent :=
      mkContent (JNum (Num z)) (manga_title b) (manga_description b)
        (js_or (manga_type b) (JStr "manga")) (manga_cover b)
        (js_or (manga_author b) (JStr "Unknown"))
        (js_or (manga_genres b) (JStr "Action, Adventure"))
        (js_or (manga_status b) (JStr "Ongoing"))
        (js_or (manga_rating b) (JStr "4.5"))
        (js_or (manga_chapters_count b) (JNum (Num 0)))
        created updated in
    let l' := set_content l (content_docs l ++ [bson_content newContent]) in
    create_manga b created updated true fs l = (mkReply 200 (ReplyContent newContent), l', [])
    /\ (content_docs l = [] -> z = 1)
    /\ (content_docs l <> [] ->
        exists d, In d (content_docs l) /\ content_id d = JNum (Num (z - 1)))
    /\ ids_below z (content_docs l)
    /\ integer_ids (content_docs l')
    /\ (forall idp fs', first_ok fs' -> parseInt (JStr idp) = JNum (Num z) ->
          get_manga idp true fs' l'
          = (mkReply 200 (ReplyContent (bson_content newContent)), l', []))
    /\ bson_content newContent
       = mkContent (JNum (Num z)) (to_bson (manga_title b)) (to_bson (manga_description b))
           (if truthy (manga_type b) then manga_type b else JStr "manga")
           (to_bson (manga_cover b))
           (if truthy (manga_author b) then manga_author b else JStr "Unknown")
           (if truthy (manga_genres b) then manga_genres b else JStr "Action, Adventure")
           (if truthy (manga_status b) then manga_status b else JStr "Ongoing")
           (if truthy (manga_rating b) then manga_rating b else JStr "4.5")
           (if truthy (manga_chapters_count b) then manga_chapters_count b else JNum (Num 0))
           created updated.
Proof.
  intros Hq Hi Hsafe. pose proof (last_by_id_integers _ Hi) as Hlast.
  assert (Hz : exists z,
            match last_by_id (content_docs l) with
            | Some d => js_plus_one (content_id d)
            | None => JNum (Num 1)
            end = JNum (Num z)
            /\ (content_docs l = [] -> z = 1)
            /\ (content_docs l <> [] ->
                exists d, In d (content_docs l) /\ content_id d = JNum (Num (z - 1)))
            /\ ids_below z (content_docs l)).
  { destruct (last_by_id (content_docs l)) as [m|].
    - destruct Hlast as (Hm & z & Hz & Hb). exists (z + 1). rewrite Hz.
      split; [|split; [|split; [|assumption]]].
      + cbn [js_plus_one]. rewrite round_double_exact; [reflexivity|].
        specialize (Hsafe m z Hm Hz). lia.
      + intros He. rewrite He in Hm. destruct Hm.
      + intros _. exists m. split; [assumption|]. rewrite Hz. do 2 f_equal. lia.
    - exists 1. split; [reflexivity|]. split; [reflexivity|].
      rewrite Hlast. split; [intros Hn; now elim Hn | intros d y []]. }
  destruct Hz as (z & Hnew & Hempty & Hmax & Hb). exists z. intros newContent l'.
  assert (Hi' : integer_ids (content_docs l')).
  { intros d Hd. subst l'. cbn [content_docs set_content] in Hd.
    apply in_app_iff in Hd. destruct Hd as [Hd | [<- | []]]; [now apply Hi|].
    exists z. reflexivity. }
  split; [|split; [exact Hempty | split; [exact Hmax | split; [exact Hb |
           split; [exact Hi' | split]]]]].
  - unfold create_manga, attempt, bind_st, unit_st. cbn [negb].
    rewrite call_st_ok by now apply quiet_first. rewrite Hnew.
    rewrite call_st_ok by now apply quiet_first, quiet_tl.
    rewrite (fresh_id_absent z _ Hi Hb). reflexivity.
  - intros idp fs' Hf' Hp. unfold get_manga, attempt, bind_st, unit_st. cbn [negb].
    rewrite call_st_ok by assumption. subst l'. cbn [content_docs set_content].
    rewrite find_fresh_last; [reflexivity | |].
    + intros d Hd. unfold content_by_id. rewrite Hp.
      pose proof (fresh_id_absent z _ Hi Hb) as Hf.
      destruct (eq_stored (JNum (Num z)) (content_id d)) eqn:He; [|reflexivity].
      assert (Hex : existsb (fun d0 => eq_stored (JNum (Num z)) (content_id d0))
                      (content_docs l) = true)
        by (apply existsb_exists; exists d; auto).
      rewrite Hex in Hf. discriminate.
    + unfold content_by_id. rewrite Hp. unfold eq_stored. simpl. apply Z.eqb_refl.
  - subst newContent. unfold bson_content, js_or.
    cbn [content_id content_title content_description content_type content_cover
         content_author content_genres content_status content_rating chapters_count
         content_created_at content_updated_at to_bson].
    assert (Hd : forall v d, d <> JUndefined ->
              to_bson (if truthy v then v else d) = if truthy v then v else d).
    { intros v d Hd. destruct (truthy v) eqn:Hv; [now apply to_bson_truthy|].
      now destruct d. }
    now rewrite !Hd by discriminate.
Qed.

Lemma create_manga_fresh_id_witness :
  let l := mkLibrary
             [mkContent (JNum (Num 1)) (JStr "A") JNull (JStr "manga") JNull (JStr "x")
                (JStr "g") (JStr "Ongoing") (JStr "4.5") (JNum (Num 0)) 0 0;
              mkContent (JNum (Num 7)) (JStr "B") JNull (JStr "novel") JNull (JStr "y")
                (JStr "g") (JStr "Ongoing") (JStr "4.5") (JNum (Num 0)) 0 0] [] [] in
  let b := mkMangaBody (JStr "C") JUndefined JUndefined JUndefined JUndefined JUndefined
             JUndefined JUndefined JUndefined in
  exists c, fst (fst (create_manga b 5 6 true [] l)) = mkReply 200 (ReplyContent c)
            /\ content_id c = JNum (Num 8).
Proof.
  intros l b.
  destruct (create_manga_fresh_id l b 5 6 []) as (z & Hc & _ & Hmax & Hb & _).
  - reflexivity.
  - intros d [<- | [<- | []]]; eexists; reflexivity.
  - intros d y [<- | [<- | []]] Hy; injection Hy as <-; split;
      [now vm_compute | reflexivity | now vm_compute | reflexivity].
  - rewrite Hc. cbn [fst]. eexists. split; [reflexivity|]. cbn [content_id].
    assert (H7 : 7 < z) by (apply (Hb _ 7 (or_intror (or_introl eq_refl))); reflexivity).
    destruct Hmax as (d & Hd & Hid); [discriminate|].
    destruct Hd as [<- | [<- | []]]; cbn [content_id] in Hid; injection Hid as Hid;
      do 2 f_equal; lia.
Defined.

(** At the id 2^53 the sum [2^53 + 1] is 2^53 again: the new id is the
    stored one and the unique index refuses the insert. *)
Example create_manga_beyond_exact_integers :
  let l := mkLibrary
             [mkContent (JNum (Num (2 ^ 53))) (JStr "A") JNull (JStr "manga") JNull
                (JStr "x") (JStr "g") (JStr "Ongoing") (JStr "4.5") (JNum (Num 0)) 0 0]
             [] [] in
  let b := mkMangaBody (JStr "C") JUndefined JUndefined JUndefined JUndefined JUndefined
             JUndefined JUndefined JUndefined in
  js_plus_one (JNum (Num (2 ^ 53))) = JNum (Num (2 ^ 53))
  /\ create_manga b 5 6 true [] l
     = (mkReply 500 (ReplyError "Failed to create manga"), l,
        [LogError "Error creating manga:"]).
Proof. split; reflexivity. Qed.

(** ** Updating and deleting content *)

Lemma update_first_some {A} (p : A -> bool) (f : A -> A) (l l' : list A) :
  update_first p f l = Some l' ->
  exists l1 x l2, l = l1 ++ x :: l2 /\ l' = l1 ++ f x :: l2 /\ p x = true
                  /\ forall y, In y l1 -> p y = false.
Proof.
  revert l'. induction l as [|d r IH]; simpl; intros l' H; [discriminate|].
  destruct (p d) eqn:Hp.
  - injection H as <-. exists [], d, r. repeat split; auto. intros y [].
  - destruct (update_first p f r) as [r'|]; [|discriminate]. injection H as <-.
    destruct (IH r' eq_refl) as (l1 & x & l2 & -> & -> & Hx & Hl1).
    exists (d :: l1), x, l2. repeat split; auto.
    intros y [<- | Hy]; auto.
Qed.

Lemma pick_patched (new old : jsval) : patched new old (pick new old).
Proof. unfold patched, pick. destruct (truthy new); auto. Qed.

(** PUT /api/manga/:id answers 404 and changes nothing when no document
    has the id.  Otherwise it rewrites the first such document and no
    other: title, description, cover, author, genres, status and rating
    are replaced where the body carries a truthy value and kept where it
    does not (so no field can be blanked), [updated_at] is the handler's
    clock reading, and id, type, chapter count and creation time are
    never changed. *)
Theorem update_manga_patches
  (l : library) (idp : string) (b : manga_body) (now : Z) (fs : list bool) :
  first_ok fs ->
  ((forall d, In d (content_docs l) -> content_by_id idp d = false) ->
     update_manga idp b now true fs l
     = (mkReply 404 (ReplyError "Content not found"), l, []))
  /\ ((exists d, In d (content_docs l) /\ content_by_id idp d = true) ->
      exists l1 d l2 d',
        content_docs l = l1 ++ d :: l2
        /\ content_by_id idp d = true
        /\ (forall y, In y l1 -> content_by_id idp y = false)
        /\ update_manga idp b now true fs l
           = (mkReply 200 (ReplySuccess "Content updated successfully"),
              set_content l (l1 ++ d' :: l2), [])
        /\ content_id d' = content_id d /\ content_type d' = content_type d
        /\ chapters_count d' = chapters_count d
        /\ content_created_at d' = content_created_at d
        /\ content_updated_at d' = now
        /\ patched (manga_title b) (content_title d) (content_title d')
        /\ patched (manga_description b) (content_description d) (content_description d')
        /\ patched (manga_cover b) (content_cover d) (content_cover d')
        /\ patched (manga_author b) (content_author d) (content_author d')
        /\ patched (manga_genres b) (content_genres d) (content_genres d')
        /\ patched (manga_status b) (content_status d) (content_status d')
        /\ patched (manga_rating b) (content_rating d) (content_rating d')).
Proof.
  intros Hf. unfold update_manga, attempt, bind_st, unit_st. cbn [negb].
  rewrite call_st_ok by assumption.
  destruct (update_first (content_by_id idp) (apply_update b now) (content_docs l))
    as [c|] eqn:Hup.
  - apply update_first_some in Hup. destruct Hup as (l1 & d & l2 & Hl & -> & Hd & Hl1).
    split.
    + intros Hn. rewrite (Hn d) in Hd; [discriminate|].
      rewrite Hl. apply in_app_iff. right. now left.
    + intros _. exists l1, d, l2, (apply_update b now d). cbn [Nat.eqb].
      repeat split; auto using pick_patched.
  - split; [reflexivity|]. intros (d & Hin & Hd).
    apply (proj1 (update_first_none _ _ _)) with (x := d) in Hup; [|assumption].
    rewrite Hup in Hd. discriminate.
Qed.

Lemma update_manga_patches_witness :
  let d := mkContent (JNum (Num 1)) (JStr "A") (JStr "about A") (JStr "manga") JNull
             (JStr "x") (JStr "g") (JStr "Ongoing") (JStr "4.5") (JNum (Num 3)) 0 0 in
  let l := mkLibrary [d] [] [] in
  let b := mkMangaBody (JStr "") JUndefined JUndefined JUndefined (JStr "y") JUndefined
             JUndefined JUndefined JUndefined in
  content_docs (snd (fst (update_manga "1" b 9 true [] l)))
  = [mkContent (JNum (Num 1)) (JStr "A") (JStr "about A") (JStr "manga") JNull
       (JStr "y") (JStr "g") (JStr "Ongoing") (JStr "4.5") (JNum (Num 3)) 0 9].
Proof.
  intros d l b.
  destruct (update_manga_patches l "1" b 9 []) as (_ & H); [reflexivity|].
  destruct H as (l1 & x & l2 & d' & Hl & _ & _ & Hu & _).
  - exists d. split; [now left | reflexivity].
  - rewrite Hu. cbn [fst snd content_docs set_content].
    destruct l1 as [|y l1]; [|destruct l1; discriminate Hl].
    injection Hl as <- <-.
    assert (Hd' : d' = apply_update b 9 d).
    { assert (H : update_manga "1" b 9 true [] l
                  = (mkReply 200 (ReplySuccess "Content updated successfully"),
                     set_content l [apply_update b 9 d], [])) by reflexivity.
      rewrite Hu in H. injection H as H. exact H. }
    now rewrite Hd'.
Defined.

(** DELETE /api/manga/:id answers 404 and deletes nothing when no
    document has the id, even if chapters still carry it.  Otherwise it
    removes the first such document and then every chapter whose
    contentId is that id, and no other chapter.  When the chapter
    deletion throws, the answer is 500 and the content document is
    already gone while its chapters remain. *)
Theorem delete_manga_cascades (l : library) (idp : string) (rest : list bool) :
  ((forall d, In d (content_docs l) -> content_by_id idp d = false) ->
     delete_manga idp true (false :: rest) l
     = (mkReply 404 (ReplyError "Content not found"), l, []))
  /\ ((exists d, In d (content_docs l) /\ content_by_id idp d = true) ->
      exists l1 d l2,
        content_docs l = l1 ++ d :: l2
        /\ content_by_id idp d = true
        /\ (forall y, In y l1 -> content_by_id idp y = false)
        /\ (first_ok rest ->
            exists l',
              delete_manga idp true (false :: rest) l
              = (mkReply 200
                   (ReplySuccess "Content and associated chapters deleted successfully"),
                 l', [])
              /\ content_docs l' = l1 ++ l2
              /\ ads_config l' = ads_config l
              /\ forall c, In c (chapter_docs l')
                           <-> In c (chapter_docs l)
                               /\ doc_contentId c <> parseInt (JStr idp))
        /\ (hd false rest = true ->
            delete_manga idp true (false :: rest) l
            = (mkReply 500 (ReplyError "Failed to delete content"),
               set_content l (l1 ++ l2), [LogError "Error deleting content:"]))).
Proof.
  unfold delete_manga, attempt, bind_st, unit_st. cbn [negb].
  rewrite call_st_ok by reflexivity. cbn [tl].
  destruct (delete_first (content_by_id idp) (content_docs l)) as [c|] eqn:Hdel.
  - apply delete_first_some in Hdel. destruct Hdel as (l1 & d & l2 & Hl & -> & Hd & Hl1).
    split.
    + intros Hn. rewrite (Hn d) in Hd; [discriminate|].
      rewrite Hl. apply in_app_iff. right. now left.
    + intros _. exists l1, d, l2. cbn [Nat.eqb]. repeat split; auto.
      * intros Hf. rewrite call_st_ok by assumption. eexists. split; [reflexivity|].
        cbn [content_docs chapter_docs ads_config set_content set_chapter_docs].
        split; [reflexivity|]. split; [reflexivity|].
        intros c. rewrite filter_In, negb_true_iff.
        unfold chapter_of_content, eq_stored, parseInt. cbn [to_bson].
        split; intros [Hc Hne]; (split; [assumption|]).
        -- intros He. rewrite He in Hne. cbn [to_bson] in Hne.
           now rewrite jsval_eqb_refl in Hne.
        -- destruct (jsval_eqb _ _) eqn:He; [|reflexivity].
           apply jsval_eqb_eq in He. exfalso. apply Hne.
           destruct (doc_contentId c); cbn [to_bson] in He; try discriminate He;
             now symmetry.
      * intros Hf. destruct rest as [|[|] r]; try discriminate Hf. reflexivity.
  - split; [reflexivity|]. intros (d & Hin & Hd).
    apply (proj1 (delete_first_none _ _)) with (x := d) in Hdel; [|assumption].
    rewrite Hdel in Hd. discriminate.
Qed.

Lemma delete_manga_cascades_witness :
  let d := mkContent (JNum (Num 1)) (JStr "A") JNull (JStr "manga") JNull
             (JStr "x") (JStr "g") (JStr "Ongoing") (JStr "4.5") (JNum (Num 1)) 0 0 in
  let c1 := mkChapterDoc (JNum (Num 1)) (JStr "1") JUndefined (JStr "Chapter 1") (Some [])
              JNull 0 0 in
  let c2 := mkChapterDoc (JNum (Num 2)) (JStr "1") JUndefined (JStr "Chapter 1") (Some [])
              JNull 0 0 in
  let l := mkLibrary [d] [c1; c2] [] in
  delete_manga "2" true [false] l = (mkReply 404 (ReplyError "Content not found"), l, [])
  /\ exists l', delete_manga "1" true [false] l
                = (mkReply 200
                     (ReplySuccess "Content and associated chapters deleted successfully"),
                   l', [])
                /\ ~ In c1 (chapter_docs l').
Proof.
  intros d c1 c2 l. split.
  - destruct (delete_manga_cascades l "2" []) as [H _]. apply H.
    intros x [<- | []]. reflexivity.
  - destruct (delete_manga_cascades l "1" []) as [_ H].
    destruct H as (l1 & x & l2 & _ & _ & _ & H & _).
    + exists d. split; [now left | reflexivity].
    + destruct H as (l' & Hd & _ & _ & Hc); [reflexivity|].
      exists l'. split; [exact Hd|]. intros Hin. apply Hc in Hin.
      destruct Hin as [_ Hne]. now apply Hne.
Defined.

(** ** What the catalogue endpoints maintain *)

Section KeepsSt.

Context {S : Type} (P : S -> Prop).

Lemma keeps_unit {A} (a : A) : keeps_st P (unit_st a).
Proof. intros fs s H. exact H. Qed.

Lemma keeps_bind {A B} (m : St S A) (k : A -> St S B) :
  keeps_st P m -> (forall a, keeps_st P (k a)) -> keeps_st P (bind_st m k).
Proof.
  intros Hm Hk fs s H. unfold bind_st. specialize (Hm fs s H).
  destruct (m fs s) as [[[a|] fs1] s1]; simpl in Hm |- *; [|exact Hm].
  now apply Hk.
Qed.

Lemma keeps_call {A} (op : S -> option (A * S)) :
  (forall s a s', P s -> op s = Some (a, s') -> P s') -> keeps_st P (call_st op).
Proof.
  intros Hop fs s H. unfold call_st.
  destruct fs as [|[|] r]; simpl; try exact H;
    destruct (op s) as [[a s']|] eqn:Ho; simpl; try exact H; now apply (Hop s a s').
Qed.

Lemma keeps_read {A} (f : S -> A) : keeps_st P (call_st (fun s => Some (f s, s))).
Proof. apply keeps_call. intros s a s' H Ho. injection Ho as _ <-. exact H. Qed.

Lemma keeps_attempt (m : St S reply) (p e : string) (fs : list bool) (s : S) :
  keeps_st P m -> P s -> P (snd (fst (attempt m p e fs s))).
Proof.
  intros Hm H. unfold attempt. specialize (Hm fs s H).
  destruct (m fs s) as [[[r|] fs1] s1]; exact Hm.
Qed.

End KeepsSt.

Lemma inc_first_ids (cid : jsval) (k : Z) (l l' : list content_doc) :
  inc_first cid k l = Some l' ->
  map content_id l' = map content_id l
  /\ (forall d', In d' l' -> exists d, In d l /\ content_id d' = content_id d).
Proof.
  revert l'. induction l as [|d r IH]; simpl; intros l' H.
  - injection H as <-. split; [reflexivity | intros d' []].
  - destruct (eq_stored cid (content_id d)).
    + destruct (inc_count k (chapters_count d)) as [v|]; [|discriminate].
      injection H as <-. split; [reflexivity|].
      intros d' [<- | Hd']; [exists d; split; [now left | reflexivity]|].
      exists d'. split; [now right | reflexivity].
    + destruct (inc_first cid k r) as [r'|]; [|discriminate]. injection H as <-.
      destruct (IH r' eq_refl) as [Hm Hin]. split; [simpl; now f_equal|].
      intros d' [<- | Hd']; [exists d; split; [now left | reflexivity]|].
      destruct (Hin d' Hd') as (x & Hx & He). exists x. split; [now right | exact He].
Qed.

Lemma ok_content (l : library) (c : list content_doc) :
  catalogue_ok l ->
  (forall d, In d c -> exists z, content_id d = JNum (Num z) /\ 1 <= z) ->
  NoDup (map content_id c) ->
  catalogue_ok (set_content l c).
Proof. intros [H1 H2 H3 H4 H5] Hp Hd. constructor; assumption. Qed.

Lemma ok_chapters (l : library) (c : list chapter_doc) :
  catalogue_ok l ->
  NoDup (map chapter_key c) ->
  (forall d, In d c -> doc_normalizedTitle d = JUndefined) ->
  catalogue_ok (set_chapter_docs l c).
Proof. intros [H1 H2 H3 H4 H5] Hk Ht. constructor; assumption. Qed.

Lemma NoDup_map_remove {A B} (f : A -> B) (l1 l2 : list A) (x : A) :
  NoDup (map f (l1 ++ x :: l2)) -> NoDup (map f (l1 ++ l2)).
Proof.
  rewrite !map_app. simpl. apply NoDup_remove_1.
Qed.

(** Dropping documents keeps their keys distinct. *)
Lemma kept_keys_distinct {Doc Key} (key_of : Doc -> Key) (keep : Doc -> bool)
  (docs : list Doc) (Hdistinct : NoDup (map key_of docs)) :
  NoDup (map key_of (filter keep docs)).
Proof.
  induction docs as [|d r IH]; cbn [filter map]; [constructor|].
  apply NoDup_cons_iff in Hdistinct. destruct Hdistinct as [Hnew Hrest].
  destruct (keep d); cbn [map]; [|now apply IH].
  apply NoDup_cons; [|now apply IH].
  intros Hd. apply in_map_iff in Hd. destruct Hd as (x & Hx & Hin). apply Hnew.
  apply in_map_iff. exists x. apply filter_In in Hin. tauto.
Qed.

Lemma ok_inc (cid : jsval) (k : Z) : keeps_st catalogue_ok (content_inc cid k).
Proof.
  apply keeps_call. intros s a s' Hok Ho.
  destruct (inc_first cid k (content_docs s)) as [c|] eqn:Hi; [|discriminate].
  injection Ho as _ <-. destruct (inc_first_ids _ _ _ _ Hi) as [Hm Hin].
  apply ok_content; [assumption | |].
  - intros d' Hd'. destruct (Hin d' Hd') as (d & Hd & ->). now apply (ids_positive s Hok).
  - rewrite Hm. apply (ids_distinct s Hok).
Qed.

Lemma keeps_bind_read {S A B} (P : S -> Prop) (f : S -> A) (k : A -> St S B) :
  (forall s fs, P s -> P (snd (k (f s) fs s))) ->
  keeps_st P (bind_st (call_st (fun s => Some (f s, s))) k).
Proof.
  intros Hk fs s H. unfold bind_st, call_st.
  destruct fs as [|[|] r]; cbn [tl]; try exact H; now apply Hk.
Qed.

Lemma ok_create_manga (b : manga_body) (created updated : Z) (conn : bool)
  (fs : list bool) (l : library) :
  catalogue_bounded l ->
  catalogue_bounded (snd (fst (create_manga b created updated conn fs l))).
Proof.
  intros Hok. unfold create_manga. destruct conn; cbn [negb]; [|assumption].
  apply keeps_attempt; [|assumption]. clear l Hok fs.
  apply keeps_bind_read. intros s fs [Hs Hbound].
  assert (Hi : integer_ids (content_docs s)).
  { intros d Hd. destruct (ids_positive s Hs d Hd) as (z & Hz & _). now exists z. }
  pose proof (last_by_id_integers _ Hi) as Hlast.
  assert (Hz : exists z,
            match last_by_id (content_docs s) with
            | Some d => js_plus_one (content_id d)
            | None => JNum (Num 1)
            end = JNum (Num z) /\ 1 <= z <= 2 ^ 53).
  { destruct (last_by_id (content_docs s)) as [m|].
    - destruct Hlast as (Hm & z & Hz & _). rewrite Hz. cbn [js_plus_one].
      destruct (ids_positive s Hs m Hm) as (y & Hy & Hpos). rewrite Hy in Hz.
      injection Hz as ->. specialize (Hbound m z Hm Hy).
      destruct (round_double_next z) as (z' & -> & Hz'); [lia|].
      exists z'. split; [reflexivity | exact Hz'].
    - exists 1. split; [reflexivity|]. change (2 ^ 53) with 9007199254740992. lia. }
  destruct Hz as (z & -> & Hpos).
  apply keeps_bind; [|intros; apply keeps_unit | exact (conj Hs Hbound)].
  apply keeps_call. intros s0 a s' [Hs0 Hb0] Ho.
  destruct (existsb _ (content_docs s0)) eqn:He; [discriminate|]. injection Ho as _ <-.
  split.
  - apply ok_content; [assumption | |].
    + intros d Hd. apply in_app_iff in Hd. destruct Hd as [Hd | [<- | []]].
      * now apply (ids_positive s0 Hs0).
      * exists z. split; [reflexivity | lia].
    + rewrite map_app. cbn [map bson_content content_id to_bson].
      apply NoDup_snoc; [apply (ids_distinct s0 Hs0)|].
      intros Hin. apply in_map_iff in Hin. destruct Hin as (d & Hd & Hin).
      assert (Hex : existsb (fun d0 => eq_stored (JNum (Num z)) (content_id d0))
                      (content_docs s0) = true).
      { apply existsb_exists. exists d. split; [assumption|]. unfold eq_stored.
        rewrite Hd. apply jsval_eqb_refl. }
      rewrite Hex in He. discriminate.
  - intros d y Hd Hy. cbn [content_docs set_content] in Hd.
    apply in_app_iff in Hd. destruct Hd as [Hd | [<- | []]]; [now apply (Hb0 d)|].
    cbn [bson_content content_id to_bson] in Hy. injection Hy as <-. lia.
Qed.

Lemma ok_update_manga (idp : string) (b : manga_body) (now : Z) (conn : bool)
  (fs : list bool) (l : library) :
  catalogue_ok l -> catalogue_ok (snd (fst (update_manga idp b now conn fs l))).
Proof.
  intros Hok. unfold update_manga. destruct conn; cbn [negb]; [|assumption].
  apply keeps_attempt; [|assumption].
  apply keeps_bind; [|intros n; destruct (Nat.eqb n 0); apply keeps_unit].
  apply keeps_call. intros s a s' Hs Ho.
  destruct (update_first _ _ (content_docs s)) as [c|] eqn:Hup;
    injection Ho as _ <-; [|assumption].
  apply update_first_some in Hup. destruct Hup as (l1 & d & l2 & Hl & -> & _ & _).
  apply ok_content; [assumption | |].
  - intros x Hx. apply in_app_iff in Hx. destruct Hx as [Hx | [<- | Hx]].
    + apply (ids_positive s Hs). rewrite Hl. apply in_app_iff. now left.
    + apply (ids_positive s Hs d). rewrite Hl. apply in_app_iff. right. now left.
    + apply (ids_positive s Hs). rewrite Hl. apply in_app_iff. right. now right.
  - pose proof (ids_distinct s Hs) as Hnd. rewrite Hl in Hnd.
    rewrite map_app in *. exact Hnd.
Qed.

Lemma ok_delete_manga (idp : string) (conn : bool) (fs : list bool) (l : library) :
  catalogue_ok l -> catalogue_ok (snd (fst (delete_manga idp conn fs l))).
Proof.
  intros Hok. unfold delete_manga. destruct conn; cbn [negb]; [|assumption].
  apply keeps_attempt; [|assumption].
  apply keeps_bind.
  - apply keeps_call. intros s a s' Hs Ho.
    destruct (delete_first _ (content_docs s)) as [c|] eqn:Hdel;
      injection Ho as _ <-; [|assumption].
    apply delete_first_some in Hdel. destruct Hdel as (l1 & d & l2 & Hl & -> & _ & _).
    apply ok_content; [assumption | |].
    + intros x Hx. apply (ids_positive s Hs). rewrite Hl.
      apply in_app_iff in Hx. apply in_app_iff. destruct Hx; [now left | right; now right].
    + pose proof (ids_distinct s Hs) as Hnd. rewrite Hl in Hnd.
      now apply NoDup_map_remove in Hnd.
  - intros n. destruct (Nat.eqb n 0); [apply keeps_unit|].
    apply keeps_bind; [|intros; apply keeps_unit].
    apply keeps_call. intros s a s' Hs Ho. injection Ho as _ <-.
    apply ok_chapters; [assumption | |].
    + apply kept_keys_distinct, (keys_distinct s Hs).
    + intros d Hd. apply filter_In in Hd. now apply (no_titles s Hs).
Qed.

Lemma ok_create_chapter (idp : string) (b : chapter_body) (created updated : Z)
  (conn : bool) (fs : list bool) (l : library) :
  catalogue_ok l ->
  catalogue_ok (snd (fst (create_chapter idp b created updated conn fs l))).
Proof.
  intros Hok. unfold create_chapter. destruct conn; cbn [negb]; [|assumption].
  apply keeps_attempt; [|assumption].
  apply keeps_bind; [apply keeps_read|]. intros [existing|]; [apply keeps_unit|].
  apply keeps_bind.
  - apply keeps_call. intros s a s' Hs Ho.
    destruct (existsb _ (chapter_docs s)) eqn:He; [discriminate|]. injection Ho as _ <-.
    apply ok_chapters; [assumption | |].
    + rewrite map_app. cbn [map]. apply NoDup_snoc; [apply (keys_distinct s Hs)|].
      intros Hin. apply in_map_iff in Hin. destruct Hin as (d & Hd & Hin).
      assert (Hex : existsb (chapter_key_filter (parseInt (JStr idp)) (new_chapterId b))
                      (chapter_docs s) = true).
      { apply existsb_exists. exists d. split; [assumption|].
        unfold chapter_key in Hd. cbn [doc_contentId doc_chapterId] in Hd.
        injection Hd as H1 H2. unfold chapter_key_filter, eq_stored.
        rewrite H1, H2, to_bson_idem, !jsval_eqb_refl. reflexivity. }
      rewrite Hex in He. discriminate.
    + intros d Hd. apply in_app_iff in Hd. destruct Hd as [Hd | [<- | []]];
        [now apply (no_titles s Hs) | reflexivity].
  - intros _. apply keeps_bind; [apply ok_inc | intros; apply keeps_unit].
Qed.

Lemma ok_delete_chapter (idp chp : string) (conn : bool) (fs : list bool) (l : library) :
  catalogue_ok l -> catalogue_ok (snd (fst (delete_chapter idp chp conn fs l))).
Proof.
  intros Hok. unfold delete_chapter. destruct conn; cbn [negb]; [|assumption].
  apply keeps_attempt; [|assumption].
  apply keeps_bind.
  - apply keeps_call. intros s a s' Hs Ho.
    destruct (delete_first _ (chapter_docs s)) as [c|] eqn:Hdel;
      injection Ho as _ <-; [|assumption].
    apply delete_first_some in Hdel. destruct Hdel as (l1 & d & l2 & Hl & -> & _ & _).
    apply ok_chapters; [assumption | |].
    + pose proof (keys_distinct s Hs) as Hnd. rewrite Hl in Hnd.
      now apply NoDup_map_remove in Hnd.
    + intros x Hx. apply (no_titles s Hs). rewrite Hl.
      apply in_app_iff in Hx. apply in_app_iff. destruct Hx; [now left | right; now right].
  - intros n. destruct (Nat.eqb n 0); [apply keeps_unit|].
    apply keeps_bind; [apply ok_inc | intros; apply keeps_unit].
Qed.

Lemma filter_none_length {A} (p : A -> bool) (l : list A) :
  (forall x, In x l -> p x = false) -> filter p l = [].
Proof.
  induction l as [|d r IH]; simpl; intros H; [reflexivity|].
  rewrite (H d (or_introl eq_refl)). apply IH. intros x Hx. apply H. now right.
Qed.

Lemma ok_post_ads (config : json_value) (now : Z) (conn : bool)
  (fs : list bool) (l : library) :
  catalogue_ok l -> catalogue_ok (snd (fst (post_ads_config config now conn fs l))).
Proof.
  intros Hok. unfold post_ads_config. destruct conn; cbn [negb]; [|assumption].
  apply keeps_attempt; [|assumption].
  apply keeps_bind; [|intros; apply keeps_unit].
  apply keeps_call. intros s a s' Hs Ho. injection Ho as _ <-.
  destruct Hs as [H1 H2 H3 H4 H5]. constructor; try assumption.
  cbn [ads_config set_ads].
  destruct (update_first ads_by_id _ (ads_config s)) as [a'|] eqn:Hup.
  - apply update_first_some in Hup. destruct Hup as (l1 & x & l2 & Hl & -> & Hx & _).
    rewrite Hl in H5. rewrite filter_app in *. cbn [filter] in *.
    assert (Hx' : ads_by_id (mkAds (ads_id x) config now) = true) by exact Hx.
    rewrite Hx in H5. rewrite Hx'. rewrite length_app in *. simpl in *. exact H5.
  - rewrite filter_app, (filter_none_length ads_by_id (ads_config s)).
    + simpl. lia.
    + exact (proj1 (update_first_none _ _ _) Hup).
Qed.

Lemma catalogue_step_ok (conn : bool) (l : library) (e : catalogue_event) :
  (forall b created updated fs, e <> CreateManga b created updated fs) ->
  catalogue_ok l -> catalogue_ok (catalogue_step conn l e).
Proof.
  intros Hne Hok. unfold catalogue_step. destruct e.
  - unfold get_manga. destruct conn; cbn [negb]; [|assumption].
    apply keeps_attempt; [|assumption].
    apply keeps_bind; [apply keeps_read | intros [c|]; apply keeps_unit].
  - unfold list_manga. destruct conn; cbn [negb]; [|assumption].
    apply keeps_attempt; [|assumption].
    apply keeps_bind; [apply keeps_read | intros; apply keeps_unit].
  - now elim (Hne b created updated fs).
  - now apply ok_update_manga.
  - now apply ok_delete_manga.
  - unfold get_chapters. destruct conn; cbn [negb]; [|assumption].
    apply keeps_attempt; [|assumption].
    apply keeps_bind; [apply keeps_read | intros; apply keeps_unit].
  - now apply ok_create_chapter.
  - now apply ok_delete_chapter.
  - unfold get_ads_config. destruct conn; cbn [negb]; [|assumption].
    apply keeps_attempt; [|assumption].
    apply keeps_bind; [apply keeps_read | intros [c|]; apply keeps_unit].
  - now apply ok_post_ads.
Qed.

(** Only POST /api/manga brings in a content id. *)
Lemma among_inc (l0 : library) (cid : jsval) (k : Z) :
  keeps_st (ids_among l0) (content_inc cid k).
Proof.
  apply keeps_call. intros s a s' H Ho.
  destruct (inc_first cid k (content_docs s)) as [c|] eqn:Hi; [|discriminate].
  injection Ho as _ <-. destruct (inc_first_ids _ _ _ _ Hi) as [_ Hin].
  intros d' Hd'. destruct (Hin d' Hd') as (x & Hx & ->). now apply H.
Qed.

Lemma other_events_keep_ids (conn : bool) (l : library) (e : catalogue_event) :
  (forall b created updated fs, e <> CreateManga b created updated fs) ->
  ids_among l (catalogue_step conn l e).
Proof.
  intros Hne.
  assert (H0 : ids_among l l) by (intros d Hd; exists d; auto).
  unfold catalogue_step. destruct e.
  - unfold get_manga. destruct conn; cbn [negb]; [|assumption].
    apply keeps_attempt; [|assumption].
    apply keeps_bind; [apply keeps_read | intros [c|]; apply keeps_unit].
  - unfold list_manga. destruct conn; cbn [negb]; [|assumption].
    apply keeps_attempt; [|assumption].
    apply keeps_bind; [apply keeps_read | intros; apply keeps_unit].
  - now elim (Hne b created updated fs).
  - unfold update_manga. destruct conn; cbn [negb]; [|assumption].
    apply keeps_attempt; [|assumption].
    apply keeps_bind; [|intros n; destruct (Nat.eqb n 0); apply keeps_unit].
    apply keeps_call. intros s a s' Hs Ho.
    destruct (update_first _ _ (content_docs s)) as [c|] eqn:Hup;
      injection Ho as _ <-; [|assumption].
    apply update_first_some in Hup. destruct Hup as (l1 & d & l2 & Hl & -> & _ & _).
    intros x Hx. cbn [content_docs set_content] in Hx. apply in_app_iff in Hx.
    destruct Hx as [Hx | [<- | Hx]]; [apply Hs | apply (Hs d) | apply Hs];
      rewrite Hl; apply in_app_iff; [now left | right; now left | right; now right].
  - unfold delete_manga. destruct conn; cbn [negb]; [|assumption].
    apply keeps_attempt; [|assumption].
    apply keeps_bind.
    + apply keeps_call. intros s a s' Hs Ho.
      destruct (delete_first _ (content_docs s)) as [c|] eqn:Hdel;
        injection Ho as _ <-; [|assumption].
      apply delete_first_some in Hdel. destruct Hdel as (l1 & d & l2 & Hl & -> & _ & _).
      intros x Hx. cbn [content_docs set_content] in Hx. apply Hs. rewrite Hl.
      apply in_app_iff in Hx. apply in_app_iff. destruct Hx; [now left | right; now right].
    + intros n. destruct (Nat.eqb n 0); [apply keeps_unit|].
      apply keeps_bind; [|intros; apply keeps_unit].
      apply keeps_call. intros s a s' Hs Ho. injection Ho as _ <-. exact Hs.
  - unfold get_chapters. destruct conn; cbn [negb]; [|assumption].
    apply keeps_attempt; [|assumption].
    apply keeps_bind; [apply keeps_read | intros; apply keeps_unit].
  - unfold create_chapter. destruct conn; cbn [negb]; [|assumption].
    apply keeps_attempt; [|assumption].
    apply keeps_bind; [apply keeps_read|]. intros [existing|]; [apply keeps_unit|].
    apply keeps_bind.
    + apply keeps_call. intros s a s' Hs Ho.
      destruct (existsb _ (chapter_docs s)); [discriminate|]. injection Ho as _ <-.
      exact Hs.
    + intros _. apply keeps_bind; [apply among_inc | intros; apply keeps_unit].
  - unfold delete_chapter. destruct conn; cbn [negb]; [|assumption].
    apply keeps_attempt; [|assumption].
    apply keeps_bind.
    + apply keeps_call. intros s a s' Hs Ho.
      destruct (delete_first _ (chapter_docs s)); injection Ho as _ <-; exact Hs.
    + intros n. destruct (Nat.eqb n 0); [apply keeps_unit|].
      apply keeps_bind; [apply among_inc | intros; apply keeps_unit].
  - unfold get_ads_config. destruct conn; cbn [negb]; [|assumption].
    apply keeps_attempt; [|assumption].
    apply keeps_bind; [apply keeps_read | intros [c|]; apply keeps_unit].
  - unfold post_ads_config. destruct conn; cbn [negb]; [|assumption].
    apply keeps_attempt; [|assumption].
    apply keeps_bind; [|intros; apply keeps_unit].
    apply keeps_call. intros s a s' Hs Ho. injection Ho as _ <-. exact Hs.
Qed.

Lemma catalogue_step_bounded (conn : bool) (l : library) (e : catalogue_event) :
  catalogue_bounded l -> catalogue_bounded (catalogue_step conn l e).
Proof.
  intros Hok.
  assert (Hc : (exists b created updated fs, e = CreateManga b created updated fs)
               \/ forall b created updated fs, e <> CreateManga b created updated fs).
  { destruct e; try (right; discriminate). left. eauto. }
  destruct Hc as [(b & created & updated & fs & ->) | Hne].
  - now apply ok_create_manga.
  - destruct Hok as [Hok Hbound]. split; [now apply catalogue_step_ok|].
    intros d' y Hd' Hy.
    destruct (other_events_keep_ids conn l e Hne d' Hd') as (d & Hd & Heq).
    apply (Hbound d y Hd). congruence.
Qed.

Lemma empty_library_ok : catalogue_bounded empty_library.
Proof.
  split; [constructor; simpl|].
  - intros d [].
  - constructor.
  - constructor.
  - intros d [].
  - lia.
  - intros d y [].
Qed.

(** From an empty catalogue, whatever requests the content, chapter and
    ads-configuration endpoints receive and whichever of their store
    calls throw: content ids are pairwise distinct integers from 1 up, no
    two chapters share (contentId, chapterId), no chapter document has a
    [normalizedTitle], and at most one ads-configuration document has
    id 1. *)
Theorem catalogue_invariant (conn : bool) (es : list catalogue_event) :
  catalogue_ok (catalogue_run conn empty_library es).
Proof.
  unfold catalogue_run.
  assert (H : forall l, catalogue_bounded l ->
                catalogue_bounded (fold_left (catalogue_step conn) es l)).
  { induction es as [|e es IH]; simpl; intros l Hl; [assumption|].
    apply IH. now apply catalogue_step_bounded. }
  apply H, empty_library_ok.
Qed.

(** ** Chapters made through the API are never served *)




(** ** Creating and deleting chapters *)

Lemma key_filter_iff (cid chid : jsval) (d : chapter_doc) :
  chapter_key_filter cid chid d = true <-> chapter_key d = (to_bson cid, to_bson chid).
Proof.
  unfold chapter_key_filter, eq_stored, chapter_key.
  rewrite andb_true_iff, !jsval_eqb_eq. split.
  - intros [-> ->]. reflexivity.
  - intros H. injection H as -> ->. auto.
Qed.

Lemma key_free_find (cid chid : jsval) (docs : list chapter_doc) :
  (forall d, In d docs -> chapter_key d <> (to_bson cid, to_bson chid)) ->
  findOne (chapter_key_filter cid chid) docs = None
  /\ existsb (chapter_key_filter cid chid) docs = false.
Proof.
  intros H.
  assert (Hf : forall d, In d docs -> chapter_key_filter cid chid d = false).
  { intros d Hd. destruct (chapter_key_filter cid chid d) eqn:He; [|reflexivity].
    apply key_filter_iff in He. now elim (H d Hd). }
  split.
  - unfold findOne. destruct (find _ docs) as [d|] eqn:Hd; [|reflexivity].
    apply find_some in Hd. destruct Hd as [Hin Hp]. rewrite (Hf d Hin) in Hp. discriminate.
  - destruct (existsb _ docs) eqn:He; [|reflexivity].
    apply existsb_exists in He. destruct He as (d & Hin & Hp).
    rewrite (Hf d Hin) in Hp. discriminate.
Qed.


Lemma inc_first_present (cid : jsval) (k : Z) (l1 l2 : list content_doc) (c : content_doc) :
  (forall y, In y l1 -> eq_stored cid (content_id y) = false) ->
  eq_stored cid (content_id c) = true ->
  inc_first cid k (l1 ++ c :: l2)
  = match inc_count k (chapters_count c) with
    | Some v => Some (l1 ++ set_count c v :: l2)
    | None => None
    end.
Proof.
  intros Hl1 Hc. induction l1 as [|d r IH]; simpl.
  - now rewrite Hc.
  - rewrite (Hl1 d (or_introl eq_refl)), IH; [|intros y Hy; apply Hl1; now right].
    now destruct (inc_count k (chapters_count c)).
Qed.



(** When the content document counts its chapters in something [$inc]
    refuses (a string, a boolean, null), POST /api/manga/:id/chapters
    answers 500 after the chapter has been stored: the chapter stays, the
    count is unchanged, and sending the request again gives 400. *)
Theorem create_chapter_fails_after_insert
  (l : library) (idp : string) (b : chapter_body) (created updated : Z)
  (l1 l2 : list content_doc) (c : content_doc) :
  let cid := parseInt (JStr idp) in
  (forall d, In d (chapter_docs l) -> chapter_key d <> (cid, to_bson (new_chapterId b))) ->
  content_docs l = l1 ++ c :: l2 ->
  (forall y, In y l1 -> eq_stored cid (content_id y) = false) ->
  eq_stored cid (content_id c) = true ->
  inc_count 1 (chapters_count c) = None ->
  exists stored l',
    create_chapter idp b created updated true [] l
    = (mkReply 500 (ReplyError "Failed to create chapter"), l',
       [LogError "Error creating chapter:"])
    /\ chapter_docs l' = chapter_docs l ++ [stored]
    /\ chapter_key stored = (cid, to_bson (new_chapterId b))
    /\ content_docs l' = content_docs l
    /\ forall created' updated',
         create_chapter idp b created' updated' true [] l'
         = (mkReply 400 (ReplyError "Chapter already exists"), l', []).
Proof.
  intros cid Hfree Hl Hl1 Hc Hinc.
  destruct (key_free_find cid (new_chapterId b) (chapter_docs l) Hfree) as [Hn He].
  set (stored := mkChapterDoc cid (to_bson (new_chapterId b)) JUndefined
                   (js_or (new_title b) (JStr ("Chapter " ++ to_string (new_chapterId b))))
                   (Some match new_pages b with Some p => p | None => [] end)
                   (js_or (new_content b) JNull) created updated).
  assert (Hkey : chapter_key stored = (cid, to_bson (new_chapterId b))).
  { unfold chapter_key. cbn [stored doc_contentId doc_chapterId]. now rewrite to_bson_idem. }
  assert (Hinc' : inc_first cid 1 (content_docs l) = None).
  { rewrite Hl, (inc_first_present cid 1 l1 l2 c Hl1 Hc). now rewrite Hinc. }
  exists stored, (set_chapter_docs l (chapter_docs l ++ [stored])).
  split; [|split; [reflexivity | split; [exact Hkey | split; [reflexivity|]]]].
  - unfold create_chapter, attempt, bind_st, unit_st, content_inc. cbn [negb].
    rewrite call_st_ok by reflexivity. fold cid. rewrite Hn.
    rewrite call_st_ok by reflexivity. rewrite He.
    rewrite call_st_ok by reflexivity.
    cbn [content_docs chapter_docs set_chapter_docs]. rewrite Hinc'. reflexivity.
  - intros created' updated'.
    unfold create_chapter, attempt, bind_st, unit_st. cbn [negb].
    rewrite call_st_ok by reflexivity. fold cid. cbn [chapter_docs set_chapter_docs].
    assert (Hx : findOne (chapter_key_filter cid (new_chapterId b))
                   (chapter_docs l ++ [stored]) = Some stored).
    { apply find_fresh_last.
      - intros d Hd. destruct (chapter_key_filter cid (new_chapterId b) d) eqn:Hk;
          [|reflexivity].
        apply key_filter_iff in Hk. now elim (Hfree d Hd).
      - apply key_filter_iff. exact Hkey. }
    rewrite Hx. reflexivity.
Qed.

Lemma create_chapter_fails_after_insert_witness :
  let c := mkContent (JNum (Num 1)) (JStr "A") JNull (JStr "manga") JNull
             (JStr "x") (JStr "g") (JStr "Ongoing") (JStr "4.5") (JStr "3") 0 0 in
  let l := mkLibrary [c] [] [] in
  let b := mkChapterBody (JStr "1") JUndefined None JUndefined in
  exists l',
    create_chapter "1" b 5 6 true [] l
    = (mkReply 500 (ReplyError "Failed to create chapter"), l',
       [LogError "Error creating chapter:"])
    /\ List.length (chapter_docs l') = 1%nat.
Proof.
  intros c l b.
  destruct (create_chapter_fails_after_insert l "1" b 5 6 [] [] c)
    as (stored & l' & Hr & Hd & _);
    [intros d [] | reflexivity | intros y [] | reflexivity | reflexivity |].
  exists l'. split; [exact Hr|]. rewrite Hd. reflexivity.
Defined.


Lemma set_count_twice (c : content_doc) (v v' : jsval) :
  set_count (set_count c v) v' = set_count c v'.
Proof. reflexivity. Qed.





(** DELETE /api/manga/:id/chapters/:chapterId matches the chapterId as
    the path string.  A chapter stored under a chapterId that is not a
    string (a JSON number, null) is therefore out of its reach: no such
    request, whatever its path, removes it. *)
Theorem delete_chapter_needs_string_id
  (l : library) (d : chapter_doc) (idp chp : string) (conn : bool) (fs : list bool) :
  In d (chapter_docs l) ->
  (forall s, doc_chapterId d <> JStr s) ->
  In d (chapter_docs (snd (fst (delete_chapter idp chp conn fs l)))).
Proof.
  intros Hin Hns.
  assert (Hd : chapter_key_filter (parseInt (JStr idp)) (JStr chp) d = false).
  { unfold chapter_key_filter, eq_stored. cbn [to_bson].
    destruct (doc_chapterId d) as [| | |n|s] eqn:He; cbn [to_bson jsval_eqb];
      try apply andb_false_r. now elim (Hns s). }
  unfold delete_chapter. destruct conn; cbn [negb]; [|assumption].
  apply (keeps_attempt (fun s => In d (chapter_docs s))); [|assumption].
  apply keeps_bind.
  - apply keeps_call. intros s a s' Hs Ho.
    destruct (delete_first _ (chapter_docs s)) as [c|] eqn:Hdel;
      injection Ho as _ <-; [|assumption].
    apply delete_first_some in Hdel. destruct Hdel as (l1 & x & l2 & Hl & -> & Hx & _).
    cbn [chapter_docs set_chapter_docs]. rewrite Hl in Hs.
    apply in_app_iff in Hs. apply in_app_iff.
    destruct Hs as [Hs | [<- | Hs]]; [now left | | now right].
    rewrite Hd in Hx. discriminate.
  - intros n. destruct (Nat.eqb n 0); [apply keeps_unit|].
    apply keeps_bind; [|intros; apply keeps_unit].
    apply keeps_call. intros s a s' Hs Ho.
    destruct (inc_first _ _ (content_docs s)); [|discriminate].
    injection Ho as _ <-. exact Hs.
Qed.

Lemma delete_chapter_needs_string_id_witness :
  let b := mkChapterBody (JNum (Num 1)) JUndefined None JUndefined in
  let l := snd (fst (create_chapter "9" b 5 6 true [] empty_library)) in
  In (mkChapterDoc (JNum (Num 9)) (JNum (Num 1)) JUndefined (JStr "Chapter 1") (Some [])
        JNull 5 6)
     (chapter_docs (snd (fst (delete_chapter "9" "1" true [] l)))).
Proof.
  intros b l.
  apply delete_chapter_needs_string_id; [now left | discriminate].
Defined.

(** ** The ads configuration *)

Lemma find_after_update {A} (p : A -> bool) (f : A -> A) (l l' : list A) :
  (forall x, p (f x) = p x) ->
  update_first p f l = Some l' ->
  exists x, In x l /\ findOne p l' = Some (f x).
Proof.
  intros Hp. revert l'. unfold findOne.
  induction l as [|d r IH]; simpl; intros l' H; [discriminate|].
  destruct (p d) eqn:Hd.
  - injection H as <-. exists d. split; [now left|]. simpl. now rewrite Hp, Hd.
  - destruct (update_first p f r) as [r'|]; [|discriminate]. injection H as <-.
    destruct (IH r' eq_refl) as (x & Hx & Hf). exists x. split; [now right|].
    simpl. now rewrite Hd.
Qed.

(** GET /api/ads-config answers the built-in defaults as long as no
    document with id 1 is stored.  POST /api/ads-config stores the body
    under id 1, creating the document or overwriting the first one, and
    from then on GET answers exactly the body last posted. *)
Theorem ads_config_round_trip
  (l : library) (config : json_value) (now : Z) (fs fs' : list bool) :
  first_ok fs -> first_ok fs' ->
  let p := post_ads_config config now true fs l in
  fst (fst p) = mkReply 200 (ReplySuccess "Ads config updated successfully")
  /\ get_ads_config true fs' (snd (fst p))
     = (mkReply 200 (ReplyAdsConfig config), snd (fst p), [])
  /\ content_docs (snd (fst p)) = content_docs l
  /\ chapter_docs (snd (fst p)) = chapter_docs l
  /\ ((forall a, In a (ads_config l) -> ads_by_id a = false) ->
      get_ads_config true fs' l = (mkReply 200 ReplyDefaultAdsConfig, l, [])
      /\ ads_config (snd (fst p)) = ads_config l ++ [mkAds (JNum (Num 1)) config now]).
Proof.
  intros Hf Hf' p. subst p.
  unfold post_ads_config, attempt, bind_st, unit_st. cbn [negb].
  rewrite call_st_ok by assumption. cbn [fst snd].
  split; [reflexivity|]. split; [|split; [reflexivity | split; [reflexivity|]]].
  - unfold get_ads_config, attempt, bind_st, unit_st. cbn [negb].
    rewrite call_st_ok by assumption. cbn [ads_config set_ads].
    destruct (update_first ads_by_id _ (ads_config l)) as [a'|] eqn:Hup.
    + apply find_after_update in Hup; [|reflexivity].
      destruct Hup as (x & _ & ->). reflexivity.
    + rewrite find_fresh_last; [reflexivity | | reflexivity].
      exact (proj1 (update_first_none _ _ _) Hup).
  - intros Hnone. split.
    + unfold get_ads_config, attempt, bind_st, unit_st. cbn [negb].
      rewrite call_st_ok by assumption.
      assert (Hn : findOne ads_by_id (ads_config l) = None).
      { unfold findOne. destruct (find ads_by_id (ads_config l)) as [a|] eqn:Ha;
          [|reflexivity].
        apply find_some in Ha. destruct Ha as [Hin Ha]. rewrite (Hnone a Hin) in Ha.
        discriminate. }
      now rewrite Hn.
    + cbn [ads_config set_ads].
      assert (Hn : update_first ads_by_id (fun a => mkAds (ads_id a) config now)
                     (ads_config l) = None) by now apply update_first_none.
      now rewrite Hn.
Qed.

Lemma ads_config_round_trip_witness :
  let config := JsonObject [("enabled", JsonScalar (JBool false))] in
  get_ads_config true [] empty_library
  = (mkReply 200 ReplyDefaultAdsConfig, empty_library, [])
  /\ fst (fst (get_ads_config true []
                 (snd (fst (post_ads_config config 5 true [] empty_library)))))
     = mkReply 200 (ReplyAdsConfig config).
Proof.
  intros config.
  destruct (ads_config_round_trip empty_library config 5 [] [])
    as (_ & Hg & _ & _ & Hd); [reflexivity | reflexivity |].
  split.
  - apply Hd. intros a [].
  - now rewrite Hg.
Defined.

(** ** Listing the chapters of a content *)

Lemma chapters_object_snoc (docs : list chapter_doc) (d : chapter_doc) (k : string) :
  chapters_object (docs ++ [d]) k
  = if String.eqb (to_string (doc_chapterId d)) "__proto__" then chapters_object docs k
    else if String.eqb (to_string (doc_chapterId d)) k then Some (entry_of d)
         else chapters_object docs k.
Proof.
  unfold chapters_object. rewrite fold_left_app. cbn [fold_left]. unfold assign at 1.
  now destruct (String.eqb (to_string (doc_chapterId d)) "__proto__").
Qed.

Lemma chapters_object_proto (docs : list chapter_doc) :
  chapters_object docs "__proto__" = None.
Proof.
  induction docs as [|d r IH] using rev_ind; [reflexivity|].
  rewrite chapters_object_snoc.
  now destruct (String.eqb (to_string (doc_chapterId d)) "__proto__").
Qed.

Lemma chapters_object_last (docs : list chapter_doc) (k : string) :
  k <> "__proto__" ->
  chapters_object docs k
  = option_map entry_of
      (find (fun d => String.eqb (to_string (doc_chapterId d)) k) (rev docs)).
Proof.
  intros Hk. induction docs as [|d r IH] using rev_ind; [reflexivity|].
  rewrite chapters_object_snoc, rev_app_distr. simpl.
  destruct (String.eqb (to_string (doc_chapterId d)) k) eqn:He.
  - apply String.eqb_eq in He. rewrite He.
    apply String.eqb_neq in Hk. now rewrite Hk.
  - now destruct (String.eqb (to_string (doc_chapterId d)) "__proto__").
Qed.

(** GET /api/manga/:id/chapters answers one object keyed by the chapterId
    printed as a string: under a key other than [__proto__] it shows
    title, pages (none when absent) and content (null when absent or
    falsy) of the last stored chapter of that content whose chapterId
    prints to the key, and nothing of any other content.  Chapters whose
    ids print alike (the number 1 and the string "1") share a key, and
    only the later one is shown.  A chapter whose chapterId prints as
    [__proto__] is not in the answer at all: assigning under that key
    sets the prototype of the object and adds no property. *)
Theorem get_chapters_by_key (l : library) (idp : string) (fs : list bool) :
  first_ok fs ->
  let shown (d : chapter_doc) :=
    mkEntry (doc_title d) (match doc_pages d with Some p => p | None => [] end)
      (if truthy (doc_content d) then doc_content d else JNull) in
  exists o,
    get_chapters idp true fs l = (mkReply 200 (ReplyChapters o), l, [])
    /\ (forall k, k <> "__proto__" ->
          o k = option_map shown
                  (find (fun d => String.eqb (to_string (doc_chapterId d)) k)
                     (rev (filter (chapter_of_content idp) (chapter_docs l)))))
    /\ o "__proto__" = None
    /\ (forall k e, o k = Some e ->
          k <> "__proto__"
          /\ exists d, In d (chapter_docs l)
                       /\ to_bson (doc_contentId d) = parseInt (JStr idp)
                       /\ to_string (doc_chapterId d) = k /\ e = shown d)
    /\ (forall d1 d2 rest,
          chapter_docs l = d1 :: d2 :: rest ->
          (forall d, In d rest -> chapter_of_content idp d = false) ->
          chapter_of_content idp d1 = true -> chapter_of_content idp d2 = true ->
          to_string (doc_chapterId d1) = to_string (doc_chapterId d2) ->
          to_string (doc_chapterId d1) <> "__proto__" ->
          o (to_string (doc_chapterId d1)) = Some (shown d2)).
Proof.
  intros Hf shown. eexists. unfold get_chapters, attempt, bind_st, unit_st. cbn [negb].
  rewrite call_st_ok by assumption. split; [reflexivity|].
  split; [intros k Hk; now apply chapters_object_last|].
  split; [apply chapters_object_proto|]. split.
  - intros k e He.
    assert (Hk : k <> "__proto__").
    { intros ->. rewrite chapters_object_proto in He. discriminate. }
    split; [exact Hk|]. rewrite chapters_object_last in He by exact Hk.
    destruct (find _ (rev _)) as [d|] eqn:Hd; [|discriminate]. injection He as <-.
    apply find_some in Hd. destruct Hd as [Hin Hkey]. apply in_rev, filter_In in Hin.
    destruct Hin as [Hin Hc]. exists d. split; [assumption|].
    unfold chapter_of_content, eq_stored in Hc. apply jsval_eqb_eq in Hc.
    split; [now symmetry|]. split; [now apply String.eqb_eq | reflexivity].
  - intros d1 d2 rest Hl Hrest H1 H2 Hk Hp. rewrite Hl. cbn [filter]. rewrite H1, H2.
    rewrite (filter_none_length _ rest Hrest).
    change [d1; d2] with ([d1] ++ [d2]). rewrite chapters_object_snoc.
    rewrite <- Hk. apply String.eqb_neq in Hp. now rewrite Hp, String.eqb_refl.
Qed.

Lemma get_chapters_by_key_witness :
  let d1 := mkChapterDoc (JNum (Num 9)) (JNum (Num 1)) JUndefined (JStr "first") (Some [])
              JNull 0 0 in
  let d2 := mkChapterDoc (JNum (Num 9)) (JStr "1") JUndefined (JStr "second") (Some [])
              JNull 1 1 in
  exists o, fst (fst (get_chapters "9" true [] (mkLibrary [] [d1; d2] [])))
            = mkReply 200 (ReplyChapters o)
            /\ o "1" = Some (mkEntry (JStr "second") [] JNull).
Proof.
  intros d1 d2.
  destruct (get_chapters_by_key (mkLibrary [] [d1; d2] []) "9" [])
    as (o & Hr & _ & _ & _ & Hlast); [reflexivity|].
  exists o. split; [now rewrite Hr|].
  apply (Hlast d1 d2 []); try reflexivity; [intros d [] | discriminate].
Defined.

(** A chapter stored under the id [__proto__] is left out of the listing. *)
Example get_chapters_drops_proto :
  let d := mkChapterDoc (JNum (Num 9)) (JStr "__proto__") JUndefined (JStr "lost") (Some [])
             JNull 0 0 in
  forall k, chapters_object [d] k = None.
Proof. intros d k. reflexivity. Qed.
